(** * EtinuxE console: onboarding stage resolver, insurance enrollment and
      pricing form

    A shallow embedding of the TypeScript front end of the EtinuxE console
    (frontend/src/api.ts, the UserJourney workflow, the InsuranceEnrollment
    page, the two AdminPricing pages and the AdminSupport desk) together
    with a model of the two back-end collaborators that the front end only
    talks to over HTTP (the quote engine and the activation state machine).

    Conventions.
    - A TypeScript string-literal union is an inductive type; an interface is
      a record inside a module of the same name, so that field names are the
      ones of the source ([UserRecord.status], [InsurancePolicyRecord.tier]).
    - A field declared [f?: T | null] is an [option T].
    - A finite JavaScript [number] is the rational [Q] it stands for; where
      a value can also be [NaN] or an infinity, and where the code computes
      with numbers (the pricing form), the type [JsNum] is used and every
      operation rounds to the nearest double.
    - A React component is its state record; an event handler or effect is a
      function from state to state.  Calls to callback props are recorded in
      the state, newest first.
    - A JavaScript [Map<string, V>] is a [gmap string V]. *)

From Stdlib Require Import Ascii String ZArith QArith Qabs Qround Qminmax Lia.
From Stdlib Require Import Lqa Sorted.
From stdpp Require Import base decidable option list strings pretty gmap fin_maps.

Local Open Scope string_scope.
Local Open Scope list_scope.

(** ** Part I. Data model (frontend/src/api.ts) *)

Inductive MiniaturizationStatus :=
| draft | awaiting_approval | approved | rejected | completed.

Inductive MiniaturizationStage :=
| stage_signup | stage_verified | request_submitted | payment_captured
| assessment_complete | awaiting_procedure | miniaturized.

Inductive UserStatus := pending_verification | verified.

Inductive InsuranceTier := basic | plus | premium | ultra.

Inductive PolicyStatus := active | cancelled | scheduled.

Inductive ActivationMode := immediate | mode_scheduled.

#[global] Instance MiniaturizationStatus_eq_dec : EqDecision MiniaturizationStatus.
Proof. solve_decision. Defined.
#[global] Instance MiniaturizationStage_eq_dec : EqDecision MiniaturizationStage.
Proof. solve_decision. Defined.
#[global] Instance UserStatus_eq_dec : EqDecision UserStatus.
Proof. solve_decision. Defined.
#[global] Instance InsuranceTier_eq_dec : EqDecision InsuranceTier.
Proof. solve_decision. Defined.
#[global] Instance PolicyStatus_eq_dec : EqDecision PolicyStatus.
Proof. solve_decision. Defined.
#[global] Instance ActivationMode_eq_dec : EqDecision ActivationMode.
Proof. solve_decision. Defined.

(** The wire spelling of a request status, as [request.status] holds it. *)
Definition status_text (s : MiniaturizationStatus) : string :=
  match s with
  | draft => "draft"
  | awaiting_approval => "awaiting_approval"
  | approved => "approved"
  | rejected => "rejected"
  | completed => "completed"
  end.

(** [data.user.current_stage.toUpperCase()]. *)
Definition stage_upper (s : MiniaturizationStage) : string :=
  match s with
  | stage_signup => "SIGNUP"
  | stage_verified => "VERIFIED"
  | request_submitted => "REQUEST_SUBMITTED"
  | payment_captured => "PAYMENT_CAPTURED"
  | assessment_complete => "ASSESSMENT_COMPLETE"
  | awaiting_procedure => "AWAITING_PROCEDURE"
  | miniaturized => "MINIATURIZED"
  end.

Module BodyProfile.
Record t := mk {
  height_cm : Q;
  weight_kg : option Q;
  blood_type : option string;
  allergies : option (list string);
  notes : option string }.
End BodyProfile.

Module UserRecord.
Record t := mk {
  id : string;
  email : string;
  name : string;
  location : option string;
  body_profile : option BodyProfile.t;
  status : UserStatus;
  current_stage : MiniaturizationStage;
  created_at : string;
  updated_at : string;
  respiration_rate : Q;
  energy_consumption : Q;
  medical_history : option string;
  health_score : Q;
  health_bucket : string }.
End UserRecord.

Module MiniaturizationRequestRecord.
Record t := mk {
  id : string;
  user_id : string;
  scale : Q;
  cost_usd : Q;
  status : MiniaturizationStatus;
  created_at : string;
  updated_at : string;
  approved_at : option string;
  completed_at : option string;
  staff_health_rating : option Q }.
End MiniaturizationRequestRecord.

Module PaymentRecord.
Record t := mk {
  id : string;
  user_id : string;
  request_id : string;
  amount_usd : Q;
  currency : string;
  status : string;
  created_at : string;
  paid_at : string }.
End PaymentRecord.

Module DNATokenRecord.
Record t := mk {
  id : string;
  user_id : string;
  payload_checksum : string;
  encrypted_blob : string;
  created_at : string;
  remaining_energy : Q }.
End DNATokenRecord.

Module MiniaturizationTokenRecord.
Record t := mk {
  id : string;
  user_id : string;
  request_id : string;
  dna_token_id : string;
  status : MiniaturizationStatus;
  created_at : string;
  updated_at : string }.
End MiniaturizationTokenRecord.

Module MemorySummaryRecord.
Record t := mk {
  total_points : Z;
  available_points : Z;
  spent_points : Z;
  logs_recorded : Z;
  tokens_issued : Z }.
End MemorySummaryRecord.

Module InsurancePolicyRecord.
Record t := mk {
  id : string;
  user_id : string;
  request_id : string;
  tier : InsuranceTier;
  scale : Q;
  steps : Z;
  base_rate_per_step : Q;
  health_bucket : string;
  bucket_multiplier : Q;
  points_redeemed : Z;
  points_value_usd : Q;
  monthly_premium : Q;
  final_premium : Q;
  status : PolicyStatus;
  created_at : string;
  next_billing_at : string;
  last_billed_at : option string;
  effective_at : string }.
End InsurancePolicyRecord.

Module InsurancePolicyQuote.
Record t := mk {
  tier : InsuranceTier;
  steps : Z;
  base_rate_per_step : Q;
  bucket_multiplier : Q;
  monthly_premium : Q;
  final_premium : Q;
  points_redeemed : Z;
  discount_value_usd : Q;
  points_available : Z }.
End InsurancePolicyQuote.

(** [UserOverview]; the fields that no modelled function reads ([dna_profile],
    [assessments], [memory_logs], [memory_tokens], [health_profile]) are left
    out. *)
Module UserOverview.
Record t := mk {
  user : UserRecord.t;
  requests : list MiniaturizationRequestRecord.t;
  payments : list PaymentRecord.t;
  dna_tokens : list DNATokenRecord.t;
  miniaturization_tokens : list MiniaturizationTokenRecord.t;
  memory_summary : MemorySummaryRecord.t;
  insurance_policies : list InsurancePolicyRecord.t }.
End UserOverview.

Module InsurancePolicySelectionPayload.
Record t := mk { request_id : string; tier : InsuranceTier }.
End InsurancePolicySelectionPayload.

Module Discount.
Record t := mk { points_spent : Z; value_usd : Q }.
End Discount.

Module InsurancePolicyActivationResponse.
Record t := mk {
  policy : InsurancePolicyRecord.t;
  payment : option PaymentRecord.t;
  discount : Discount.t;
  pricing : InsurancePolicyQuote.t;
  replaced_policy_id : option string;
  activation_mode : option ActivationMode;
  effective_at : option string }.
End InsurancePolicyActivationResponse.

Module InsurancePolicyQuoteResponse.
Record t := mk {
  quote : InsurancePolicyQuote.t;
  has_active_policy : bool;
  eligible : bool;
  request_status : MiniaturizationStatus;
  active_policy_tier : option InsuranceTier;
  activation_mode : option ActivationMode;
  effective_at : option string;
  scheduled_policy_tier : option InsuranceTier }.
End InsurancePolicyQuoteResponse.

Module TokenIssueResponse.
Record t := mk { token_id : string; status : MiniaturizationStatus }.
End TokenIssueResponse.

(** JavaScript truthiness of a [string | null | undefined]. *)
Definition truthy (v : option string) : bool :=
  match v with
  | Some s => negb (String.eqb s "")
  | None => false
  end.

(** ** Part II. The journey stage resolver (UserJourney workflow) *)

Inductive JourneyStep :=
| signup | verify | intake | mini | payment | assessment | token | complete.

#[global] Instance JourneyStep_eq_dec : EqDecision JourneyStep.
Proof. solve_decision. Defined.

(** All members of the [JourneyStep] union, in declaration order. *)
Definition JourneyStep_members : list JourneyStep :=
  [signup; verify; intake; mini; payment; assessment; token; complete].

Definition resolveJourneyStep (overview : UserOverview.t) : JourneyStep :=
  let user := UserOverview.user overview in
  if negb (bool_decide (UserRecord.status user = verified)) then verify
  else
    let hasBodyProfile := bool_decide (is_Some (UserRecord.body_profile user)) in
    let hasRequest := (0 <? length (UserOverview.requests overview))%nat in
    let hasPayment := (0 <? length (UserOverview.payments overview))%nat in
    let hasDnaToken := (0 <? length (UserOverview.dna_tokens overview))%nat in
    let hasMiniToken :=
      (0 <? length (UserOverview.miniaturization_tokens overview))%nat in
    if negb hasBodyProfile then intake
    else if negb hasRequest then mini
    else if negb hasPayment then payment
    else if negb hasDnaToken then assessment
    else if negb hasMiniToken then token
    else complete.

(** *** The UserJourney component

    The component state that the step machinery reads or writes.  The four
    form drafts ([signupForm], [healthForm], [miniForm], [assessmentForm]) and
    [paymentAmount] are prefilled by [hydrateFromOverview] too, but nothing
    that computes [step] reads them; they are not modelled. *)

Inductive JourneyMode := mode_new | mode_resume.
Inductive HydrateContext := ctx_initial | ctx_sync.

#[global] Instance JourneyMode_eq_dec : EqDecision JourneyMode.
Proof. solve_decision. Defined.
#[global] Instance HydrateContext_eq_dec : EqDecision HydrateContext.
Proof. solve_decision. Defined.

(** A call made to one of the callback props. *)
Inductive PropCall :=
| StageUpdate (stage : MiniaturizationStage) (status : UserStatus)
| Complete.

Module UserJourneyProps.
Record t := mk {
  mode : JourneyMode;
  userId : option string;
  userEmail : option string;
  onStageUpdate : bool;   (* is the prop provided? *)
  onComplete : bool }.
End UserJourneyProps.

Module Journey.
Record t := mk {
  step : JourneyStep;
  overview : option UserOverview.t;
  userId : option string;
  otpInput : string;
  otpCooldown : Z;
  requestId : option string;
  estimatedCost : option Q;
  dnaTokenId : option string;
  issuedToken : option TokenIssueResponse.t;
  statusLog : list string;
  previousStageRef : option MiniaturizationStage;
  initialHydrateRef : bool;
  completionNotifiedRef : bool;
  calls : list PropCall }.
End Journey.

Definition OTP_COOLDOWN_SECONDS : Z := 60.

(** [FINALIZED_STAGES.has(stage)]. *)
Definition FINALIZED_STAGES (s : MiniaturizationStage) : bool :=
  match s with
  | awaiting_procedure | miniaturized => true
  | _ => false
  end.

(** [useState] initial values of the component. *)
Definition initialJourney (props : UserJourneyProps.t) : Journey.t :=
  {| Journey.step :=
       if bool_decide (UserJourneyProps.mode props = mode_resume)
       then verify else signup;
     Journey.overview := None;
     Journey.userId := UserJourneyProps.userId props;
     Journey.otpInput := "";
     Journey.otpCooldown := 0;
     Journey.requestId := None;
     Journey.estimatedCost := None;
     Journey.dnaTokenId := None;
     Journey.issuedToken := None;
     Journey.statusLog := [];
     Journey.previousStageRef := None;
     Journey.initialHydrateRef := false;
     Journey.completionNotifiedRef := false;
     Journey.calls := [] |}.

(** [log(message)]: [setStatusLog(logs => [message, ...logs.slice(0, 8)])]. *)
Definition log (message : string) (logs : list string) : list string :=
  message :: take 8 logs.

(** [onStageUpdate?.(stage, status)]. *)
Definition call_onStageUpdate (props : UserJourneyProps.t)
    (stage : MiniaturizationStage) (status : UserStatus)
    (calls : list PropCall) : list PropCall :=
  if UserJourneyProps.onStageUpdate props
  then StageUpdate stage status :: calls else calls.

Definition hydrateFromOverview (props : UserJourneyProps.t)
    (data : UserOverview.t) (context : HydrateContext)
    (st : Journey.t) : Journey.t :=
  let user := UserOverview.user data in
  let calls1 :=
    call_onStageUpdate props (UserRecord.current_stage user)
      (UserRecord.status user) (Journey.calls st) in
  let nextStep := resolveJourneyStep data in
  let previousStage := Journey.previousStageRef st in
  let stageChanged :=
    match previousStage with
    | Some p => negb (bool_decide (p = UserRecord.current_stage user))
    | None => false
    end in
  let firstResume :=
    bool_decide (context = ctx_initial)
    && bool_decide (UserJourneyProps.mode props = mode_resume)
    && negb (Journey.initialHydrateRef st) in
  let logs :=
    if firstResume then
      log ("Continuing at stage "
             +:+ stage_upper (UserRecord.current_stage user) +:+ ".")
        (Journey.statusLog st)
    else if stageChanged then
      log ("Stage advanced to "
             +:+ stage_upper (UserRecord.current_stage user) +:+ ".")
        (Journey.statusLog st)
    else Journey.statusLog st in
  let leavesVerify := negb (bool_decide (nextStep = verify)) in
  let latestRequest := last (UserOverview.requests data) in
  let latestDnaToken := last (UserOverview.dna_tokens data) in
  let latestMiniToken := last (UserOverview.miniaturization_tokens data) in
  let notify :=
    bool_decide (nextStep = complete)
    && FINALIZED_STAGES (UserRecord.current_stage user)
    && UserJourneyProps.onComplete props
    && negb (Journey.completionNotifiedRef st) in
  {| Journey.step := nextStep;
     Journey.overview := Some data;
     Journey.userId := Some (UserRecord.id user);
     Journey.otpInput := if leavesVerify then "" else Journey.otpInput st;
     Journey.otpCooldown := if leavesVerify then 0 else Journey.otpCooldown st;
     Journey.requestId := MiniaturizationRequestRecord.id <$> latestRequest;
     Journey.estimatedCost :=
       MiniaturizationRequestRecord.cost_usd <$> latestRequest;
     Journey.dnaTokenId := DNATokenRecord.id <$> latestDnaToken;
     Journey.issuedToken :=
       (λ t, {| TokenIssueResponse.token_id := MiniaturizationTokenRecord.id t;
                TokenIssueResponse.status :=
                  MiniaturizationTokenRecord.status t |})
       <$> latestMiniToken;
     Journey.statusLog := logs;
     Journey.previousStageRef := Some (UserRecord.current_stage user);
     Journey.initialHydrateRef :=
       if firstResume then true else Journey.initialHydrateRef st;
     Journey.completionNotifiedRef :=
       if notify then true else Journey.completionNotifiedRef st;
     Journey.calls := if notify then Complete :: calls1 else calls1 |}.

(** [refreshOverview(context)]: [if (!userId) return;] and then the outcome
    of [fetchUserOverview], which is [Some data], or [None] when the request
    fails (the error is only written to the console). *)
Definition refreshOverview (props : UserJourneyProps.t)
    (fetched : option UserOverview.t) (context : HydrateContext)
    (st : Journey.t) : Journey.t :=
  if negb (truthy (Journey.userId st)) then st
  else
    match fetched with
    | Some data => hydrateFromOverview props data context st
    | None => st
    end.

(** [value.toFixed(2)] for a finite number below 1e21 in absolute value:
    the nearest multiple of 1/100, a tie going to the larger magnitude, with
    the sign of [value] in front. *)
Definition toFixed2 (value : Q) : string :=
  let n := Qfloor (Qabs value * 100 + (1 # 2))%Q in
  let frac := (n mod 100)%Z in
  (if Qlt_le_dec value 0 then "-" else "")
  +:+ pretty (n / 100)%Z +:+ "."
  +:+ (if (frac <? 10)%Z then "0" else "") +:+ pretty frac.

(** The mutating actions of the workflow whose handlers end with
    [void refreshOverview()], each with what its response carries. *)
Inductive Mutation :=
| Verified (stage : MiniaturizationStage) (is_verified : bool)
| IntakeSubmitted (health_score_text health_bucket : string)
| RequestSubmitted (request_id : string) (cost_usd : Q)
| PaymentRecorded
| AssessmentRecorded (dna_token_id : string)
| TokenIssued (response : TokenIssueResponse.t).

(** The step a handler sets by itself once its request succeeded. *)
Definition optimisticStep (m : Mutation) : JourneyStep :=
  match m with
  | Verified _ _ => intake
  | IntakeSubmitted _ _ => mini
  | RequestSubmitted _ _ => payment
  | PaymentRecorded => assessment
  | AssessmentRecorded _ => token
  | TokenIssued _ => complete
  end.

Definition set_step (s : JourneyStep) (st : Journey.t) : Journey.t :=
  {| Journey.step := s;
     Journey.overview := Journey.overview st;
     Journey.userId := Journey.userId st;
     Journey.otpInput := Journey.otpInput st;
     Journey.otpCooldown := Journey.otpCooldown st;
     Journey.requestId := Journey.requestId st;
     Journey.estimatedCost := Journey.estimatedCost st;
     Journey.dnaTokenId := Journey.dnaTokenId st;
     Journey.issuedToken := Journey.issuedToken st;
     Journey.statusLog := Journey.statusLog st;
     Journey.previousStageRef := Journey.previousStageRef st;
     Journey.initialHydrateRef := Journey.initialHydrateRef st;
     Journey.completionNotifiedRef := Journey.completionNotifiedRef st;
     Journey.calls := Journey.calls st |}.

Definition add_log (message : string) (st : Journey.t) : Journey.t :=
  {| Journey.step := Journey.step st;
     Journey.overview := Journey.overview st;
     Journey.userId := Journey.userId st;
     Journey.otpInput := Journey.otpInput st;
     Journey.otpCooldown := Journey.otpCooldown st;
     Journey.requestId := Journey.requestId st;
     Journey.estimatedCost := Journey.estimatedCost st;
     Journey.dnaTokenId := Journey.dnaTokenId st;
     Journey.issuedToken := Journey.issuedToken st;
     Journey.statusLog := log message (Journey.statusLog st);
     Journey.previousStageRef := Journey.previousStageRef st;
     Journey.initialHydrateRef := Journey.initialHydrateRef st;
     Journey.completionNotifiedRef := Journey.completionNotifiedRef st;
     Journey.calls := Journey.calls st |}.

Definition notify_stage (props : UserJourneyProps.t)
    (stage : MiniaturizationStage) (status : UserStatus)
    (st : Journey.t) : Journey.t :=
  {| Journey.step := Journey.step st;
     Journey.overview := Journey.overview st;
     Journey.userId := Journey.userId st;
     Journey.otpInput := Journey.otpInput st;
     Journey.otpCooldown := Journey.otpCooldown st;
     Journey.requestId := Journey.requestId st;
     Journey.estimatedCost := Journey.estimatedCost st;
     Journey.dnaTokenId := Journey.dnaTokenId st;
     Journey.issuedToken := Journey.issuedToken st;
     Journey.statusLog := Journey.statusLog st;
     Journey.previousStageRef := Journey.previousStageRef st;
     Journey.initialHydrateRef := Journey.initialHydrateRef st;
     Journey.completionNotifiedRef := Journey.completionNotifiedRef st;
     Journey.calls := call_onStageUpdate props stage status (Journey.calls st) |}.

(** The fields a response is copied into: [setOtpInput]/[setOtpCooldown],
    [setRequestId]/[setEstimatedCost], [setDnaTokenId], [setIssuedToken]. *)
Definition set_fields (otp : option (string * Z))
    (request : option (string * Q)) (dna : option string)
    (issued : option TokenIssueResponse.t) (st : Journey.t) : Journey.t :=
  {| Journey.step := Journey.step st;
     Journey.overview := Journey.overview st;
     Journey.userId := Journey.userId st;
     Journey.otpInput := from_option fst (Journey.otpInput st) otp;
     Journey.otpCooldown := from_option snd (Journey.otpCooldown st) otp;
     Journey.requestId :=
       from_option (λ r, Some (fst r)) (Journey.requestId st) request;
     Journey.estimatedCost :=
       from_option (λ r, Some (snd r)) (Journey.estimatedCost st) request;
     Journey.dnaTokenId := from_option Some (Journey.dnaTokenId st) dna;
     Journey.issuedToken := from_option Some (Journey.issuedToken st) issued;
     Journey.statusLog := Journey.statusLog st;
     Journey.previousStageRef := Journey.previousStageRef st;
     Journey.initialHydrateRef := Journey.initialHydrateRef st;
     Journey.completionNotifiedRef := Journey.completionNotifiedRef st;
     Journey.calls := Journey.calls st |}.

(** [if (onComplete && !completionNotifiedRef.current) { ...; onComplete(); }] *)
Definition notify_complete (props : UserJourneyProps.t)
    (st : Journey.t) : Journey.t :=
  let fire :=
    UserJourneyProps.onComplete props
    && negb (Journey.completionNotifiedRef st) in
  {| Journey.step := Journey.step st;
     Journey.overview := Journey.overview st;
     Journey.userId := Journey.userId st;
     Journey.otpInput := Journey.otpInput st;
     Journey.otpCooldown := Journey.otpCooldown st;
     Journey.requestId := Journey.requestId st;
     Journey.estimatedCost := Journey.estimatedCost st;
     Journey.dnaTokenId := Journey.dnaTokenId st;
     Journey.issuedToken := Journey.issuedToken st;
     Journey.statusLog := Journey.statusLog st;
     Journey.previousStageRef := Journey.previousStageRef st;
     Journey.initialHydrateRef := Journey.initialHydrateRef st;
     Journey.completionNotifiedRef :=
       if fire then true else Journey.completionNotifiedRef st;
     Journey.calls :=
       if fire then Complete :: Journey.calls st else Journey.calls st |}.

(** The synchronous part of a handler's success path ([handleVerify],
    [handleIntake], [handleMiniRequest], [handlePayment], [handleAssessment],
    [handleTokenIssue]); the refetch that [void refreshOverview()] starts
    resolves after it. *)
Definition onMutationSuccess (props : UserJourneyProps.t) (m : Mutation)
    (st : Journey.t) : Journey.t :=
  match m with
  | Verified stage is_verified =>
      set_fields (Some ("", 0%Z)) None None None
        (set_step intake
           (notify_stage props stage
              (if is_verified then verified else pending_verification)
              (add_log "Identity verified. Continue with health intake." st)))
  | IntakeSubmitted score bucket =>
      set_step mini
        (add_log ("Health intake recorded. Score " +:+ score +:+ " ("
                    +:+ bucket +:+ ").") st)
  | RequestSubmitted rid cost =>
      set_step payment
        (notify_stage props request_submitted verified
           (add_log ("Miniaturization request filed. Estimated cost $"
                       +:+ toFixed2 cost +:+ ".")
              (set_fields None (Some (rid, cost)) None None st)))
  | PaymentRecorded =>
      set_step assessment
        (notify_stage props payment_captured verified
           (add_log "Invoice settled. DNA vault intake commencing." st))
  | AssessmentRecorded tok =>
      set_step token
        (notify_stage props assessment_complete verified
           (add_log "DNA token sealed within the Vault."
              (set_fields None None (Some tok) None st)))
  | TokenIssued resp =>
      notify_complete props
        (set_step complete
           (notify_stage props awaiting_procedure verified
              (add_log "Miniaturization token minted. Awaiting vault clearance."
                 (set_fields None None None (Some resp) st))))
  end.

(** The early return at the head of each handler: [if (!userId) return;],
    with [!requestId] in [handlePayment] and [!requestId || !dnaTokenId] in
    [handleTokenIssue] as well.  [handlerReady] tells that the handler goes
    on. *)
Definition handlerReady (m : Mutation) (st : Journey.t) : bool :=
  match m with
  | Verified _ _ | IntakeSubmitted _ _ | RequestSubmitted _ _
  | AssessmentRecorded _ => truthy (Journey.userId st)
  | PaymentRecorded =>
      truthy (Journey.userId st) && truthy (Journey.requestId st)
  | TokenIssued _ =>
      truthy (Journey.userId st) && truthy (Journey.requestId st)
      && truthy (Journey.dnaTokenId st)
  end.

(** A handler whose request succeeds: its early return, its success path
    and the outcome of the refetch it started. *)
Definition mutateThenSync (props : UserJourneyProps.t) (m : Mutation)
    (fetched : option UserOverview.t) (st : Journey.t) : Journey.t :=
  if negb (handlerReady m st) then st
  else refreshOverview props fetched ctx_sync (onMutationSuccess props m st).

(** ** Part III. The InsuranceEnrollment page *)

Definition insuranceTierOptions : list InsuranceTier :=
  [basic; plus; premium; ultra].

Definition insuranceTierLabels (tier : InsuranceTier) : string :=
  match tier with
  | basic => "Basic"
  | plus => "Plus"
  | premium => "Premium"
  | ultra => "Ultra"
  end.

(** [formatCurrency]. *)
Definition formatCurrency (value : Q) : string := "$" +:+ toFixed2 value.

#[global] Arguments toFixed2 : simpl never.
#[global] Arguments formatCurrency : simpl never.

(** [text.replace(/_/g, " ")]. *)
Fixpoint replace_underscores (text : string) : string :=
  match text with
  | EmptyString => EmptyString
  | String c rest =>
      String (if Ascii.eqb c "_"%char then " "%char else c)
        (replace_underscores rest)
  end.

Module Enrollment.
Record t := mk {
  overview : option UserOverview.t;
  loading : bool;
  error : option string;
  selectedRequestId : string;
  selectedTier : InsuranceTier;
  quote : option InsurancePolicyQuote.t;
  quoteEligible : bool;
  quoteStatus : option MiniaturizationStatus;
  activePolicyTier : option InsuranceTier;
  activationMode : option ActivationMode;
  effectiveAt : option string;
  scheduledPolicyTier : option InsuranceTier;
  previewLoading : bool;
  previewError : option string;
  activationSaving : bool;
  activationFeedback : option string;
  activationError : option string }.
End Enrollment.

(** [overview?.insurance_policies ?? []] and [overview?.requests ?? []]. *)
Definition policies_of (overview : option UserOverview.t)
    : list InsurancePolicyRecord.t :=
  from_option UserOverview.insurance_policies [] overview.

Definition requests_of (overview : option UserOverview.t)
    : list MiniaturizationRequestRecord.t :=
  from_option UserOverview.requests [] overview.

(** The loop shared by [policiesByRequest] and [scheduledPoliciesByRequest]:
    [for (const policy of policies) if (policy.status === wanted)
     mapping.set(policy.request_id, policy)]. *)
Definition indexByRequest (wanted : PolicyStatus)
    (policies : list InsurancePolicyRecord.t)
    : gmap string InsurancePolicyRecord.t :=
  foldl (λ mapping policy,
           if bool_decide (InsurancePolicyRecord.status policy = wanted)
           then <[InsurancePolicyRecord.request_id policy := policy]> mapping
           else mapping)
    ∅ policies.

Definition policiesByRequest (overview : option UserOverview.t)
    : gmap string InsurancePolicyRecord.t :=
  indexByRequest active (policies_of overview).

Definition scheduledPoliciesByRequest (overview : option UserOverview.t)
    : gmap string InsurancePolicyRecord.t :=
  indexByRequest scheduled (policies_of overview).

Definition statusEligible (status : MiniaturizationStatus) : bool :=
  bool_decide (status = approved) || bool_decide (status = completed).

Definition eligibleRequests (overview : option UserOverview.t)
    : list MiniaturizationRequestRecord.t :=
  filter (λ request,
            statusEligible (MiniaturizationRequestRecord.status request) = true)
    (requests_of overview).

Definition activePolicies (overview : option UserOverview.t)
    : list InsurancePolicyRecord.t :=
  filter (λ policy, InsurancePolicyRecord.status policy = active)
    (policies_of overview).

Definition scheduledPolicies (overview : option UserOverview.t)
    : list InsurancePolicyRecord.t :=
  filter (λ policy, InsurancePolicyRecord.status policy = scheduled)
    (policies_of overview).

(** The effect that keeps [selectedRequestId] among the eligible requests. *)
Definition syncSelectedRequestId
    (eligible : list MiniaturizationRequestRecord.t) (prev : string)
    : string :=
  match eligible with
  | [] => ""
  | first :: _ =>
      if negb (String.eqb prev "")
         && existsb (λ request,
                       String.eqb (MiniaturizationRequestRecord.id request) prev)
              eligible
      then prev
      else MiniaturizationRequestRecord.id first
  end.

(** The effect that follows the selection: the tier select and
    [activePolicyTier] show the selected request's active policy, if any;
    it returns the new [selectedTier] and [activePolicyTier]. *)
Definition syncSelectedTier
    (byRequest : gmap string InsurancePolicyRecord.t)
    (selectedRequestId : string) : InsuranceTier * option InsuranceTier :=
  if String.eqb selectedRequestId "" then (basic, None)
  else
    match byRequest !! selectedRequestId with
    | Some activePolicy =>
        (InsurancePolicyRecord.tier activePolicy,
         Some (InsurancePolicyRecord.tier activePolicy))
    | None => (basic, None)
    end.

(** The options of the "Eligible request" select: what [onChange] can store
    in [selectedRequestId]. *)
Definition requestOptions (overview : option UserOverview.t) : list string :=
  MiniaturizationRequestRecord.id <$> eligibleRequests overview.

Definition sameTierActive (st : Enrollment.t) : bool :=
  match Enrollment.activePolicyTier st, Enrollment.quote st with
  | Some tier, Some q => bool_decide (InsurancePolicyQuote.tier q = tier)
  | _, _ => false
  end.

Definition sameTierScheduled (st : Enrollment.t) : bool :=
  match Enrollment.scheduledPolicyTier st, Enrollment.quote st with
  | Some tier, Some q => bool_decide (InsurancePolicyQuote.tier q = tier)
  | _, _ => false
  end.

Definition disableActivate (st : Enrollment.t) : bool :=
  String.eqb (Enrollment.selectedRequestId st) ""
  || negb (bool_decide (is_Some (Enrollment.quote st)))
  || negb (Enrollment.quoteEligible st)
  || Enrollment.activationSaving st
  || Enrollment.previewLoading st
  || sameTierActive st
  || sameTierScheduled st.

Section Rendering.

(** [new Date(value)] followed by [toLocaleString("en-IN", ...)]: [None] when
    the date is invalid.  The host's date library is a parameter. *)
Variable toLocale : string → option string.

Definition formatDate (value : option string) : string :=
  if truthy value then
    let text := default "" value in
    default text (toLocale text)
  else "—".

(** [stamp ? formatDate(stamp) : "your next billing date"]. *)
Definition scheduleLabel (stamp : option string) : string :=
  if truthy stamp then formatDate stamp else "your next billing date".

Definition infoMessage (st : Enrollment.t) : option string :=
  match Enrollment.quote st with
  | None => None
  | Some q =>
      if negb (Enrollment.quoteEligible st) then
        Some ("Request status is "
                +:+ default "unavailable"
                      ((λ s, replace_underscores (status_text s))
                         <$> Enrollment.quoteStatus st)
                +:+ ". Coverage activates once approval completes.")
      else if sameTierActive st then
        Some "This tier is already active for the selected request."
      else if sameTierScheduled st then
        Some ("This tier is already scheduled to begin on "
                +:+ scheduleLabel (Enrollment.effectiveAt st)
                +:+ ". No further action required.")
      else if bool_decide (Enrollment.activationMode st = Some mode_scheduled)
      then
        let currentLabel :=
          match Enrollment.activePolicyTier st with
          | Some tier => insuranceTierLabels tier +:+ " coverage"
          | None => "Current coverage"
          end in
        let existingScheduleNote :=
          match Enrollment.scheduledPolicyTier st with
          | Some tier =>
              if negb (bool_decide (tier = InsurancePolicyQuote.tier q))
              then " This will replace your scheduled "
                     +:+ insuranceTierLabels tier +:+ " coverage."
              else ""
          | None => ""
          end in
        Some ("This change takes effect on your next billing date ("
                +:+ scheduleLabel (Enrollment.effectiveAt st) +:+ "). "
                +:+ currentLabel +:+ " stays active until then."
                +:+ existingScheduleNote)
      else Some "Activation will start coverage immediately."
  end.

(** The message [handleActivate] shows for a successful response;
    [previousTier] is [activePolicyTier] at the time of the click. *)
Definition activationFeedbackText (previousTier : option InsuranceTier)
    (response : InsurancePolicyActivationResponse.t) : string :=
  let pricing := InsurancePolicyActivationResponse.pricing response in
  let newTierLabel := insuranceTierLabels (InsurancePolicyQuote.tier pricing) in
  let previousTierLabel := insuranceTierLabels <$> previousTier in
  let mode :=
    default immediate (InsurancePolicyActivationResponse.activation_mode response) in
  let effectiveLabel :=
    scheduleLabel (InsurancePolicyActivationResponse.effective_at response) in
  let price := formatCurrency (InsurancePolicyQuote.final_premium pricing) in
  if bool_decide (mode = mode_scheduled) then
    let coverageNote :=
      match previousTierLabel with
      | Some label => label +:+ " coverage stays active until then."
      | None => "Current coverage stays active until then."
      end in
    newTierLabel +:+ " coverage scheduled at " +:+ price
      +:+ " per month. It will begin on " +:+ effectiveLabel +:+ ". "
      +:+ coverageNote
  else
    let transitionNote :=
      match previousTierLabel with
      | Some label =>
          if negb (String.eqb label newTierLabel)
          then " Replaced " +:+ label +:+ " coverage."
          else ""
      | None => ""
      end in
    newTierLabel +:+ " coverage active at " +:+ price +:+ " per month."
      +:+ transitionNote.

End Rendering.

(** *** State updates of the page *)

(** The seven [set...] calls that record (or clear) a preview. *)
Definition set_preview (quote : option InsurancePolicyQuote.t)
    (eligible : bool) (status : option MiniaturizationStatus)
    (activeTier : option InsuranceTier) (mode : option ActivationMode)
    (effectiveAt : option string) (scheduledTier : option InsuranceTier)
    (st : Enrollment.t) : Enrollment.t :=
  {| Enrollment.overview := Enrollment.overview st;
     Enrollment.loading := Enrollment.loading st;
     Enrollment.error := Enrollment.error st;
     Enrollment.selectedRequestId := Enrollment.selectedRequestId st;
     Enrollment.selectedTier := Enrollment.selectedTier st;
     Enrollment.quote := quote;
     Enrollment.quoteEligible := eligible;
     Enrollment.quoteStatus := status;
     Enrollment.activePolicyTier := activeTier;
     Enrollment.activationMode := mode;
     Enrollment.effectiveAt := effectiveAt;
     Enrollment.scheduledPolicyTier := scheduledTier;
     Enrollment.previewLoading := Enrollment.previewLoading st;
     Enrollment.previewError := Enrollment.previewError st;
     Enrollment.activationSaving := Enrollment.activationSaving st;
     Enrollment.activationFeedback := Enrollment.activationFeedback st;
     Enrollment.activationError := Enrollment.activationError st |}.

Definition clear_preview : Enrollment.t → Enrollment.t :=
  set_preview None false None None None None None.

Definition set_previewFlags (loading : bool) (error : option string)
    (st : Enrollment.t) : Enrollment.t :=
  {| Enrollment.overview := Enrollment.overview st;
     Enrollment.loading := Enrollment.loading st;
     Enrollment.error := Enrollment.error st;
     Enrollment.selectedRequestId := Enrollment.selectedRequestId st;
     Enrollment.selectedTier := Enrollment.selectedTier st;
     Enrollment.quote := Enrollment.quote st;
     Enrollment.quoteEligible := Enrollment.quoteEligible st;
     Enrollment.quoteStatus := Enrollment.quoteStatus st;
     Enrollment.activePolicyTier := Enrollment.activePolicyTier st;
     Enrollment.activationMode := Enrollment.activationMode st;
     Enrollment.effectiveAt := Enrollment.effectiveAt st;
     Enrollment.scheduledPolicyTier := Enrollment.scheduledPolicyTier st;
     Enrollment.previewLoading := loading;
     Enrollment.previewError := error;
     Enrollment.activationSaving := Enrollment.activationSaving st;
     Enrollment.activationFeedback := Enrollment.activationFeedback st;
     Enrollment.activationError := Enrollment.activationError st |}.

Definition set_activation (saving : bool) (feedback error : option string)
    (st : Enrollment.t) : Enrollment.t :=
  {| Enrollment.overview := Enrollment.overview st;
     Enrollment.loading := Enrollment.loading st;
     Enrollment.error := Enrollment.error st;
     Enrollment.selectedRequestId := Enrollment.selectedRequestId st;
     Enrollment.selectedTier := Enrollment.selectedTier st;
     Enrollment.quote := Enrollment.quote st;
     Enrollment.quoteEligible := Enrollment.quoteEligible st;
     Enrollment.quoteStatus := Enrollment.quoteStatus st;
     Enrollment.activePolicyTier := Enrollment.activePolicyTier st;
     Enrollment.activationMode := Enrollment.activationMode st;
     Enrollment.effectiveAt := Enrollment.effectiveAt st;
     Enrollment.scheduledPolicyTier := Enrollment.scheduledPolicyTier st;
     Enrollment.previewLoading := Enrollment.previewLoading st;
     Enrollment.previewError := Enrollment.previewError st;
     Enrollment.activationSaving := saving;
     Enrollment.activationFeedback := feedback;
     Enrollment.activationError := error |}.

(** [setActivationMode], [setEffectiveAt], [setScheduledPolicyTier]. *)
Definition set_schedule (mode : option ActivationMode)
    (effectiveAt : option string) (scheduledTier : option InsuranceTier)
    (st : Enrollment.t) : Enrollment.t :=
  set_preview (Enrollment.quote st) (Enrollment.quoteEligible st)
    (Enrollment.quoteStatus st) (Enrollment.activePolicyTier st)
    mode effectiveAt scheduledTier st.

(** [loadOverview]: the fetch yields the overview ([inr]) or fails with a
    message ([inl]). *)
Definition loadOverview (fetched : string + UserOverview.t)
    (st : Enrollment.t) : Enrollment.t :=
  {| Enrollment.overview :=
       match fetched with
       | inr data => Some data
       | inl _ => Enrollment.overview st
       end;
     Enrollment.loading := false;
     Enrollment.error :=
       match fetched with
       | inr _ => None
       | inl message => Some message
       end;
     Enrollment.selectedRequestId := Enrollment.selectedRequestId st;
     Enrollment.selectedTier := Enrollment.selectedTier st;
     Enrollment.quote := Enrollment.quote st;
     Enrollment.quoteEligible := Enrollment.quoteEligible st;
     Enrollment.quoteStatus := Enrollment.quoteStatus st;
     Enrollment.activePolicyTier := Enrollment.activePolicyTier st;
     Enrollment.activationMode := Enrollment.activationMode st;
     Enrollment.effectiveAt := Enrollment.effectiveAt st;
     Enrollment.scheduledPolicyTier := Enrollment.scheduledPolicyTier st;
     Enrollment.previewLoading := Enrollment.previewLoading st;
     Enrollment.previewError := Enrollment.previewError st;
     Enrollment.activationSaving := Enrollment.activationSaving st;
     Enrollment.activationFeedback := Enrollment.activationFeedback st;
     Enrollment.activationError := Enrollment.activationError st |}.

(** The preview effect once [previewInsurancePolicy] has settled (and the
    effect was not cancelled): the server's answer ([inr]) or the message of a
    rejected request ([inl]). *)
Definition previewEffect (outcome : string + InsurancePolicyQuoteResponse.t)
    (st : Enrollment.t) : Enrollment.t :=
  if String.eqb (Enrollment.selectedRequestId st) "" then clear_preview st
  else
    match outcome with
    | inr response =>
        set_previewFlags false None
          (set_preview
             (Some (InsurancePolicyQuoteResponse.quote response))
             (InsurancePolicyQuoteResponse.eligible response)
             (Some (InsurancePolicyQuoteResponse.request_status response))
             (InsurancePolicyQuoteResponse.active_policy_tier response)
             (InsurancePolicyQuoteResponse.activation_mode response)
             (InsurancePolicyQuoteResponse.effective_at response)
             (InsurancePolicyQuoteResponse.scheduled_policy_tier response)
             st)
    | inl message => set_previewFlags false (Some message) (clear_preview st)
    end.

(** The payload both [previewInsurancePolicy] and [activateInsurancePolicy]
    are called with. *)
Definition selectionPayload (st : Enrollment.t)
    : InsurancePolicySelectionPayload.t :=
  {| InsurancePolicySelectionPayload.request_id := Enrollment.selectedRequestId st;
     InsurancePolicySelectionPayload.tier := Enrollment.selectedTier st |}.

Section Activation.

Variable toLocale : string → option string.

(** [handleActivate], from the click to the end of its [finally] block:
    [outcome] is what [activateInsurancePolicy] settles with and [reloaded]
    what the [loadOverview] of the success path fetches. *)
Definition handleActivate
    (outcome : string + InsurancePolicyActivationResponse.t)
    (reloaded : string + UserOverview.t) (st : Enrollment.t) : Enrollment.t :=
  if String.eqb (Enrollment.selectedRequestId st) "" then st
  else
    let previousTier := Enrollment.activePolicyTier st in
    match outcome with
    | inr response =>
        let responseTier :=
          InsurancePolicyQuote.tier
            (InsurancePolicyActivationResponse.pricing response) in
        let mode :=
          default immediate
            (InsurancePolicyActivationResponse.activation_mode response) in
        set_activation false
          (Some (activationFeedbackText toLocale previousTier response)) None
          (loadOverview reloaded
             (set_schedule (Some mode)
                (InsurancePolicyActivationResponse.effective_at response)
                (if bool_decide (mode = mode_scheduled)
                 then Some responseTier else None)
                st))
    | inl message => set_activation false None (Some message) st
    end.

End Activation.

(** ** Part IV. Pricing settings (frontend/src/api.ts) *)

Inductive HealthBucket := good | normal | unhealthy | extremely_unhealthy.

#[global] Instance HealthBucket_eq_dec : EqDecision HealthBucket.
Proof. solve_decision. Defined.

Definition bucket_text (b : HealthBucket) : string :=
  match b with
  | good => "good"
  | normal => "normal"
  | unhealthy => "unhealthy"
  | extremely_unhealthy => "extremely_unhealthy"
  end.

Module InsurancePricingRecord.
Record t := mk { basic : Q; plus : Q; premium : Q; ultra : Q }.
End InsurancePricingRecord.

Module HealthBucketMultipliersRecord.
Record t := mk {
  good : Q; normal : Q; unhealthy : Q; extremely_unhealthy : Q }.
End HealthBucketMultipliersRecord.

Module PointsDiscountPolicyRecord.
Record t := mk { points_per_discount_unit : Z; discount_per_unit : Q }.
End PointsDiscountPolicyRecord.

Module SettingsRecord.
Record t := mk {
  pricing_per_step : Q;
  scale_min : Q;
  scale_max : Q;
  scale_step : Q;
  insurance_pricing : InsurancePricingRecord.t;
  health_bucket_multipliers : HealthBucketMultipliersRecord.t;
  points_discount : PointsDiscountPolicyRecord.t }.
End SettingsRecord.

(** [settings.insurance_pricing[tier]]. *)
Definition tier_rate (pricing : InsurancePricingRecord.t) (tier : InsuranceTier)
    : Q :=
  match tier with
  | basic => InsurancePricingRecord.basic pricing
  | plus => InsurancePricingRecord.plus pricing
  | premium => InsurancePricingRecord.premium pricing
  | ultra => InsurancePricingRecord.ultra pricing
  end.

(** [settings.health_bucket_multipliers[bucket]]. *)
Definition bucket_rate (m : HealthBucketMultipliersRecord.t) (b : HealthBucket)
    : Q :=
  match b with
  | good => HealthBucketMultipliersRecord.good m
  | normal => HealthBucketMultipliersRecord.normal m
  | unhealthy => HealthBucketMultipliersRecord.unhealthy m
  | extremely_unhealthy => HealthBucketMultipliersRecord.extremely_unhealthy m
  end.

(** ** Part V. The quote engine

    The quote engine runs in the REST back end, which is not part of the
    front-end sources; the client only declares the shape of its result
    ([InsurancePolicyQuote]). *)

(** Modelled from the spec: the errors of the quote engine, missing from the
    sources.  [InvalidTierError] has no constructor: tiers are typed here. *)
Inductive QuoteError := OutOfRangeError.

(** Modelled from the spec: the quote engine's currency rounding, missing
    from the sources: to 2 decimal places, a half going up. *)
Definition round2 (x : Q) : Q := Qfloor (x * 100 + (1 # 2)) # 100.

(** Modelled from the spec: the quote engine's step count, missing from the
    sources: [steps = ceil(scale / settings.scale_step)]. *)
Definition quote_steps (settings : SettingsRecord.t) (scale : Q) : Z :=
  Qceiling (scale / SettingsRecord.scale_step settings).

(** Modelled from the spec: the quote engine's premium, missing from the
    sources: [monthly_premium = steps * base_rate_per_step * bucket_multiplier],
    rounded to 2 decimal places. *)
Definition quote_premium (settings : SettingsRecord.t) (scale : Q)
    (tier : InsuranceTier) (bucket : HealthBucket) : Q :=
  round2 (inject_Z (quote_steps settings scale)
          * tier_rate (SettingsRecord.insurance_pricing settings) tier
          * bucket_rate (SettingsRecord.health_bucket_multipliers settings) bucket).

(** Modelled from the spec: the quote engine's redeemable units, missing from
    the sources:
    [units_redeemable = floor(availablePoints / points_per_discount_unit)]. *)
Definition units_redeemable (policy : PointsDiscountPolicyRecord.t)
    (availablePoints : Z) : Z :=
  (availablePoints / PointsDiscountPolicyRecord.points_per_discount_unit policy)%Z.

(** Modelled from the spec: the quote engine's discount, missing from the
    sources: the discount cannot exceed the premium itself,
    [discount_value_usd = min(monthly_premium, units_redeemable * discount_per_unit)]. *)
Definition discount_value (policy : PointsDiscountPolicyRecord.t)
    (monthly_premium : Q) (availablePoints : Z) : Q :=
  Qmin monthly_premium
    (inject_Z (units_redeemable policy availablePoints)
     * PointsDiscountPolicyRecord.discount_per_unit policy).

(** Modelled from the spec: whether capping occurred in the quote engine
    (missing from the sources): the uncapped discount exceeds the premium. *)
Definition capped (policy : PointsDiscountPolicyRecord.t)
    (monthly_premium : Q) (availablePoints : Z) : bool :=
  negb (Qle_bool
          (inject_Z (units_redeemable policy availablePoints)
           * PointsDiscountPolicyRecord.discount_per_unit policy)
          monthly_premium).

(** Modelled from the spec: the quote engine's redeemed points, missing from
    the sources: the exact number of points whose discount was actually
    applied, recomputed by inverting from the capped discount if capping
    occurred, that is the points of the whole units whose value fits in the
    capped discount (Scenario B: 4 units x 100, since 4x5=20 <= 20 but
    5x5=25 > 20). *)
Definition points_redeemed (policy : PointsDiscountPolicyRecord.t)
    (monthly_premium : Q) (availablePoints : Z) : Z :=
  let per_unit := PointsDiscountPolicyRecord.points_per_discount_unit policy in
  if capped policy monthly_premium availablePoints then
    (Qfloor (discount_value policy monthly_premium availablePoints
             / PointsDiscountPolicyRecord.discount_per_unit policy)
     * per_unit)%Z
  else (units_redeemable policy availablePoints * per_unit)%Z.

(** Modelled from the spec: the quote engine's final premium, missing from the
    sources: [final_premium = monthly_premium - discount_value_usd], floored
    at 0. *)
Definition final_premium (monthly_premium discount : Q) : Q :=
  Qmax 0 (monthly_premium - discount).

(** Modelled from the spec: steps 5 and 6 of the quote engine (missing from
    the sources) for a given premium; the tier, steps and rates are filled in
    by [quote]. *)
Definition price (policy : PointsDiscountPolicyRecord.t)
    (tier : InsuranceTier) (steps : Z) (rate multiplier monthly_premium : Q)
    (availablePoints : Z) : InsurancePolicyQuote.t :=
  let discount := discount_value policy monthly_premium availablePoints in
  {| InsurancePolicyQuote.tier := tier;
     InsurancePolicyQuote.steps := steps;
     InsurancePolicyQuote.base_rate_per_step := rate;
     InsurancePolicyQuote.bucket_multiplier := multiplier;
     InsurancePolicyQuote.monthly_premium := monthly_premium;
     InsurancePolicyQuote.final_premium := final_premium monthly_premium discount;
     InsurancePolicyQuote.points_redeemed :=
       points_redeemed policy monthly_premium availablePoints;
     InsurancePolicyQuote.discount_value_usd := discount;
     InsurancePolicyQuote.points_available := availablePoints |}.

(** Modelled from the spec: the quote engine
    [quote(request, tier, settings, healthBucket, availablePoints)], missing
    from the sources.  It fails with [OutOfRangeError] if the scale is outside
    the configured bounds; the tier is typed, so an unrecognized tier cannot
    be passed. *)
Definition quote (settings : SettingsRecord.t) (scale : Q)
    (tier : InsuranceTier) (bucket : HealthBucket) (availablePoints : Z)
    : QuoteError + InsurancePolicyQuote.t :=
  if Qle_bool (SettingsRecord.scale_min settings) scale
     && Qle_bool scale (SettingsRecord.scale_max settings)
  then
    inr (price (SettingsRecord.points_discount settings) tier
           (quote_steps settings scale)
           (tier_rate (SettingsRecord.insurance_pricing settings) tier)
           (bucket_rate (SettingsRecord.health_bucket_multipliers settings) bucket)
           (quote_premium settings scale tier bucket)
           availablePoints)
  else inl OutOfRangeError.

(** ** Part VI. The activation state machine

    [POST /users/{id}/insurance] is served by the REST back end, which is not
    part of the front-end sources; the client only sends
    [{request_id, tier}] ([activateInsurancePolicy]) and reads the answer. *)

(** Modelled from the spec: the state the activation state machine (missing
    from the sources) works on, for one user: the policy ledger, the payments
    and the memory-points balance. *)
Module Ledger.
Record t := mk {
  policies : list InsurancePolicyRecord.t;
  payments : list PaymentRecord.t;
  available_points : Z }.
End Ledger.

(** Modelled from the spec: what an activation (the state machine is missing
    from the sources) takes from its surroundings: the clock, the next
    billing boundary, fresh identifiers and the user's health bucket. *)
Module ActivationEnv.
Record t := mk {
  now : string;
  next_billing : string;
  policy_id : string;
  payment_id : string;
  health_bucket : HealthBucket }.
End ActivationEnv.

(** Modelled from the spec: the failures of an activation (the state machine
    is missing from the sources). *)
Inductive ActivationError :=
| RequestNotEligibleError
| QuoteFailed (e : QuoteError)
| LedgerInsufficientError.

(** Is this a policy of the given status on the given request? *)
Definition concerns (wanted : PolicyStatus) (request_id : string)
    (policy : InsurancePolicyRecord.t) : bool :=
  bool_decide (InsurancePolicyRecord.status policy = wanted)
  && String.eqb (InsurancePolicyRecord.request_id policy) request_id.

(** The first policy of a given status a ledger lists for a request. *)
Definition find_policy (wanted : PolicyStatus) (request_id : string)
    (policies : list InsurancePolicyRecord.t) : option InsurancePolicyRecord.t :=
  List.find (concerns wanted request_id) policies.

(** How many policies of a given status a request has. *)
Definition count_policies (wanted : PolicyStatus) (request_id : string)
    (policies : list InsurancePolicyRecord.t) : nat :=
  length (List.filter (concerns wanted request_id) policies).

(** A policy row with its status replaced. *)
Definition with_status (status : PolicyStatus)
    (p : InsurancePolicyRecord.t) : InsurancePolicyRecord.t :=
  {| InsurancePolicyRecord.id := InsurancePolicyRecord.id p;
     InsurancePolicyRecord.user_id := InsurancePolicyRecord.user_id p;
     InsurancePolicyRecord.request_id := InsurancePolicyRecord.request_id p;
     InsurancePolicyRecord.tier := InsurancePolicyRecord.tier p;
     InsurancePolicyRecord.scale := InsurancePolicyRecord.scale p;
     InsurancePolicyRecord.steps := InsurancePolicyRecord.steps p;
     InsurancePolicyRecord.base_rate_per_step :=
       InsurancePolicyRecord.base_rate_per_step p;
     InsurancePolicyRecord.health_bucket := InsurancePolicyRecord.health_bucket p;
     InsurancePolicyRecord.bucket_multiplier :=
       InsurancePolicyRecord.bucket_multiplier p;
     InsurancePolicyRecord.points_redeemed :=
       InsurancePolicyRecord.points_redeemed p;
     InsurancePolicyRecord.points_value_usd :=
       InsurancePolicyRecord.points_value_usd p;
     InsurancePolicyRecord.monthly_premium :=
       InsurancePolicyRecord.monthly_premium p;
     InsurancePolicyRecord.final_premium := InsurancePolicyRecord.final_premium p;
     InsurancePolicyRecord.status := status;
     InsurancePolicyRecord.created_at := InsurancePolicyRecord.created_at p;
     InsurancePolicyRecord.next_billing_at :=
       InsurancePolicyRecord.next_billing_at p;
     InsurancePolicyRecord.last_billed_at :=
       InsurancePolicyRecord.last_billed_at p;
     InsurancePolicyRecord.effective_at := InsurancePolicyRecord.effective_at p |}.

(** Modelled from the spec: superseding, in the activation state machine
    missing from the sources: superseded policies transition to [cancelled]. *)
Definition supersede (wanted : PolicyStatus) (request_id : string)
    (policies : list InsurancePolicyRecord.t) : list InsurancePolicyRecord.t :=
  (λ p, if concerns wanted request_id p then with_status cancelled p else p)
  <$> policies.

(** Modelled from the spec: the policy row a creating activation adds (the
    state machine is missing from the sources), filled from the request and
    the quote. *)
Definition new_policy (env : ActivationEnv.t) (user_id : string)
    (request : MiniaturizationRequestRecord.t) (q : InsurancePolicyQuote.t)
    (status : PolicyStatus) (effective_at next_billing_at : string)
    : InsurancePolicyRecord.t :=
  {| InsurancePolicyRecord.id := ActivationEnv.policy_id env;
     InsurancePolicyRecord.user_id := user_id;
     InsurancePolicyRecord.request_id := MiniaturizationRequestRecord.id request;
     InsurancePolicyRecord.tier := InsurancePolicyQuote.tier q;
     InsurancePolicyRecord.scale := MiniaturizationRequestRecord.scale request;
     InsurancePolicyRecord.steps := InsurancePolicyQuote.steps q;
     InsurancePolicyRecord.base_rate_per_step :=
       InsurancePolicyQuote.base_rate_per_step q;
     InsurancePolicyRecord.health_bucket :=
       bucket_text (ActivationEnv.health_bucket env);
     InsurancePolicyRecord.bucket_multiplier :=
       InsurancePolicyQuote.bucket_multiplier q;
     InsurancePolicyRecord.points_redeemed :=
       InsurancePolicyQuote.points_redeemed q;
     InsurancePolicyRecord.points_value_usd :=
       InsurancePolicyQuote.discount_value_usd q;
     InsurancePolicyRecord.monthly_premium :=
       InsurancePolicyQuote.monthly_premium q;
     InsurancePolicyRecord.final_premium := InsurancePolicyQuote.final_premium q;
     InsurancePolicyRecord.status := status;
     InsurancePolicyRecord.created_at := ActivationEnv.now env;
     InsurancePolicyRecord.next_billing_at := next_billing_at;
     InsurancePolicyRecord.last_billed_at := None;
     InsurancePolicyRecord.effective_at := effective_at |}.

(** Modelled from the spec: the pricing block of an answer that returns an
    existing policy (the state machine is missing from the sources): the
    policy's own figures, nothing redeemed. *)
Definition pricing_of (p : InsurancePolicyRecord.t) (availablePoints : Z)
    : InsurancePolicyQuote.t :=
  {| InsurancePolicyQuote.tier := InsurancePolicyRecord.tier p;
     InsurancePolicyQuote.steps := InsurancePolicyRecord.steps p;
     InsurancePolicyQuote.base_rate_per_step :=
       InsurancePolicyRecord.base_rate_per_step p;
     InsurancePolicyQuote.bucket_multiplier :=
       InsurancePolicyRecord.bucket_multiplier p;
     InsurancePolicyQuote.monthly_premium :=
       InsurancePolicyRecord.monthly_premium p;
     InsurancePolicyQuote.final_premium := InsurancePolicyRecord.final_premium p;
     InsurancePolicyQuote.points_redeemed := 0;
     InsurancePolicyQuote.discount_value_usd := 0;
     InsurancePolicyQuote.points_available := availablePoints |}.

(** Modelled from the spec: the answer of a no-op activation (the activation
    state machine is missing from the sources): the existing policy,
    unchanged, nothing redeemed. *)
Definition unchanged (p : InsurancePolicyRecord.t) (st : Ledger.t)
    : InsurancePolicyActivationResponse.t :=
  {| InsurancePolicyActivationResponse.policy := p;
     InsurancePolicyActivationResponse.payment := None;
     InsurancePolicyActivationResponse.discount :=
       {| Discount.points_spent := 0; Discount.value_usd := 0 |};
     InsurancePolicyActivationResponse.pricing :=
       pricing_of p (Ledger.available_points st);
     InsurancePolicyActivationResponse.replaced_policy_id := None;
     InsurancePolicyActivationResponse.activation_mode :=
       Some (if bool_decide (InsurancePolicyRecord.status p = scheduled)
             then mode_scheduled else immediate);
     InsurancePolicyActivationResponse.effective_at :=
       Some (InsurancePolicyRecord.effective_at p) |}.

(** Modelled from the spec: the [Payment] record of the first billing charge
    of an immediate activation (the state machine is missing from the
    sources). *)
Definition first_charge (env : ActivationEnv.t) (user_id : string)
    (request : MiniaturizationRequestRecord.t) (q : InsurancePolicyQuote.t)
    : PaymentRecord.t :=
  {| PaymentRecord.id := ActivationEnv.payment_id env;
     PaymentRecord.user_id := user_id;
     PaymentRecord.request_id := MiniaturizationRequestRecord.id request;
     PaymentRecord.amount_usd := InsurancePolicyQuote.final_premium q;
     PaymentRecord.currency := "USD";
     PaymentRecord.status := "paid";
     PaymentRecord.created_at := ActivationEnv.now env;
     PaymentRecord.paid_at := ActivationEnv.now env |}.

(** Modelled from the spec: a creating activation of the activation state
    machine (missing from the sources): the points of the quote are redeemed
    together with the creation of the policy row, after the defensive ledger
    check; an immediate activation cancels the request's active policy,
    discards its scheduled one and records the first charge, a scheduled one
    replaces the request's previous schedule and leaves the active policy
    untouched. *)
Definition create (env : ActivationEnv.t) (user_id : string)
    (request : MiniaturizationRequestRecord.t) (q : InsurancePolicyQuote.t)
    (current : option InsurancePolicyRecord.t)
    (pending : option InsurancePolicyRecord.t)
    (mode : ActivationMode) (effective_at : string) (st : Ledger.t)
    : ActivationError + InsurancePolicyActivationResponse.t * Ledger.t :=
  let spent := InsurancePolicyQuote.points_redeemed q in
  if (spent <? 0)%Z || (Ledger.available_points st <? spent)%Z
  then inl LedgerInsufficientError
  else
    let rid := MiniaturizationRequestRecord.id request in
    let row :=
      new_policy env user_id request q
        (if bool_decide (mode = immediate) then active else scheduled)
        effective_at
        (if bool_decide (mode = immediate)
         then ActivationEnv.next_billing env else effective_at) in
    let kept :=
      if bool_decide (mode = immediate)
      then supersede scheduled rid (supersede active rid (Ledger.policies st))
      else supersede scheduled rid (Ledger.policies st) in
    let charge :=
      if bool_decide (mode = immediate)
      then Some (first_charge env user_id request q) else None in
    inr ({| InsurancePolicyActivationResponse.policy := row;
            InsurancePolicyActivationResponse.payment := charge;
            InsurancePolicyActivationResponse.discount :=
              {| Discount.points_spent := spent;
                 Discount.value_usd := InsurancePolicyQuote.discount_value_usd q |};
            InsurancePolicyActivationResponse.pricing := q;
            InsurancePolicyActivationResponse.replaced_policy_id :=
              InsurancePolicyRecord.id
              <$> (if bool_decide (mode = immediate) then current else pending);
            InsurancePolicyActivationResponse.activation_mode := Some mode;
            InsurancePolicyActivationResponse.effective_at := Some effective_at |},
         {| Ledger.policies := kept ++ [row];
            Ledger.payments :=
              Ledger.payments st ++ from_option (λ c, [c]) [] charge;
            Ledger.available_points := (Ledger.available_points st - spent)%Z |}).

(** Modelled from the spec: the activation state machine
    [activate(user, request, tier, settings)], missing from the sources.
    - The request must be [approved] or [completed], otherwise
      [RequestNotEligibleError].
    - The two no-op rules come first: the requested tier is the active tier,
      or the tier already scheduled, of the request.
    - With no active policy, or when the caller forces an immediate start,
      the activation is immediate, effective now.
    - Otherwise it is scheduled at the active policy's [next_billing_at]. *)
Definition activate (force_immediate : bool) (env : ActivationEnv.t)
    (settings : SettingsRecord.t) (user_id : string)
    (request : MiniaturizationRequestRecord.t) (tier : InsuranceTier)
    (st : Ledger.t)
    : ActivationError + InsurancePolicyActivationResponse.t * Ledger.t :=
  if negb (statusEligible (MiniaturizationRequestRecord.status request))
  then inl RequestNotEligibleError
  else
    let rid := MiniaturizationRequestRecord.id request in
    let current := find_policy active rid (Ledger.policies st) in
    let pending := find_policy scheduled rid (Ledger.policies st) in
    let same (p : option InsurancePolicyRecord.t) :=
      match p with
      | Some row =>
          if bool_decide (InsurancePolicyRecord.tier row = tier)
          then Some row else None
      | None => None
      end in
    match same current, same pending with
    | Some existing, _ => inr (unchanged existing st, st)
    | None, Some existing => inr (unchanged existing st, st)
    | None, None =>
      match quote settings (MiniaturizationRequestRecord.scale request) tier
              (ActivationEnv.health_bucket env) (Ledger.available_points st) with
      | inl e => inl (QuoteFailed e)
      | inr q =>
          match current with
          | Some a =>
              if force_immediate
              then create env user_id request q current pending immediate
                     (ActivationEnv.now env) st
              else create env user_id request q current pending mode_scheduled
                     (InsurancePolicyRecord.next_billing_at a) st
          | None =>
              create env user_id request q current pending immediate
                (ActivationEnv.now env) st
          end
      end
    end.

(** *** Ledgers the state machine can produce *)

(** Modelled from the spec: the ledger of a user without policies (state
    [NoPolicy] of the state machine, missing from the sources). *)
Definition opened (points : Z) : Ledger.t :=
  {| Ledger.policies := []; Ledger.payments := [];
     Ledger.available_points := points |}.

(** Modelled from the spec: memory submissions award points between
    activations (the points ledger is missing from the sources). *)
Definition award (points : Z) (st : Ledger.t) : Ledger.t :=
  {| Ledger.policies := Ledger.policies st;
     Ledger.payments := Ledger.payments st;
     Ledger.available_points := (Ledger.available_points st + points)%Z |}.

(** The ledgers reached from an empty one by awards and successful
    activations, forced or not. *)
Inductive reachable : Ledger.t → Prop :=
| reach_opened points : reachable (opened points)
| reach_award points st : reachable st → reachable (award points st)
| reach_activate force env settings user_id request tier st answer st' :
    reachable st →
    activate force env settings user_id request tier st = inr (answer, st') →
    reachable st'.

(** At most one policy of a status per request. *)
Definition at_most_one (wanted : PolicyStatus)
    (policies : list InsurancePolicyRecord.t) : Prop :=
  ∀ request_id, (count_policies wanted request_id policies ≤ 1)%nat.

(** A schedule starts when the active policy of its request is next billed. *)
Definition aligned (policies : list InsurancePolicyRecord.t) : Prop :=
  ∀ a s,
    find_policy active (InsurancePolicyRecord.request_id s) policies = Some a →
    s ∈ policies →
    InsurancePolicyRecord.status s = scheduled →
    InsurancePolicyRecord.effective_at s = InsurancePolicyRecord.next_billing_at a.

Definition ledger_ok (st : Ledger.t) : Prop :=
  at_most_one active (Ledger.policies st)
  ∧ at_most_one scheduled (Ledger.policies st)
  ∧ aligned (Ledger.policies st).

(** ** Part VII. The admin pricing form

    Two versions of the page exist: [AdminPricing.tsx], whose fields are
    [<input type="number">] elements reporting every keystroke, and a later
    one whose fields are text inputs committed on blur or Enter. *)

(** A JavaScript number: a finite double, held as the rational it stands
    for, [NaN] or an infinity.  The two zeros are identified: nothing
    modelled here divides by a number that can be zero or shows the sign of
    a zero. *)
Inductive JsNum := Finite (q : Q) | NaN | PosInf | NegInf.

(** *** Double arithmetic

    Rounding to the nearest integer, a tie going to the even one. *)
Definition round_half_even (x : Q) : Z :=
  let f := Qfloor x in
  match Qcompare (x - inject_Z f) (1 # 2) with
  | Lt => f
  | Gt => (f + 1)%Z
  | Eq => if Z.even f then f else (f + 1)%Z
  end.

(** The doubles are whole multiples of [2^-1074], the smallest positive
    one; magnitudes are counted in that unit.  [2^1074] units make 1 and
    [2^2098] units make [2^1024], where the doubles end. *)
Definition UNITS : Z := 2 ^ 1074.
Definition LIMIT : Z := 2 ^ 2098.

(** The distance between neighbouring doubles around a magnitude of [a]
    units: 1 below [2^53] units, and twice as much with every further power
    of two. *)
Definition spacing (a : Q) : Z := 2 ^ Z.max 0 (Z.log2 (Qfloor a) - 52).

(** The double nearest to a magnitude of [a] units, in units. *)
Definition nearest (a : Q) : Z :=
  (round_half_even (a / inject_Z (spacing a)) * spacing a)%Z.

(** The double a real number is rounded to (to the nearest, a tie going to
    the even significand), a magnitude of [2^1024] or more giving an
    infinity. *)
Definition toDouble (q : Q) : JsNum :=
  let n := nearest (Qabs q * inject_Z UNITS) in
  if (LIMIT <=? n)%Z then (if Qlt_le_dec q 0 then NegInf else PosInf)
  else
    Finite (Qred ((if Qlt_le_dec q 0 then - n else n)%Z # Z.to_pos UNITS)).

(** [Number.MAX_VALUE]. *)
Definition MAX_VALUE : Q := inject_Z (2 ^ 1024 - 2 ^ 971).

Definition js_neg (x : JsNum) : JsNum :=
  match x with
  | Finite a => Finite (- a)
  | NaN => NaN
  | PosInf => NegInf
  | NegInf => PosInf
  end.

(** [x + y], [x - y], [x * y] and [x / y]: the exact result rounded to a
    double, with the rules for [NaN] and the infinities. *)
Definition js_add (x y : JsNum) : JsNum :=
  match x, y with
  | NaN, _ | _, NaN => NaN
  | Finite a, Finite b => toDouble (a + b)
  | PosInf, NegInf | NegInf, PosInf => NaN
  | PosInf, _ | _, PosInf => PosInf
  | NegInf, _ | _, NegInf => NegInf
  end.

Definition js_sub (x y : JsNum) : JsNum := js_add x (js_neg y).

Definition js_mul (x y : JsNum) : JsNum :=
  match x, y with
  | NaN, _ | _, NaN => NaN
  | Finite a, Finite b => toDouble (a * b)
  | Finite a, PosInf | PosInf, Finite a =>
      if Qeq_bool a 0 then NaN else if Qlt_le_dec a 0 then NegInf else PosInf
  | Finite a, NegInf | NegInf, Finite a =>
      if Qeq_bool a 0 then NaN else if Qlt_le_dec a 0 then PosInf else NegInf
  | PosInf, PosInf | NegInf, NegInf => PosInf
  | PosInf, NegInf | NegInf, PosInf => NegInf
  end.

Definition js_div (x y : JsNum) : JsNum :=
  match x, y with
  | NaN, _ | _, NaN => NaN
  | Finite a, Finite b =>
      if Qeq_bool b 0 then
        if Qeq_bool a 0 then NaN
        else if Qlt_le_dec a 0 then NegInf else PosInf
      else toDouble (a / b)
  | Finite _, (PosInf | NegInf) => Finite 0
  | PosInf, Finite b => if Qlt_le_dec b 0 then NegInf else PosInf
  | NegInf, Finite b => if Qlt_le_dec b 0 then PosInf else NegInf
  | (PosInf | NegInf), (PosInf | NegInf) => NaN
  end.

(** The order of the numbers, a [NaN] being comparable with nothing. *)
Definition js_le (x y : JsNum) : Prop :=
  match x, y with
  | NaN, _ | _, NaN => False
  | NegInf, _ | _, PosInf => True
  | Finite a, Finite b => (a <= b)%Q
  | Finite _, NegInf | PosInf, (Finite _ | NegInf) => False
  end.

#[global] Arguments toDouble : simpl never.
#[global] Arguments nearest : simpl never.
#[global] Arguments spacing : simpl never.

(** [Math.round]: the nearest integer, a half going up. *)
Definition Math_round (x : JsNum) : JsNum :=
  match x with
  | Finite q => Finite (inject_Z (Qfloor (q + (1 # 2))))
  | other => other
  end.

(** [Math.max] of two arguments. *)
Definition Math_max (x y : JsNum) : JsNum :=
  match x, y with
  | NaN, _ | _, NaN => NaN
  | PosInf, _ | _, PosInf => PosInf
  | NegInf, other | other, NegInf => other
  | Finite a, Finite b => Finite (if Qlt_le_dec a b then b else a)
  end.

(** [a !== b] on numbers. *)
Definition strict_ne (x y : JsNum) : bool :=
  match x, y with
  | Finite a, Finite b => negb (Qeq_bool a b)
  | PosInf, PosInf | NegInf, NegInf => false
  | _, _ => true
  end.

(** The number that [x.toFixed(6)] writes for a finite [x] below 1e21 in
    magnitude: six decimals, a tie going to the larger magnitude. *)
Definition toFixed6 (x : Q) : Q :=
  let n := Qfloor (Qabs x * 1000000 + (1 # 2)) in
  (if Qlt_le_dec x 0 then - n else n)%Z # 1000000.

(** [Number(x.toFixed(6))]: from 1e21 on [toFixed] writes the number as
    [String] does, which reads back as the same double; below, the six
    decimals are read back as the nearest double; [NaN] and the infinities
    are written and read back as themselves. *)
Definition roundFixed6 (x : JsNum) : JsNum :=
  match x with
  | Finite q =>
      if Qle_bool (inject_Z (10 ^ 21)) (Qabs q) then Finite q
      else toDouble (toFixed6 q)
  | other => other
  end.

Module DraftTiers.
Record t := mk { basic : JsNum; plus : JsNum; premium : JsNum; ultra : JsNum }.
End DraftTiers.

Module DraftBuckets.
Record t := mk {
  good : JsNum; normal : JsNum; unhealthy : JsNum; extremely_unhealthy : JsNum }.
End DraftBuckets.

Module DraftPoints.
Record t := mk { points_per_discount_unit : JsNum; discount_per_unit : JsNum }.
End DraftPoints.

(** The [draft] state of the form: a [SettingsRecord] holding whatever
    numbers the inputs produced. *)
Module Draft.
Record t := mk {
  pricing_per_step : JsNum;
  scale_min : JsNum;
  scale_max : JsNum;
  scale_step : JsNum;
  insurance_pricing : DraftTiers.t;
  health_bucket_multipliers : DraftBuckets.t;
  points_discount : DraftPoints.t }.
End Draft.

(** [keyof SettingsRecord["points_discount"]]. *)
Inductive PointsKey := key_points_per_discount_unit | key_discount_per_unit.

(** [changePointsField(key, value)] as a [setDraft] updater: a draft that is
    still [null] stays [null]. *)
Definition changePointsField (key : PointsKey) (value : JsNum)
    (prev : option Draft.t) : option Draft.t :=
  (λ d,
     {| Draft.pricing_per_step := Draft.pricing_per_step d;
        Draft.scale_min := Draft.scale_min d;
        Draft.scale_max := Draft.scale_max d;
        Draft.scale_step := Draft.scale_step d;
        Draft.insurance_pricing := Draft.insurance_pricing d;
        Draft.health_bucket_multipliers := Draft.health_bucket_multipliers d;
        Draft.points_discount :=
          match key with
          | key_points_per_discount_unit =>
              {| DraftPoints.points_per_discount_unit := value;
                 DraftPoints.discount_per_unit :=
                   DraftPoints.discount_per_unit (Draft.points_discount d) |}
          | key_discount_per_unit =>
              {| DraftPoints.points_per_discount_unit :=
                   DraftPoints.points_per_discount_unit (Draft.points_discount d);
                 DraftPoints.discount_per_unit := value |}
          end |})
  <$> prev.

(** The [onChange] of the "Points per redemption" field, in both versions:
    [value => changePointsField("points_per_discount_unit",
                                Math.max(1, Math.round(value)))]. *)
Definition onPointsPerUnitChange (value : JsNum)
    : option Draft.t → option Draft.t :=
  changePointsField key_points_per_discount_unit
    (Math_max (Finite 1) (Math_round value)).

(** The [min] and [step] props of the "Points per redemption" field. *)
Definition pointsField_min : Q := 100.
Definition pointsField_step : Q := 100.

Section PricingField.

(** [Number(text)] and [text.trim()] of the host. *)
Variable toNumber : string → JsNum.
Variable trim : string → string.

(** [AdminPricing.tsx]: [onChange(Number(event.currentTarget.value))]; the
    argument handed to the field's [onChange] prop. *)
Definition numberInputChange (text : string) : JsNum := toNumber text.

(** The later version: [commitValue(raw)], returning the argument of the
    [onChange] call it makes, if it makes one. *)
Definition commitValue (min : option Q) (step : Q) (value : JsNum)
    (raw : string) : option JsNum :=
  let trimmed := trim raw in
  if String.eqb trimmed "" then Finite <$> min
  else
    match toNumber trimmed with
    | Finite parsed =>
        let clamped :=
          match min with
          | Some m => if Qlt_le_dec parsed m then m else parsed
          | None => parsed
          end in
        let snapped :=
          if Qlt_le_dec 0 step then
            let base := default 0%Q min in
            let steps :=
              Math_round
                (js_div (js_sub (Finite clamped) (Finite base)) (Finite step)) in
            js_add (Finite base) (js_mul steps (Finite step))
          else Finite clamped in
        let normalized := roundFixed6 snapped in
        if strict_ne normalized value then Some normalized else None
    | _ => None
    end.

(** Committing the text of the "Points per redemption" field of the later
    version. *)
Definition commitPointsPerUnit (raw : string) (draft : option Draft.t)
    : option Draft.t :=
  match draft with
  | None => None
  | Some d =>
      match
        commitValue (Some pointsField_min) pointsField_step
          (DraftPoints.points_per_discount_unit (Draft.points_discount d)) raw
      with
      | Some value => onPointsPerUnitChange value draft
      | None => draft
      end
  end.

End PricingField.

(** [draft.points_discount.points_per_discount_unit]. *)
Definition ppu (draft : Draft.t) : JsNum :=
  DraftPoints.points_per_discount_unit (Draft.points_discount draft).

(** A number that is a positive integer. *)
Definition positive_integer (v : JsNum) : Prop :=
  ∃ k : Z, (1 ≤ k)%Z ∧ v = Finite (inject_Z k).

(** ** Part VII-a. The UserJourney workflow: inputs, timers and timeline *)

(** [text.slice(0, n)]. *)
Fixpoint string_take (n : nat) (text : string) : string :=
  match n, text with
  | S k, String c rest => String c (string_take k rest)
  | _, _ => EmptyString
  end.

(** A decimal digit, the class [\d]. *)
Definition is_digit (c : ascii) : bool :=
  (48 <=? nat_of_ascii c)%nat && (nat_of_ascii c <=? 57)%nat.

(** [text.replace(/\D/g, "")]. *)
Fixpoint strip_non_digits (text : string) : string :=
  match text with
  | EmptyString => EmptyString
  | String c rest =>
      if is_digit c then String c (strip_non_digits rest)
      else strip_non_digits rest
  end.

(** The [onChange] of the OTP input:
    [event.currentTarget.value.replace(/\D/g, "").slice(0, 6)]. *)
Definition sanitizeOtp (value : string) : string :=
  string_take 6 (strip_non_digits value).

(** The callback of the one-second interval:
    [setOtpCooldown(current => (current <= 1 ? 0 : current - 1))]. *)
Definition tickCooldown (current : Z) : Z :=
  if (current <=? 1)%Z then 0%Z else (current - 1)%Z.

(** The effect on [step] that primes the cooldown when the workflow enters
    [verify]; it returns [verifyPrimedRef.current] and the cooldown. *)
Definition primeCooldown (step : JourneyStep) (primed : bool) (cooldown : Z)
    : bool * Z :=
  if negb (bool_decide (step = verify)) then (false, cooldown)
  else if negb primed
       then (true, if (0 <? cooldown)%Z then cooldown else OTP_COOLDOWN_SECONDS)
       else (primed, cooldown).

(** [disabled] of the "Resend OTP" button:
    [!userId || resendBusy || otpCooldown > 0 || busy]. *)
Definition resendDisabled (userId : option string) (resendBusy : bool)
    (otpCooldown : Z) (busy : bool) : bool :=
  negb (truthy userId) || resendBusy || (0 <? otpCooldown)%Z || busy.

(** [handleSignup], success path: the response's [user_id] and the e-mail
    address the OTP went to. *)
Definition onSignupSuccess (user_id email : string) (st : Journey.t)
    : Journey.t :=
  add_log ("OTP dispatched to " +:+ email)
    (set_fields (Some (Journey.otpInput st, OTP_COOLDOWN_SECONDS)) None None None
       (set_step verify
          {| Journey.step := Journey.step st;
             Journey.overview := Journey.overview st;
             Journey.userId := Some user_id;
             Journey.otpInput := Journey.otpInput st;
             Journey.otpCooldown := Journey.otpCooldown st;
             Journey.requestId := Journey.requestId st;
             Journey.estimatedCost := Journey.estimatedCost st;
             Journey.dnaTokenId := Journey.dnaTokenId st;
             Journey.issuedToken := Journey.issuedToken st;
             Journey.statusLog := Journey.statusLog st;
             Journey.previousStageRef := Journey.previousStageRef st;
             Journey.initialHydrateRef := Journey.initialHydrateRef st;
             Journey.completionNotifiedRef := Journey.completionNotifiedRef st;
             Journey.calls := Journey.calls st |})).

(** [handleResendOtp], success path; without a user it does nothing. *)
Definition onResendSuccess (st : Journey.t) : Journey.t :=
  if truthy (Journey.userId st)
  then add_log "OTP regenerated and dispatched."
         (set_fields (Some (Journey.otpInput st, OTP_COOLDOWN_SECONDS))
            None None None st)
  else st.

(** Typing into the OTP input. *)
Definition onOtpInput (value : string) (st : Journey.t) : Journey.t :=
  set_fields (Some (sanitizeOtp value, Journey.otpCooldown st)) None None None st.

(** One tick of the cooldown timer; the interval only runs while the
    cooldown is positive. *)
Definition onCooldownTick (st : Journey.t) : Journey.t :=
  if (Journey.otpCooldown st <=? 0)%Z then st
  else set_fields (Some (Journey.otpInput st, tickCooldown (Journey.otpCooldown st)))
         None None None st.

(** The effect that greets a resumed user:
    [if (mode !== "resume" || !userEmail) return; log(...)]. *)
Definition onResumeGreeting (props : UserJourneyProps.t) (st : Journey.t)
    : Journey.t :=
  if negb (bool_decide (UserJourneyProps.mode props = mode_resume))
     || negb (truthy (UserJourneyProps.userEmail props))
  then st
  else add_log ("Continuing onboarding for "
                  +:+ default "" (UserJourneyProps.userEmail props) +:+ ".")
         st.

(** The priming effect run with [verifyPrimedRef.current] being [primed]. *)
Definition onVerifyPrime (primed : bool) (st : Journey.t) : Journey.t :=
  set_fields
    (Some (Journey.otpInput st,
           snd (primeCooldown (Journey.step st) primed (Journey.otpCooldown st))))
    None None None st.

(** *** The form drafts and [canProceed] *)

Module SignupFormState.
Record t := mk {
  email : string;
  name : string;
  password : string;
  location : string;
  initial_insurance_tier : InsuranceTier }.
End SignupFormState.

Module HealthIntakeFormState.
Record t := mk {
  height_cm : string;
  weight_kg : string;
  blood_type : string;
  allergies : string;
  notes : string;
  respiration_rate : string;
  energy_consumption : string;
  medical_history : string;
  sleep_hours : string;
  exercise_minutes_per_week : string;
  diet_quality : string;
  stress_level : string;
  chronic_condition : bool;
  alcohol_units_per_week : string;
  smoker : bool;
  meditation_minutes_per_week : string;
  hydration_liters_per_day : string }.
End HealthIntakeFormState.

Module MiniFormState.
Record t := mk { scale : string; environment : string; constraints : string }.
End MiniFormState.

Module AssessmentFormState.
Record t := mk { joy : string; calm : string; dread : string; narrative : string }.
End AssessmentFormState.

(** The form state of the component that [Journey.t] leaves out. *)
Module JourneyForms.
Record t := mk {
  signupForm : SignupFormState.t;
  healthForm : HealthIntakeFormState.t;
  miniForm : MiniFormState.t;
  assessmentForm : AssessmentFormState.t;
  paymentAmount : string }.
End JourneyForms.

(** [Number.isFinite(x) && x > 0], [... && x >= lo] and
    [... && x >= lo && x <= hi]. *)
Definition finite_positive (x : JsNum) : bool :=
  match x with
  | Finite q => negb (Qle_bool q 0)
  | _ => false
  end.

Definition finite_at_least (lo : Q) (x : JsNum) : bool :=
  match x with
  | Finite q => Qle_bool lo q
  | _ => false
  end.

Definition finite_between (lo hi : Q) (x : JsNum) : bool :=
  match x with
  | Finite q => Qle_bool lo q && Qle_bool q hi
  | _ => false
  end.

(** [x > 0] on a number that may be [NaN] or infinite. *)
Definition js_positive (x : JsNum) : bool :=
  match x with
  | Finite q => negb (Qle_bool q 0)
  | PosInf => true
  | _ => false
  end.

Definition passwordRequirement : nat := 8.

Section CanProceed.

Variable toNumber : string → JsNum.
Variable trim : string → string.

Definition nonblank (text : string) : bool := negb (String.eqb (trim text) "").

Definition canProceed (st : Journey.t) (forms : JourneyForms.t) : bool :=
  match Journey.step st with
  | signup =>
      let f := JourneyForms.signupForm forms in
      nonblank (SignupFormState.email f)
      && nonblank (SignupFormState.name f)
      && (passwordRequirement <=? String.length (SignupFormState.password f))%nat
  | verify => (String.length (Journey.otpInput st) =? 6)%nat
  | intake =>
      let f := JourneyForms.healthForm forms in
      finite_positive (toNumber (HealthIntakeFormState.height_cm f))
      && finite_positive (toNumber (HealthIntakeFormState.respiration_rate f))
      && finite_positive (toNumber (HealthIntakeFormState.energy_consumption f))
      && finite_at_least 0 (toNumber (HealthIntakeFormState.sleep_hours f))
      && finite_at_least 0
           (toNumber (HealthIntakeFormState.exercise_minutes_per_week f))
      && finite_between 1 5 (toNumber (HealthIntakeFormState.diet_quality f))
      && finite_between 1 5 (toNumber (HealthIntakeFormState.stress_level f))
      && finite_at_least 0
           (toNumber (HealthIntakeFormState.hydration_liters_per_day f))
      && finite_at_least 0
           (toNumber (HealthIntakeFormState.alcohol_units_per_week f))
      && finite_at_least 0
           (toNumber (HealthIntakeFormState.meditation_minutes_per_week f))
  | mini => js_positive (toNumber (MiniFormState.scale (JourneyForms.miniForm forms)))
  | payment =>
      truthy (Journey.requestId st)
      && js_positive (toNumber (JourneyForms.paymentAmount forms))
  | assessment =>
      (0 <? String.length
              (trim (AssessmentFormState.narrative
                       (JourneyForms.assessmentForm forms))))%nat
  | token => truthy (Journey.requestId st) && truthy (Journey.dnaTokenId st)
  | complete => true
  end.

End CanProceed.

(** *** The lifecycle timeline *)

Module TimelineEvent.
Record t := mk { label : string; when : string; detail : string }.
End TimelineEvent.

(** The spelling of [user.status]. *)
Definition user_status_text (s : UserStatus) : string :=
  match s with
  | pending_verification => "pending_verification"
  | verified => "verified"
  end.

Section Timeline.

(** The host's rendering of a number in a template literal. *)
Variable numberText : Q → string.

(** The [events] of [Timeline] for a loaded overview: the entries that are
    [null] are dropped by [filter(Boolean)]. *)
Definition timelineEvents (overview : UserOverview.t) : list TimelineEvent.t :=
  let user := UserOverview.user overview in
  omap id
    [ Some {| TimelineEvent.label := "Signup";
              TimelineEvent.when := UserRecord.created_at user;
              TimelineEvent.detail :=
                "Account status: " +:+ user_status_text (UserRecord.status user) |};
      (λ r, {| TimelineEvent.label := "Miniaturization Request";
               TimelineEvent.when := MiniaturizationRequestRecord.created_at r;
               TimelineEvent.detail :=
                 "Scale " +:+ numberText (MiniaturizationRequestRecord.scale r)
                 +:+ "x · Cost $"
                 +:+ toFixed2 (MiniaturizationRequestRecord.cost_usd r) |})
      <$> head (UserOverview.requests overview);
      (λ p, {| TimelineEvent.label := "Payment";
               TimelineEvent.when := PaymentRecord.created_at p;
               TimelineEvent.detail :=
                 "Invoice settled: $" +:+ toFixed2 (PaymentRecord.amount_usd p) |})
      <$> head (UserOverview.payments overview);
      (λ d, {| TimelineEvent.label := "DNA Token";
               TimelineEvent.when := DNATokenRecord.created_at d;
               TimelineEvent.detail :=
                 "Checksum "
                 +:+ string_take 10 (DNATokenRecord.payload_checksum d)
                 +:+ "…" |})
      <$> head (UserOverview.dna_tokens overview);
      (λ t, {| TimelineEvent.label := "Miniaturization Token";
               TimelineEvent.when := MiniaturizationTokenRecord.created_at t;
               TimelineEvent.detail :=
                 "Status " +:+ status_text (MiniaturizationTokenRecord.status t) |})
      <$> head (UserOverview.miniaturization_tokens overview) ].

(** [Timeline]: without an overview the placeholder is shown ([None]). *)
Definition Timeline (overview : option UserOverview.t)
    : option (list TimelineEvent.t) :=
  timelineEvents <$> overview.

End Timeline.

(** ** Part VII-b. The admin pricing form: the other fields *)

(** [keyof SettingsRecord] and, for each key, the type of its value. *)
Inductive SettingsKey :=
| key_pricing_per_step | key_scale_min | key_scale_max | key_scale_step
| key_insurance_pricing | key_health_bucket_multipliers | key_points_discount.

Definition SettingsValue (key : SettingsKey) : Type :=
  match key with
  | key_insurance_pricing => DraftTiers.t
  | key_health_bucket_multipliers => DraftBuckets.t
  | key_points_discount => DraftPoints.t
  | _ => JsNum
  end.

(** [changeField(key, value)]: [{ ...prev, [key]: value }]. *)
Definition changeField (key : SettingsKey)
    : SettingsValue key → option Draft.t → option Draft.t :=
  match key with
  | key_pricing_per_step => λ value prev,
      (λ d, {| Draft.pricing_per_step := value;
               Draft.scale_min := Draft.scale_min d;
               Draft.scale_max := Draft.scale_max d;
               Draft.scale_step := Draft.scale_step d;
               Draft.insurance_pricing := Draft.insurance_pricing d;
               Draft.health_bucket_multipliers := Draft.health_bucket_multipliers d;
               Draft.points_discount := Draft.points_discount d |}) <$> prev
  | key_scale_min => λ value prev,
      (λ d, {| Draft.pricing_per_step := Draft.pricing_per_step d;
               Draft.scale_min := value;
               Draft.scale_max := Draft.scale_max d;
               Draft.scale_step := Draft.scale_step d;
               Draft.insurance_pricing := Draft.insurance_pricing d;
               Draft.health_bucket_multipliers := Draft.health_bucket_multipliers d;
               Draft.points_discount := Draft.points_discount d |}) <$> prev
  | key_scale_max => λ value prev,
      (λ d, {| Draft.pricing_per_step := Draft.pricing_per_step d;
               Draft.scale_min := Draft.scale_min d;
               Draft.scale_max := value;
               Draft.scale_step := Draft.scale_step d;
               Draft.insurance_pricing := Draft.insurance_pricing d;
               Draft.health_bucket_multipliers := Draft.health_bucket_multipliers d;
               Draft.points_discount := Draft.points_discount d |}) <$> prev
  | key_scale_step => λ value prev,
      (λ d, {| Draft.pricing_per_step := Draft.pricing_per_step d;
               Draft.scale_min := Draft.scale_min d;
               Draft.scale_max := Draft.scale_max d;
               Draft.scale_step := value;
               Draft.insurance_pricing := Draft.insurance_pricing d;
               Draft.health_bucket_multipliers := Draft.health_bucket_multipliers d;
               Draft.points_discount := Draft.points_discount d |}) <$> prev
  | key_insurance_pricing => λ value prev,
      (λ d, {| Draft.pricing_per_step := Draft.pricing_per_step d;
               Draft.scale_min := Draft.scale_min d;
               Draft.scale_max := Draft.scale_max d;
               Draft.scale_step := Draft.scale_step d;
               Draft.insurance_pricing := value;
               Draft.health_bucket_multipliers := Draft.health_bucket_multipliers d;
               Draft.points_discount := Draft.points_discount d |}) <$> prev
  | key_health_bucket_multipliers => λ value prev,
      (λ d, {| Draft.pricing_per_step := Draft.pricing_per_step d;
               Draft.scale_min := Draft.scale_min d;
               Draft.scale_max := Draft.scale_max d;
               Draft.scale_step := Draft.scale_step d;
               Draft.insurance_pricing := Draft.insurance_pricing d;
               Draft.health_bucket_multipliers := value;
               Draft.points_discount := Draft.points_discount d |}) <$> prev
  | key_points_discount => λ value prev,
      (λ d, {| Draft.pricing_per_step := Draft.pricing_per_step d;
               Draft.scale_min := Draft.scale_min d;
               Draft.scale_max := Draft.scale_max d;
               Draft.scale_step := Draft.scale_step d;
               Draft.insurance_pricing := Draft.insurance_pricing d;
               Draft.health_bucket_multipliers := Draft.health_bucket_multipliers d;
               Draft.points_discount := value |}) <$> prev
  end.

(** [{ ...prev.insurance_pricing, [key]: value }]. *)
Definition setTier (key : InsuranceTier) (value : JsNum) (t : DraftTiers.t)
    : DraftTiers.t :=
  match key with
  | basic =>
      {| DraftTiers.basic := value; DraftTiers.plus := DraftTiers.plus t;
         DraftTiers.premium := DraftTiers.premium t;
         DraftTiers.ultra := DraftTiers.ultra t |}
  | plus =>
      {| DraftTiers.basic := DraftTiers.basic t; DraftTiers.plus := value;
         DraftTiers.premium := DraftTiers.premium t;
         DraftTiers.ultra := DraftTiers.ultra t |}
  | premium =>
      {| DraftTiers.basic := DraftTiers.basic t;
         DraftTiers.plus := DraftTiers.plus t; DraftTiers.premium := value;
         DraftTiers.ultra := DraftTiers.ultra t |}
  | ultra =>
      {| DraftTiers.basic := DraftTiers.basic t;
         DraftTiers.plus := DraftTiers.plus t;
         DraftTiers.premium := DraftTiers.premium t; DraftTiers.ultra := value |}
  end.

(** [draft.insurance_pricing[tier]]. *)
Definition getTier (key : InsuranceTier) (t : DraftTiers.t) : JsNum :=
  match key with
  | basic => DraftTiers.basic t
  | plus => DraftTiers.plus t
  | premium => DraftTiers.premium t
  | ultra => DraftTiers.ultra t
  end.

(** [{ ...prev.health_bucket_multipliers, [key]: value }]. *)
Definition setBucket (key : HealthBucket) (value : JsNum) (b : DraftBuckets.t)
    : DraftBuckets.t :=
  match key with
  | good =>
      {| DraftBuckets.good := value; DraftBuckets.normal := DraftBuckets.normal b;
         DraftBuckets.unhealthy := DraftBuckets.unhealthy b;
         DraftBuckets.extremely_unhealthy := DraftBuckets.extremely_unhealthy b |}
  | normal =>
      {| DraftBuckets.good := DraftBuckets.good b; DraftBuckets.normal := value;
         DraftBuckets.unhealthy := DraftBuckets.unhealthy b;
         DraftBuckets.extremely_unhealthy := DraftBuckets.extremely_unhealthy b |}
  | unhealthy =>
      {| DraftBuckets.good := DraftBuckets.good b;
         DraftBuckets.normal := DraftBuckets.normal b;
         DraftBuckets.unhealthy := value;
         DraftBuckets.extremely_unhealthy := DraftBuckets.extremely_unhealthy b |}
  | extremely_unhealthy =>
      {| DraftBuckets.good := DraftBuckets.good b;
         DraftBuckets.normal := DraftBuckets.normal b;
         DraftBuckets.unhealthy := DraftBuckets.unhealthy b;
         DraftBuckets.extremely_unhealthy := value |}
  end.

(** [draft.health_bucket_multipliers[bucket]]. *)
Definition getBucket (key : HealthBucket) (b : DraftBuckets.t) : JsNum :=
  match key with
  | good => DraftBuckets.good b
  | normal => DraftBuckets.normal b
  | unhealthy => DraftBuckets.unhealthy b
  | extremely_unhealthy => DraftBuckets.extremely_unhealthy b
  end.

(** [changeInsuranceField(key, value)]. *)
Definition changeInsuranceField (key : InsuranceTier) (value : JsNum)
    (prev : option Draft.t) : option Draft.t :=
  (λ d, {| Draft.pricing_per_step := Draft.pricing_per_step d;
           Draft.scale_min := Draft.scale_min d;
           Draft.scale_max := Draft.scale_max d;
           Draft.scale_step := Draft.scale_step d;
           Draft.insurance_pricing := setTier key value (Draft.insurance_pricing d);
           Draft.health_bucket_multipliers := Draft.health_bucket_multipliers d;
           Draft.points_discount := Draft.points_discount d |}) <$> prev.

(** [changeBucketField(key, value)]. *)
Definition changeBucketField (key : HealthBucket) (value : JsNum)
    (prev : option Draft.t) : option Draft.t :=
  (λ d, {| Draft.pricing_per_step := Draft.pricing_per_step d;
           Draft.scale_min := Draft.scale_min d;
           Draft.scale_max := Draft.scale_max d;
           Draft.scale_step := Draft.scale_step d;
           Draft.insurance_pricing := Draft.insurance_pricing d;
           Draft.health_bucket_multipliers :=
             setBucket key value (Draft.health_bucket_multipliers d);
           Draft.points_discount := Draft.points_discount d |}) <$> prev.

(** Are all characters decimal digits? *)
Fixpoint all_digits (text : string) : bool :=
  match text with
  | EmptyString => true
  | String c rest => is_digit c && all_digits rest
  end.

(** [NUMBER_INPUT_PATTERN.test(text)]: the pattern, anchored at both ends,
    is any number of digits, then optionally a point and any number of
    digits. *)
Fixpoint NUMBER_INPUT_PATTERN (text : string) : bool :=
  match text with
  | EmptyString => true
  | String c rest =>
      if is_digit c then NUMBER_INPUT_PATTERN rest
      else if Ascii.eqb c "."%char then all_digits rest
      else false
  end.

(** [handleChange] of the later version's field: the new [display]. *)
Definition handleChange (raw display : string) : string :=
  if String.eqb raw "" || NUMBER_INPUT_PATTERN raw then raw else display.

(** ** Part VII-c. The support desk (AdminSupport) *)

Inductive SupportSessionStatus :=
| session_open | session_assigned | session_resolved.

#[global] Instance SupportSessionStatus_eq_dec : EqDecision SupportSessionStatus.
Proof. solve_decision. Defined.

Inductive SenderRole := role_human | role_admin.

Module SupportMessageRecord.
Record t := mk {
  id : string;
  session_id : string;
  sender_role : SenderRole;
  sender_id : option string;
  sender_name : string;
  body : string;
  created_at : string }.
End SupportMessageRecord.

Module SupportSessionRecord.
Record t := mk {
  id : string;
  user_id : string;
  subject : string;
  distress : bool;
  status : SupportSessionStatus;
  created_at : string;
  updated_at : string;
  closed_at : option string;
  assigned_admin_id : option string;
  assigned_admin_name : option string;
  messages : list SupportMessageRecord.t }.
End SupportSessionRecord.

(** The filter chips: ["all" | SupportSessionStatus]. *)
Inductive SessionFilter := filter_all | filter_status (s : SupportSessionStatus).

Definition filterChips : list (string * SessionFilter) :=
  [("All", filter_all); ("Open", filter_status session_open);
   ("Assigned", filter_status session_assigned);
   ("Resolved", filter_status session_resolved)].

Module SupportDesk.
Record t := mk {
  sessions : list SupportSessionRecord.t;
  selectedSessionId : option string;
  initializing : bool;
  refreshing : bool;
  error : option string;
  messageDraft : string;
  sending : bool;
  assigning : bool;
  statusUpdating : bool;
  filter : SessionFilter }.
End SupportDesk.

(** [filteredSessions]. *)
Definition filteredSessions (filter : SessionFilter)
    (sessions : list SupportSessionRecord.t) : list SupportSessionRecord.t :=
  match filter with
  | filter_all => sessions
  | filter_status wanted =>
      List.filter
        (λ session, bool_decide (SupportSessionRecord.status session = wanted))
        sessions
  end.

(** [activeSession]: [sessions.find(session => session.id === selectedSessionId)
    ?? null]. *)
Definition activeSession (sessions : list SupportSessionRecord.t)
    (selectedSessionId : option string) : option SupportSessionRecord.t :=
  match selectedSessionId with
  | Some selected =>
      List.find (λ session, String.eqb (SupportSessionRecord.id session) selected)
        sessions
  | None => None
  end.

(** [prev.map(session => (session.id === updated.id ? updated : session))]. *)
Definition replaceSession (updated : SupportSessionRecord.t)
    (prev : list SupportSessionRecord.t) : list SupportSessionRecord.t :=
  (λ session,
     if String.eqb (SupportSessionRecord.id session)
          (SupportSessionRecord.id updated)
     then updated else session) <$> prev.

(** The selection a refresh keeps: the previous one if it is still listed,
    else the first session, else none. *)
Definition refreshSelection (data : list SupportSessionRecord.t)
    (prev : option string) : option string :=
  if truthy prev
     && existsb (λ session,
                   String.eqb (SupportSessionRecord.id session) (default "" prev))
          data
  then prev
  else SupportSessionRecord.id <$> head data.

(** Is the "Assign to Me" button shown?
    [assigned_admin_id !== adminId && status !== "resolved"]. *)
Definition showAssign (adminId : string) (session : SupportSessionRecord.t)
    : bool :=
  negb (bool_decide (SupportSessionRecord.assigned_admin_id session = Some adminId))
  && negb (bool_decide (SupportSessionRecord.status session = session_resolved)).

(** *** [Array.prototype.sort]

    A comparator returns a number, [None] standing for [NaN]; the sort
    reads it through [SortCompare], which takes a [NaN] for [+0]. *)
Definition sortCompare {A} (cmp : A → A → option Z) (a b : A) : Z :=
  default 0%Z (cmp a b).

(** A consistent comparator for the values of an array, in the words of the
    language specification: it yields a number that is not [NaN] for every
    pair, every value is equal to itself, equality is symmetric, and
    equality, less-than and greater-than are transitive. *)
Definition consistent {A} (cmp : A → A → option Z) (l : list A) : Prop :=
  (∀ a b, a ∈ l → b ∈ l → is_Some (cmp a b))
  ∧ (∀ a, a ∈ l → cmp a a = Some 0%Z)
  ∧ (∀ a b, a ∈ l → b ∈ l → cmp a b = Some 0%Z → cmp b a = Some 0%Z)
  ∧ (∀ a b c, a ∈ l → b ∈ l → c ∈ l →
       cmp a b = Some 0%Z → cmp b c = Some 0%Z → cmp a c = Some 0%Z)
  ∧ (∀ a b c, a ∈ l → b ∈ l → c ∈ l →
       (sortCompare cmp a b < 0)%Z → (sortCompare cmp b c < 0)%Z →
       (sortCompare cmp a c < 0)%Z)
  ∧ (∀ a b c, a ∈ l → b ∈ l → c ∈ l →
       (0 < sortCompare cmp a b)%Z → (0 < sortCompare cmp b c)%Z →
       (0 < sortCompare cmp a c)%Z).

(** What the page may rely on from the engine's [sort].  The result is a
    rearrangement of the array.  For a consistent comparator it is ordered
    by the comparator and stable (values that compare equal keep their
    order); for any other comparator the order is implementation-defined,
    and nothing is said about it. *)
Record ArraySort (A : Type) := {
  sort : (A → A → option Z) → list A → list A;
  sort_permutes : ∀ cmp l, sort cmp l ≡ₚ l;
  sort_ordered : ∀ cmp l,
    consistent cmp l →
    StronglySorted (λ a b, (sortCompare cmp a b ≤ 0)%Z) (sort cmp l);
  sort_stable : ∀ cmp l x,
    consistent cmp l → x ∈ l →
    List.filter (λ y, bool_decide (cmp x y = Some 0%Z)) (sort cmp l)
    = List.filter (λ y, bool_decide (cmp x y = Some 0%Z)) l }.

Arguments sort {A} _ _ _.
Arguments sort_permutes {A} _ _ _.
Arguments sort_ordered {A} _ _ _ _.
Arguments sort_stable {A} _ _ _ _ _ _.

(** One such sort, by insertion: a value goes in front of the sorted rest up
    to the first value it must not follow. *)
Fixpoint insertBy {A} (cmp : A → A → option Z) (x : A) (sorted : list A)
    : list A :=
  match sorted with
  | [] => [x]
  | y :: rest =>
      if (sortCompare cmp x y <=? 0)%Z then x :: y :: rest
      else y :: insertBy cmp x rest
  end.

Definition insertionSort {A} (cmp : A → A → option Z) (l : list A) : list A :=
  foldr (insertBy cmp) [] l.

Section SupportDeskHost.

(** [new Date(text).getTime()]: [None] for an invalid date ([NaN]). *)
Variable getTime : string → option Z.
Variable trim : string → string.
(** The engine's [Array.prototype.sort]. *)
Variable engine : ArraySort SupportSessionRecord.t.

(** The comparator of [refresh]:
    [(a, b) => new Date(b.updated_at).getTime() - new Date(a.updated_at).getTime()],
    which is [NaN] when either date is invalid.  Time values are whole
    numbers of milliseconds; the sort reads the sign of their difference,
    which rounding to a double does not change. *)
Definition compareSessions (a b : SupportSessionRecord.t) : option Z :=
  match getTime (SupportSessionRecord.updated_at b),
        getTime (SupportSessionRecord.updated_at a) with
  | Some tb, Some ta => Some (tb - ta)%Z
  | _, _ => None
  end.

(** [data.sort(comparator)]. *)
Definition sortSessions (data : list SupportSessionRecord.t)
    : list SupportSessionRecord.t :=
  sort engine compareSessions data.

(** [refresh], from the call to the end of its [finally] block: the fetch
    yields the sessions ([inr]) or fails with a message ([inl]). *)
Definition refresh (fetched : string + list SupportSessionRecord.t)
    (st : SupportDesk.t) : SupportDesk.t :=
  {| SupportDesk.sessions :=
       match fetched with
       | inr data => sortSessions data
       | inl _ => SupportDesk.sessions st
       end;
     SupportDesk.selectedSessionId :=
       match fetched with
       | inr data =>
           refreshSelection (sortSessions data) (SupportDesk.selectedSessionId st)
       | inl _ => SupportDesk.selectedSessionId st
       end;
     SupportDesk.initializing := false;
     SupportDesk.refreshing := false;
     SupportDesk.error :=
       match fetched with
       | inr _ => None
       | inl message => Some message
       end;
     SupportDesk.messageDraft := SupportDesk.messageDraft st;
     SupportDesk.sending := SupportDesk.sending st;
     SupportDesk.assigning := SupportDesk.assigning st;
     SupportDesk.statusUpdating := SupportDesk.statusUpdating st;
     SupportDesk.filter := SupportDesk.filter st |}.

(** [handleSendMessage], from the submit to the end of its [finally] block:
    the request yields the updated session ([inr]) or fails ([inl]). *)
Definition handleSendMessage
    (outcome : string + SupportSessionRecord.t) (st : SupportDesk.t)
    : SupportDesk.t :=
  match activeSession (SupportDesk.sessions st) (SupportDesk.selectedSessionId st)
  with
  | None => st
  | Some _ =>
      if String.eqb (trim (SupportDesk.messageDraft st)) "" then st
      else
        {| SupportDesk.sessions :=
             match outcome with
             | inr updated => replaceSession updated (SupportDesk.sessions st)
             | inl _ => SupportDesk.sessions st
             end;
           SupportDesk.selectedSessionId := SupportDesk.selectedSessionId st;
           SupportDesk.initializing := SupportDesk.initializing st;
           SupportDesk.refreshing := SupportDesk.refreshing st;
           SupportDesk.error :=
             match outcome with
             | inr _ => None
             | inl message => Some message
             end;
           SupportDesk.messageDraft :=
             match outcome with
             | inr _ => ""
             | inl _ => SupportDesk.messageDraft st
             end;
           SupportDesk.sending := false;
           SupportDesk.assigning := SupportDesk.assigning st;
           SupportDesk.statusUpdating := SupportDesk.statusUpdating st;
           SupportDesk.filter := SupportDesk.filter st |}
  end.

End SupportDeskHost.

(** ** Part VII-d. States the UserJourney workflow can reach *)

(** The workflow states reached from the initial one by the success paths
    of its handlers, by typing a code, by timer ticks, by refetches
    (successful or not) and by the effects that greet a resumed user and
    prime the cooldown. *)
Inductive journey_reachable (props : UserJourneyProps.t) : Journey.t → Prop :=
| jr_initial : journey_reachable props (initialJourney props)
| jr_signup user_id email st :
    journey_reachable props st →
    journey_reachable props (onSignupSuccess user_id email st)
| jr_resend st :
    journey_reachable props st → journey_reachable props (onResendSuccess st)
| jr_otp value st :
    journey_reachable props st → journey_reachable props (onOtpInput value st)
| jr_tick st :
    journey_reachable props st → journey_reachable props (onCooldownTick st)
| jr_mutation m st :
    journey_reachable props st →
    journey_reachable props (onMutationSuccess props m st)
| jr_refresh fetched context st :
    journey_reachable props st →
    journey_reachable props (refreshOverview props fetched context st)
| jr_greeting st :
    journey_reachable props st →
    journey_reachable props (onResumeGreeting props st)
| jr_prime primed st :
    journey_reachable props st →
    journey_reachable props (onVerifyPrime primed st).

(** Is this call the [onComplete] callback? *)
Definition is_complete_call (c : PropCall) : bool :=
  match c with
  | Complete => true
  | StageUpdate _ _ => false
  end.

(** How often [onComplete] was called. *)
Definition completions (st : Journey.t) : nat :=
  length (List.filter is_complete_call (Journey.calls st)).

(** [onComplete] was called at most once, and not at all while
    [completionNotifiedRef] is unset. *)
Definition notified_once (st : Journey.t) : Prop :=
  (completions st ≤ 1)%nat
  ∧ (Journey.completionNotifiedRef st = false → completions st = 0%nat).

(** ** Part VIII. Sample data *)

Module Sample.

Definition user (status : UserStatus) (body : option BodyProfile.t)
    : UserRecord.t :=
  {| UserRecord.id := "u-1";
     UserRecord.email := "ada@example.org";
     UserRecord.name := "Ada";
     UserRecord.location := None;
     UserRecord.body_profile := body;
     UserRecord.status := status;
     UserRecord.current_stage :=
       if bool_decide (status = verified) then stage_verified else stage_signup;
     UserRecord.created_at := "2025-01-01T00:00:00Z";
     UserRecord.updated_at := "2025-01-01T00:00:00Z";
     UserRecord.respiration_rate := 12;
     UserRecord.energy_consumption := 1;
     UserRecord.medical_history := None;
     UserRecord.health_score := 80;
     UserRecord.health_bucket := "good" |}.

Definition body : BodyProfile.t :=
  {| BodyProfile.height_cm := 172;
     BodyProfile.weight_kg := None;
     BodyProfile.blood_type := None;
     BodyProfile.allergies := None;
     BodyProfile.notes := None |}.

Definition request (id : string) (status : MiniaturizationStatus)
    : MiniaturizationRequestRecord.t :=
  {| MiniaturizationRequestRecord.id := id;
     MiniaturizationRequestRecord.user_id := "u-1";
     MiniaturizationRequestRecord.scale := 1 # 10;
     MiniaturizationRequestRecord.cost_usd := 10;
     MiniaturizationRequestRecord.status := status;
     MiniaturizationRequestRecord.created_at := "2025-01-02T00:00:00Z";
     MiniaturizationRequestRecord.updated_at := "2025-01-02T00:00:00Z";
     MiniaturizationRequestRecord.approved_at := None;
     MiniaturizationRequestRecord.completed_at := None;
     MiniaturizationRequestRecord.staff_health_rating := None |}.

Definition paid : PaymentRecord.t :=
  {| PaymentRecord.id := "pay-1";
     PaymentRecord.user_id := "u-1";
     PaymentRecord.request_id := "r-1";
     PaymentRecord.amount_usd := 10;
     PaymentRecord.currency := "USD";
     PaymentRecord.status := "paid";
     PaymentRecord.created_at := "2025-01-03T00:00:00Z";
     PaymentRecord.paid_at := "2025-01-03T00:00:00Z" |}.

Definition dna : DNATokenRecord.t :=
  {| DNATokenRecord.id := "dna-1";
     DNATokenRecord.user_id := "u-1";
     DNATokenRecord.payload_checksum := "c0ffee";
     DNATokenRecord.encrypted_blob := "blob";
     DNATokenRecord.created_at := "2025-01-04T00:00:00Z";
     DNATokenRecord.remaining_energy := 1 |}.

Definition minted : MiniaturizationTokenRecord.t :=
  {| MiniaturizationTokenRecord.id := "mt-1";
     MiniaturizationTokenRecord.user_id := "u-1";
     MiniaturizationTokenRecord.request_id := "r-1";
     MiniaturizationTokenRecord.dna_token_id := "dna-1";
     MiniaturizationTokenRecord.status := awaiting_approval;
     MiniaturizationTokenRecord.created_at := "2025-01-05T00:00:00Z";
     MiniaturizationTokenRecord.updated_at := "2025-01-05T00:00:00Z" |}.

Definition memory (available : Z) : MemorySummaryRecord.t :=
  {| MemorySummaryRecord.total_points := available;
     MemorySummaryRecord.available_points := available;
     MemorySummaryRecord.spent_points := 0;
     MemorySummaryRecord.logs_recorded := 0;
     MemorySummaryRecord.tokens_issued := 0 |}.

Definition overview (u : UserRecord.t)
    (requests : list MiniaturizationRequestRecord.t)
    (payments : list PaymentRecord.t) (dna_tokens : list DNATokenRecord.t)
    (tokens : list MiniaturizationTokenRecord.t)
    (policies : list InsurancePolicyRecord.t) : UserOverview.t :=
  {| UserOverview.user := u;
     UserOverview.requests := requests;
     UserOverview.payments := payments;
     UserOverview.dna_tokens := dna_tokens;
     UserOverview.miniaturization_tokens := tokens;
     UserOverview.memory_summary := memory 500;
     UserOverview.insurance_policies := policies |}.

(** One overview per stage the resolver can return. *)
Definition unverified : UserOverview.t :=
  overview (user pending_verification None) [] [] [] [] [].
Definition scenarioD : UserOverview.t :=
  overview (user verified None) [] [] [] [] [].
Definition profiled : UserOverview.t :=
  overview (user verified (Some body)) [] [] [] [] [].
Definition rejectedOnly : UserOverview.t :=
  overview (user verified (Some body)) [request "r-1" rejected] [] [] [] [].
Definition payer : UserOverview.t :=
  overview (user verified (Some body)) [request "r-1" approved] [paid] [] [] [].
Definition assessed : UserOverview.t :=
  overview (user verified (Some body)) [request "r-1" approved] [paid] [dna]
    [] [].
Definition finished : UserOverview.t :=
  overview (user verified (Some body)) [request "r-1" approved] [paid] [dna]
    [minted] [].

Definition resumeProps : UserJourneyProps.t :=
  {| UserJourneyProps.mode := mode_resume;
     UserJourneyProps.userId := Some "u-1";
     UserJourneyProps.userEmail := Some "ada@example.org";
     UserJourneyProps.onStageUpdate := true;
     UserJourneyProps.onComplete := true |}.

(** The enrollment page. *)
Definition isoLocale (text : string) : option string := Some text.

Definition quoted (tier : InsuranceTier) : InsurancePolicyQuote.t :=
  {| InsurancePolicyQuote.tier := tier;
     InsurancePolicyQuote.steps := 10;
     InsurancePolicyQuote.base_rate_per_step := 20;
     InsurancePolicyQuote.bucket_multiplier := 1;
     InsurancePolicyQuote.monthly_premium := 200;
     InsurancePolicyQuote.final_premium := 175;
     InsurancePolicyQuote.points_redeemed := 500;
     InsurancePolicyQuote.discount_value_usd := 25;
     InsurancePolicyQuote.points_available := 500 |}.

Definition preview (tier : InsuranceTier) (eligible : bool)
    (status : MiniaturizationStatus) (activeTier : option InsuranceTier)
    (mode : ActivationMode) (effective_at : option string)
    (scheduledTier : option InsuranceTier) : InsurancePolicyQuoteResponse.t :=
  {| InsurancePolicyQuoteResponse.quote := quoted tier;
     InsurancePolicyQuoteResponse.has_active_policy :=
       bool_decide (is_Some activeTier);
     InsurancePolicyQuoteResponse.eligible := eligible;
     InsurancePolicyQuoteResponse.request_status := status;
     InsurancePolicyQuoteResponse.active_policy_tier := activeTier;
     InsurancePolicyQuoteResponse.activation_mode := Some mode;
     InsurancePolicyQuoteResponse.effective_at := effective_at;
     InsurancePolicyQuoteResponse.scheduled_policy_tier := scheduledTier |}.

(** The page once an overview is loaded and a request and tier are chosen. *)
Definition page (ov : UserOverview.t) (request_id : string)
    (tier : InsuranceTier) : Enrollment.t :=
  {| Enrollment.overview := Some ov;
     Enrollment.loading := false;
     Enrollment.error := None;
     Enrollment.selectedRequestId := request_id;
     Enrollment.selectedTier := tier;
     Enrollment.quote := None;
     Enrollment.quoteEligible := false;
     Enrollment.quoteStatus := None;
     Enrollment.activePolicyTier := None;
     Enrollment.activationMode := None;
     Enrollment.effectiveAt := None;
     Enrollment.scheduledPolicyTier := None;
     Enrollment.previewLoading := true;
     Enrollment.previewError := None;
     Enrollment.activationSaving := false;
     Enrollment.activationFeedback := None;
     Enrollment.activationError := None |}.

(** A user with one request still awaiting approval and one approved. *)
Definition twoRequests : UserOverview.t :=
  overview (user verified (Some body))
    [request "r-0" awaiting_approval; request "r-1" approved] [paid] [] [] [].

(** Pricing settings of Scenario A: 0.01 steps, basic at 20 per step, the
    good bucket at 1.0, 100 points for 5 dollars. *)
Definition settings : SettingsRecord.t :=
  {| SettingsRecord.pricing_per_step := 1;
     SettingsRecord.scale_min := 1 # 100;
     SettingsRecord.scale_max := 1;
     SettingsRecord.scale_step := 1 # 100;
     SettingsRecord.insurance_pricing :=
       {| InsurancePricingRecord.basic := 20;
          InsurancePricingRecord.plus := 30;
          InsurancePricingRecord.premium := 40;
          InsurancePricingRecord.ultra := 50 |};
     SettingsRecord.health_bucket_multipliers :=
       {| HealthBucketMultipliersRecord.good := 1;
          HealthBucketMultipliersRecord.normal := 12 # 10;
          HealthBucketMultipliersRecord.unhealthy := 15 # 10;
          HealthBucketMultipliersRecord.extremely_unhealthy := 2 |};
     SettingsRecord.points_discount :=
       {| PointsDiscountPolicyRecord.points_per_discount_unit := 100;
          PointsDiscountPolicyRecord.discount_per_unit := 5 |} |}.

Definition env (n : string) (now next_billing : string) : ActivationEnv.t :=
  {| ActivationEnv.now := now;
     ActivationEnv.next_billing := next_billing;
     ActivationEnv.policy_id := "pol-" +:+ n;
     ActivationEnv.payment_id := "ins-" +:+ n;
     ActivationEnv.health_bucket := good |}.

Definition february : ActivationEnv.t :=
  env "1" "2025-02-01T00:00:00Z" "2025-03-01T00:00:00Z".
Definition midFebruary : ActivationEnv.t :=
  env "2" "2025-02-10T00:00:00Z" "2025-03-10T00:00:00Z".
Definition lateFebruary : ActivationEnv.t :=
  env "3" "2025-02-20T00:00:00Z" "2025-03-20T00:00:00Z".

(** The ledger an activation leaves, or the one it started from. *)
Definition ledger_after
    (run : ActivationError + InsurancePolicyActivationResponse.t * Ledger.t)
    (before : Ledger.t) : Ledger.t :=
  match run with
  | inr (_, st) => st
  | inl _ => before
  end.

(** Scenario C: an approved request R with an active basic policy ... *)
Definition withBasic : Ledger.t :=
  ledger_after
    (activate false february settings "u-1" (request "r-1" approved) basic
       (opened 500))
    (opened 500).

(** ... then plus scheduled on it ... *)
Definition withPlusScheduled : Ledger.t :=
  ledger_after
    (activate false midFebruary settings "u-1" (request "r-1" approved) plus
       withBasic)
    withBasic.

(** Settings with a basic rate of 2 per step: 11 steps cost 22. *)
Definition cheap : SettingsRecord.t :=
  {| SettingsRecord.pricing_per_step := 1;
     SettingsRecord.scale_min := 1 # 100;
     SettingsRecord.scale_max := 1;
     SettingsRecord.scale_step := 1 # 100;
     SettingsRecord.insurance_pricing :=
       {| InsurancePricingRecord.basic := 2;
          InsurancePricingRecord.plus := 3;
          InsurancePricingRecord.premium := 4;
          InsurancePricingRecord.ultra := 5 |};
     SettingsRecord.health_bucket_multipliers :=
       SettingsRecord.health_bucket_multipliers settings;
     SettingsRecord.points_discount := SettingsRecord.points_discount settings |}.

(** The pricing form: a draft as the server sent it and a host whose
    [Number] knows a few texts. *)
Definition draft : Draft.t :=
  {| Draft.pricing_per_step := Finite 1;
     Draft.scale_min := Finite (1 # 100);
     Draft.scale_max := Finite 1;
     Draft.scale_step := Finite (1 # 100);
     Draft.insurance_pricing :=
       {| DraftTiers.basic := Finite 20; DraftTiers.plus := Finite 30;
          DraftTiers.premium := Finite 40; DraftTiers.ultra := Finite 50 |};
     Draft.health_bucket_multipliers :=
       {| DraftBuckets.good := Finite 1;
          DraftBuckets.normal := Finite (12 # 10);
          DraftBuckets.unhealthy := Finite (15 # 10);
          DraftBuckets.extremely_unhealthy := Finite 2 |};
     Draft.points_discount :=
       {| DraftPoints.points_per_discount_unit := Finite 100;
          DraftPoints.discount_per_unit := Finite 5 |} |}.

Definition hostNumber (text : string) : JsNum :=
  if String.eqb text "" then Finite 0
  else if String.eqb text "0" then Finite 0
  else if String.eqb text "3.5" then Finite (7 # 2)
  else if String.eqb text "42" then Finite 42
  else if String.eqb text "250" then Finite 250
  else NaN.

Definition hostTrim (text : string) : string := text.

(** A host that also reads a text of 23 nines, and one of a one and 308
    zeros, as [Number] does: as the nearest doubles. *)
Definition nines : string := "99999999999999999999999".
Definition tenTo308 : string := "1e308".

Definition hostBigNumber (text : string) : JsNum :=
  if String.eqb text nines then toDouble (inject_Z 99999999999999999999999)
  else if String.eqb text tenTo308 then toDouble (inject_Z (10 ^ 308))
  else hostNumber text.

(** The form drafts as the component starts with them. *)
Definition forms : JourneyForms.t :=
  {| JourneyForms.signupForm :=
       {| SignupFormState.email := "ada@example.org";
          SignupFormState.name := "";
          SignupFormState.password := "";
          SignupFormState.location := "";
          SignupFormState.initial_insurance_tier := basic |};
     JourneyForms.healthForm :=
       {| HealthIntakeFormState.height_cm := "172";
          HealthIntakeFormState.weight_kg := "";
          HealthIntakeFormState.blood_type := "";
          HealthIntakeFormState.allergies := "";
          HealthIntakeFormState.notes := "";
          HealthIntakeFormState.respiration_rate := "12";
          HealthIntakeFormState.energy_consumption := "1.0";
          HealthIntakeFormState.medical_history := "";
          HealthIntakeFormState.sleep_hours := "7";
          HealthIntakeFormState.exercise_minutes_per_week := "150";
          HealthIntakeFormState.diet_quality := "4";
          HealthIntakeFormState.stress_level := "2";
          HealthIntakeFormState.chronic_condition := false;
          HealthIntakeFormState.alcohol_units_per_week := "2";
          HealthIntakeFormState.smoker := false;
          HealthIntakeFormState.meditation_minutes_per_week := "60";
          HealthIntakeFormState.hydration_liters_per_day := "2.4" |};
     JourneyForms.miniForm :=
       {| MiniFormState.scale := "0.1";
          MiniFormState.environment := "";
          MiniFormState.constraints := "" |};
     JourneyForms.assessmentForm :=
       {| AssessmentFormState.joy := "0.6";
          AssessmentFormState.calm := "0.4";
          AssessmentFormState.dread := "0";
          AssessmentFormState.narrative :=
            "Prepared for decoherence, maintaining anchor memories." |};
     JourneyForms.paymentAmount := "" |}.

(** A session of the support desk. *)
Definition session (id : string) (status : SupportSessionStatus)
    (updated_at : string) : SupportSessionRecord.t :=
  {| SupportSessionRecord.id := id;
     SupportSessionRecord.user_id := "u-1";
     SupportSessionRecord.subject := "Vertigo";
     SupportSessionRecord.distress := false;
     SupportSessionRecord.status := status;
     SupportSessionRecord.created_at := "1";
     SupportSessionRecord.updated_at := updated_at;
     SupportSessionRecord.closed_at := None;
     SupportSessionRecord.assigned_admin_id := None;
     SupportSessionRecord.assigned_admin_name := None;
     SupportSessionRecord.messages := [] |}.

(** A host clock that reads the sample timestamps "1" to "3". *)
Definition hostTime (text : string) : option Z :=
  if String.eqb text "1" then Some 1%Z
  else if String.eqb text "2" then Some 2%Z
  else if String.eqb text "3" then Some 3%Z
  else None.

Definition desk (sessions : list SupportSessionRecord.t)
    (selected : option string) (draft : string) : SupportDesk.t :=
  {| SupportDesk.sessions := sessions;
     SupportDesk.selectedSessionId := selected;
     SupportDesk.initializing := false;
     SupportDesk.refreshing := false;
     SupportDesk.error := None;
     SupportDesk.messageDraft := draft;
     SupportDesk.sending := false;
     SupportDesk.assigning := false;
     SupportDesk.statusUpdating := false;
     SupportDesk.filter := filter_status session_open |}.

End Sample.

(** ** Part IX. The journey stage resolver: theorems *)

Section Resolver.

Implicit Types (o : UserOverview.t) (st : Journey.t).

(** The resolver, unfolded for a verified user. *)
Lemma resolveJourneyStep_verified o :
  UserRecord.status (UserOverview.user o) = verified →
  resolveJourneyStep o =
    match UserRecord.body_profile (UserOverview.user o),
          UserOverview.requests o, UserOverview.payments o,
          UserOverview.dna_tokens o, UserOverview.miniaturization_tokens o with
    | None, _, _, _, _ => intake
    | Some _, [], _, _, _ => mini
    | Some _, _ :: _, [], _, _ => payment
    | Some _, _ :: _, _ :: _, [], _ => assessment
    | Some _, _ :: _, _ :: _, _ :: _, [] => token
    | Some _, _ :: _, _ :: _, _ :: _, _ :: _ => complete
    end.
Proof.
  intros Hv. unfold resolveJourneyStep. rewrite Hv.
  destruct (UserRecord.body_profile (UserOverview.user o)) as [b|];
    [|reflexivity].
  destruct (UserOverview.requests o); [reflexivity|].
  destruct (UserOverview.payments o); [reflexivity|].
  destruct (UserOverview.dna_tokens o); [reflexivity|].
  destruct (UserOverview.miniaturization_tokens o); reflexivity.
Qed.

Lemma resolveJourneyStep_unverified o :
  UserRecord.status (UserOverview.user o) ≠ verified →
  resolveJourneyStep o = verify.
Proof.
  intros Hv. unfold resolveJourneyStep.
  rewrite bool_decide_eq_false_2 by exact Hv. reflexivity.
Qed.

(** C1. For every overview, [resolveJourneyStep] returns the first matching
    stage of the fixed order: [verify] if the user's status is not
    [verified]; otherwise [intake] if no body profile is recorded; otherwise
    [mini] if there is no miniaturization request; otherwise [payment] if
    there is no payment; otherwise [assessment] if there is no DNA token;
    otherwise [token] if there is no miniaturization token; otherwise
    [complete]. *)
Theorem resolveJourneyStep_first_match o :
  let u := UserOverview.user o in
  (UserRecord.status u ≠ verified → resolveJourneyStep o = verify)
  ∧ (UserRecord.status u = verified →
     UserRecord.body_profile u = None → resolveJourneyStep o = intake)
  ∧ (UserRecord.status u = verified →
     UserRecord.body_profile u ≠ None →
     UserOverview.requests o = [] → resolveJourneyStep o = mini)
  ∧ (UserRecord.status u = verified →
     UserRecord.body_profile u ≠ None →
     UserOverview.requests o ≠ [] →
     UserOverview.payments o = [] → resolveJourneyStep o = payment)
  ∧ (UserRecord.status u = verified →
     UserRecord.body_profile u ≠ None →
     UserOverview.requests o ≠ [] →
     UserOverview.payments o ≠ [] →
     UserOverview.dna_tokens o = [] → resolveJourneyStep o = assessment)
  ∧ (UserRecord.status u = verified →
     UserRecord.body_profile u ≠ None →
     UserOverview.requests o ≠ [] →
     UserOverview.payments o ≠ [] →
     UserOverview.dna_tokens o ≠ [] →
     UserOverview.miniaturization_tokens o = [] → resolveJourneyStep o = token)
  ∧ (UserRecord.status u = verified →
     UserRecord.body_profile u ≠ None →
     UserOverview.requests o ≠ [] →
     UserOverview.payments o ≠ [] →
     UserOverview.dna_tokens o ≠ [] →
     UserOverview.miniaturization_tokens o ≠ [] →
     resolveJourneyStep o = complete).
Proof.
  intros u. subst u.
  split; [apply resolveJourneyStep_unverified|].
  repeat split; intros Hv; rewrite (resolveJourneyStep_verified o Hv);
    destruct (UserRecord.body_profile (UserOverview.user o));
    destruct (UserOverview.requests o);
    destruct (UserOverview.payments o);
    destruct (UserOverview.dna_tokens o);
    destruct (UserOverview.miniaturization_tokens o);
    intros; congruence.
Qed.

(** Scenario D and one overview for each later rule, through the theorem. *)
Lemma resolveJourneyStep_first_match_witness :
  resolveJourneyStep Sample.unverified = verify
  ∧ resolveJourneyStep Sample.scenarioD = intake
  ∧ resolveJourneyStep Sample.profiled = mini
  ∧ resolveJourneyStep Sample.rejectedOnly = payment
  ∧ resolveJourneyStep Sample.payer = assessment
  ∧ resolveJourneyStep Sample.assessed = token
  ∧ resolveJourneyStep Sample.finished = complete.
Proof.
  split.
  { apply (resolveJourneyStep_first_match Sample.unverified). discriminate. }
  split.
  { apply (resolveJourneyStep_first_match Sample.scenarioD); reflexivity. }
  split.
  { apply (resolveJourneyStep_first_match Sample.profiled);
      (reflexivity || discriminate). }
  split.
  { apply (resolveJourneyStep_first_match Sample.rejectedOnly);
      (reflexivity || discriminate). }
  split.
  { apply (resolveJourneyStep_first_match Sample.payer);
      (reflexivity || discriminate). }
  split.
  { apply (resolveJourneyStep_first_match Sample.assessed);
      (reflexivity || discriminate). }
  apply (resolveJourneyStep_first_match Sample.finished);
    (reflexivity || discriminate).
Defined.

Lemma JourneyStep_members_NoDup : NoDup JourneyStep_members.
Proof.
  compute_done.
Qed.

Lemma JourneyStep_members_all (s : JourneyStep) : s ∈ JourneyStep_members.
Proof. destruct s; compute_done. Qed.

(** The stages the resolver can return. *)
Lemma resolveJourneyStep_range o :
  resolveJourneyStep o
    ∈ [verify; intake; mini; payment; assessment; token; complete].
Proof.
  destruct (decide (UserRecord.status (UserOverview.user o) = verified))
    as [Hv|Hv].
  - rewrite (resolveJourneyStep_verified o Hv).
    destruct (UserRecord.body_profile (UserOverview.user o));
      destruct (UserOverview.requests o);
      destruct (UserOverview.payments o);
      destruct (UserOverview.dna_tokens o);
      destruct (UserOverview.miniaturization_tokens o); compute_done.
  - rewrite (resolveJourneyStep_unverified o Hv). compute_done.
Qed.

(** The five tests the resolver makes, in order. *)
Lemma resolveJourneyStep_flags o1 o2 :
  bool_decide (UserRecord.status (UserOverview.user o1) = verified)
  = bool_decide (UserRecord.status (UserOverview.user o2) = verified) →
  (is_Some (UserRecord.body_profile (UserOverview.user o1))
   ↔ is_Some (UserRecord.body_profile (UserOverview.user o2))) →
  (UserOverview.requests o1 = [] ↔ UserOverview.requests o2 = []) →
  (UserOverview.payments o1 = [] ↔ UserOverview.payments o2 = []) →
  (UserOverview.dna_tokens o1 = [] ↔ UserOverview.dna_tokens o2 = []) →
  (UserOverview.miniaturization_tokens o1 = []
   ↔ UserOverview.miniaturization_tokens o2 = []) →
  resolveJourneyStep o1 = resolveJourneyStep o2.
Proof.
  intros Hstatus Hprofile Hreq Hpay Hdna Hmini.
  destruct (decide (UserRecord.status (UserOverview.user o1) = verified))
    as [Hv1|Hv1];
    destruct (decide (UserRecord.status (UserOverview.user o2) = verified))
      as [Hv2|Hv2].
  - rewrite (resolveJourneyStep_verified o1 Hv1),
      (resolveJourneyStep_verified o2 Hv2).
    destruct (UserRecord.body_profile (UserOverview.user o1)) as [b1|];
      destruct (UserRecord.body_profile (UserOverview.user o2)) as [b2|];
      try (exfalso; destruct Hprofile as [Hp1 Hp2];
           first [ destruct (Hp1 (ex_intro _ _ eq_refl)); discriminate
                 | destruct (Hp2 (ex_intro _ _ eq_refl)); discriminate ]);
      [|reflexivity].
    destruct (UserOverview.requests o1), (UserOverview.requests o2);
      try (exfalso; destruct Hreq as [H1 H2];
           first [ discriminate (H1 eq_refl) | discriminate (H2 eq_refl) ]);
      [reflexivity|].
    destruct (UserOverview.payments o1), (UserOverview.payments o2);
      try (exfalso; destruct Hpay as [H1 H2];
           first [ discriminate (H1 eq_refl) | discriminate (H2 eq_refl) ]);
      [reflexivity|].
    destruct (UserOverview.dna_tokens o1), (UserOverview.dna_tokens o2);
      try (exfalso; destruct Hdna as [H1 H2];
           first [ discriminate (H1 eq_refl) | discriminate (H2 eq_refl) ]);
      [reflexivity|].
    destruct (UserOverview.miniaturization_tokens o1),
      (UserOverview.miniaturization_tokens o2);
      try (exfalso; destruct Hmini as [H1 H2];
           first [ discriminate (H1 eq_refl) | discriminate (H2 eq_refl) ]);
      reflexivity.
  - rewrite (bool_decide_eq_true_2 _ Hv1), (bool_decide_eq_false_2 _ Hv2)
      in Hstatus. discriminate.
  - rewrite (bool_decide_eq_false_2 _ Hv1), (bool_decide_eq_true_2 _ Hv2)
      in Hstatus. discriminate.
  - rewrite (resolveJourneyStep_unverified o1 Hv1),
      (resolveJourneyStep_unverified o2 Hv2). reflexivity.
Qed.

(** C8. [resolveJourneyStep] is defined on every overview and takes exactly
    seven values: of the eight members of the stage enumeration it returns
    every one but [signup], which stands for the time before a verification
    exists.  Its result is a function of the snapshot alone, and in fact of
    five facts about it (whether the user is verified, whether a body
    profile is recorded, and whether each of requests, payments, DNA tokens
    and miniaturization tokens is empty): snapshots that agree on them, run
    whenever, give the same stage.  For an unverified user it returns
    [verify], whatever else the snapshot holds. *)
Theorem resolveJourneyStep_total_deterministic :
  let returned := [verify; intake; mini; payment; assessment; token; complete] in
  (NoDup returned ∧ length returned = 7%nat
   ∧ ∀ s, (∃ o, resolveJourneyStep o = s) ↔ s ∈ returned)
  ∧ (∀ s, s ∈ JourneyStep_members ↔ s = signup ∨ s ∈ returned)
  ∧ (∀ o1 o2,
       bool_decide (UserRecord.status (UserOverview.user o1) = verified)
       = bool_decide (UserRecord.status (UserOverview.user o2) = verified) →
       (is_Some (UserRecord.body_profile (UserOverview.user o1))
        ↔ is_Some (UserRecord.body_profile (UserOverview.user o2))) →
       (UserOverview.requests o1 = [] ↔ UserOverview.requests o2 = []) →
       (UserOverview.payments o1 = [] ↔ UserOverview.payments o2 = []) →
       (UserOverview.dna_tokens o1 = [] ↔ UserOverview.dna_tokens o2 = []) →
       (UserOverview.miniaturization_tokens o1 = []
        ↔ UserOverview.miniaturization_tokens o2 = []) →
       resolveJourneyStep o1 = resolveJourneyStep o2)
  ∧ (∀ o, UserRecord.status (UserOverview.user o) ≠ verified →
          resolveJourneyStep o = verify).
Proof.
  simpl. split.
  { split; [compute_done|]. split; [reflexivity|].
    intros s. split.
    - intros [o <-]. apply resolveJourneyStep_range.
    - intros Hs.
      destruct s; [exfalso; revert Hs; compute_done| | | | | | |].
      + exists Sample.unverified. reflexivity.
      + exists Sample.scenarioD. reflexivity.
      + exists Sample.profiled. reflexivity.
      + exists Sample.rejectedOnly. reflexivity.
      + exists Sample.payer. reflexivity.
      + exists Sample.assessed. reflexivity.
      + exists Sample.finished. reflexivity. }
  split.
  { intros s. split.
    - intros _. destruct s; [left; reflexivity|..]; right; compute_done.
    - intros _. apply JourneyStep_members_all. }
  split; [exact resolveJourneyStep_flags|].
  apply resolveJourneyStep_unverified.
Qed.

(** A brand-new, unverified user resolves to [verify]; a finished user and
    one with more records of each kind resolve to the same stage; and
    [complete] is among the stages returned. *)
Lemma resolveJourneyStep_total_deterministic_witness :
  resolveJourneyStep Sample.unverified = verify
  ∧ resolveJourneyStep
      (Sample.overview (Sample.user verified (Some Sample.body))
         [Sample.request "r-1" approved; Sample.request "r-2" rejected]
         [Sample.paid; Sample.paid] [Sample.dna] [Sample.minted] [])
    = resolveJourneyStep Sample.finished
  ∧ ∃ o, resolveJourneyStep o = complete.
Proof.
  destruct resolveJourneyStep_total_deterministic
    as ((_ & _ & Himage) & _ & Hflags & Hunv).
  split; [apply Hunv; discriminate|].
  split.
  { apply Hflags; try reflexivity; split; intros H;
      first [discriminate H | destruct H; eexists; reflexivity]. }
  apply Himage. compute_done.
Defined.

(** C9. An overview with at least one miniaturization request, whatever its
    status ([rejected] included), never resolves to [mini]. *)
Theorem resolveJourneyStep_request_not_mini o
    (r : MiniaturizationRequestRecord.t) :
  r ∈ UserOverview.requests o → resolveJourneyStep o ≠ mini.
Proof.
  intros Hin.
  destruct (decide (UserRecord.status (UserOverview.user o) = verified))
    as [Hv|Hv].
  - rewrite (resolveJourneyStep_verified o Hv).
    destruct (UserOverview.requests o) as [|r0 rs]; [inversion Hin|].
    destruct (UserRecord.body_profile (UserOverview.user o));
      destruct (UserOverview.payments o);
      destruct (UserOverview.dna_tokens o);
      destruct (UserOverview.miniaturization_tokens o); discriminate.
  - rewrite (resolveJourneyStep_unverified o Hv). discriminate.
Qed.

(** A user whose only request was rejected is past the request step. *)
Lemma resolveJourneyStep_request_not_mini_witness :
  MiniaturizationRequestRecord.status (Sample.request "r-1" rejected) = rejected
  ∧ resolveJourneyStep Sample.rejectedOnly ≠ mini.
Proof.
  split; [reflexivity|].
  apply (resolveJourneyStep_request_not_mini Sample.rejectedOnly
           (Sample.request "r-1" rejected)).
  apply list_elem_of_here.
Defined.

(** *** Hydration *)

Lemma onMutationSuccess_userId props m st :
  Journey.userId (onMutationSuccess props m st) = Journey.userId st.
Proof. destruct m; reflexivity. Qed.

Lemma onMutationSuccess_step props m st :
  Journey.step (onMutationSuccess props m st) = optimisticStep m.
Proof. destruct m; reflexivity. Qed.

Lemma handlerReady_userId m st :
  handlerReady m st = true → truthy (Journey.userId st) = true.
Proof.
  destruct m; simpl; intros H; repeat (apply andb_true_iff in H as [H _]);
    exact H.
Qed.

(** C7. Whenever the workflow hydrates from a fetched overview, the step is
    the resolver's output for that overview: directly, through
    [refreshOverview] when the fetch succeeds and the user id is set (not
    null and not empty), and after a mutation whose handler ran, whatever
    step the handler had set by itself.  Nothing else is a hydration:
    without a user id, or when the fetch fails, [refreshOverview] leaves the
    state as it is, and a handler that returns early changes nothing. *)
Theorem hydrate_step_is_resolved props data st :
  (∀ context,
     Journey.step (hydrateFromOverview props data context st)
     = resolveJourneyStep data)
  ∧ (∀ context, truthy (Journey.userId st) = true →
       refreshOverview props (Some data) context st
       = hydrateFromOverview props data context st
       ∧ Journey.step (refreshOverview props (Some data) context st)
         = resolveJourneyStep data)
  ∧ (∀ m, handlerReady m st = true →
       mutateThenSync props m (Some data) st
       = hydrateFromOverview props data ctx_sync (onMutationSuccess props m st)
       ∧ Journey.step (mutateThenSync props m (Some data) st)
         = resolveJourneyStep data)
  ∧ (∀ context fetched, truthy (Journey.userId st) = false →
       refreshOverview props fetched context st = st)
  ∧ (∀ context, refreshOverview props None context st = st)
  ∧ (∀ m fetched, handlerReady m st = false →
       mutateThenSync props m fetched st = st).
Proof.
  split; [reflexivity|].
  split.
  { intros context Hu. unfold refreshOverview. rewrite Hu. split; reflexivity. }
  split.
  { intros m Hready. unfold mutateThenSync, refreshOverview.
    rewrite Hready, onMutationSuccess_userId, (handlerReady_userId m st Hready).
    split; reflexivity. }
  split.
  { intros context fetched Hu. unfold refreshOverview. rewrite Hu. reflexivity. }
  split.
  { intros context. unfold refreshOverview.
    destruct (negb (truthy (Journey.userId st))); reflexivity. }
  intros m fetched Hready. unfold mutateThenSync. rewrite Hready. reflexivity.
Qed.

(** Resuming a user whose overview has no body profile: the initial fetch
    moves the workflow from its initial [verify] to [intake]; and after the
    intake is submitted the refetch, not the handler's own [mini], decides.
    A workflow whose user id is the empty string is not hydrated. *)
Lemma hydrate_step_is_resolved_witness :
  Journey.step (initialJourney Sample.resumeProps) = verify
  ∧ Journey.step
      (refreshOverview Sample.resumeProps (Some Sample.scenarioD) ctx_initial
         (initialJourney Sample.resumeProps)) = intake
  ∧ Journey.step
      (onMutationSuccess Sample.resumeProps (IntakeSubmitted "80" "good")
         (initialJourney Sample.resumeProps)) = mini
  ∧ Journey.step
      (mutateThenSync Sample.resumeProps (IntakeSubmitted "80" "good")
         (Some Sample.scenarioD) (initialJourney Sample.resumeProps)) = intake
  ∧ (let nameless :=
       {| UserJourneyProps.mode := mode_resume;
          UserJourneyProps.userId := Some "";
          UserJourneyProps.userEmail := None;
          UserJourneyProps.onStageUpdate := true;
          UserJourneyProps.onComplete := true |} in
     refreshOverview nameless (Some Sample.scenarioD) ctx_initial
       (initialJourney nameless) = initialJourney nameless).
Proof.
  destruct (hydrate_step_is_resolved Sample.resumeProps Sample.scenarioD
              (initialJourney Sample.resumeProps))
    as (_ & Hrefresh & Hmutate & _).
  split; [reflexivity|].
  split; [apply Hrefresh; reflexivity|].
  split; [reflexivity|].
  split; [apply Hmutate; reflexivity|].
  intros nameless.
  destruct (hydrate_step_is_resolved nameless Sample.scenarioD
              (initialJourney nameless)) as (_ & _ & _ & Hidle & _).
  apply Hidle. reflexivity.
Defined.

End Resolver.

(** ** Part X. The enrollment page: theorems *)

Section EnrollmentPage.

Implicit Types (ui : Enrollment.t) (ov : option UserOverview.t).
Implicit Types (policies : list InsurancePolicyRecord.t).

Lemma concerns_spec wanted request_id (p : InsurancePolicyRecord.t) :
  concerns wanted request_id p = true
  ↔ InsurancePolicyRecord.status p = wanted
    ∧ InsurancePolicyRecord.request_id p = request_id.
Proof.
  unfold concerns. rewrite andb_true_iff, bool_decide_eq_true, String.eqb_eq.
  reflexivity.
Qed.

Lemma last_cons_keep {A} (x : A) (l : list A) :
  last (x :: l) = match last l with Some y => Some y | None => Some x end.
Proof. destruct l as [|y l]; [reflexivity|]. rewrite last_cons. reflexivity. Qed.

(** The loop of [indexByRequest], started from any map: a later policy of the
    wanted status overwrites an earlier one of the same request. *)
Lemma indexByRequest_fold wanted policies
    (start : gmap string InsurancePolicyRecord.t) request_id :
  foldl (λ mapping policy,
           if bool_decide (InsurancePolicyRecord.status policy = wanted)
           then <[InsurancePolicyRecord.request_id policy := policy]> mapping
           else mapping)
    start policies !! request_id
  = match last (List.filter (concerns wanted request_id) policies) with
    | Some p => Some p
    | None => start !! request_id
    end.
Proof.
  revert start. induction policies as [|p policies IH]; intros start.
  - reflexivity.
  - simpl foldl. rewrite IH. simpl List.filter. unfold concerns at 2.
    destruct (bool_decide (InsurancePolicyRecord.status p = wanted)); simpl;
      [|reflexivity].
    destruct (String.eqb_spec (InsurancePolicyRecord.request_id p) request_id)
      as [Heq|Hne].
    + rewrite last_cons_keep.
      destruct (last (List.filter (concerns wanted request_id) policies));
        [reflexivity|].
      rewrite <- Heq. apply lookup_insert_eq.
    + destruct (last (List.filter (concerns wanted request_id) policies));
        [reflexivity|].
      apply lookup_insert_ne. exact Hne.
Qed.

(** What a per-request map binds a request to: the last policy of the wanted
    status the overview lists for it. *)
Lemma indexByRequest_lookup wanted policies request_id :
  indexByRequest wanted policies !! request_id
  = last (List.filter (concerns wanted request_id) policies).
Proof.
  unfold indexByRequest. rewrite indexByRequest_fold.
  destruct (last (List.filter (concerns wanted request_id) policies));
    [reflexivity | apply lookup_empty].
Qed.

Lemma indexByRequest_sound wanted policies request_id p :
  indexByRequest wanted policies !! request_id = Some p →
  p ∈ policies
  ∧ InsurancePolicyRecord.status p = wanted
  ∧ InsurancePolicyRecord.request_id p = request_id.
Proof.
  rewrite indexByRequest_lookup. intros Hl.
  assert (Hin : In p (List.filter (concerns wanted request_id) policies)).
  { apply list_elem_of_In, last_Some_elem_of, Hl. }
  apply filter_In in Hin as [Hin Hc]. apply concerns_spec in Hc.
  split; [apply list_elem_of_In; exact Hin | exact Hc].
Qed.

(** With at most one policy of the status per request, the map binds the
    request to that policy. *)
Lemma indexByRequest_unique wanted policies request_id :
  (count_policies wanted request_id policies ≤ 1)%nat →
  indexByRequest wanted policies !! request_id
  = find_policy wanted request_id policies.
Proof.
  rewrite indexByRequest_lookup. unfold count_policies, find_policy.
  induction policies as [|p policies IH]; [reflexivity|].
  simpl. destruct (concerns wanted request_id p) eqn:Hc.
  - simpl. intros Hle.
    destruct (List.filter (concerns wanted request_id) policies) as [|q l];
      [reflexivity | simpl in Hle; lia].
  - exact IH.
Qed.

Lemma eligibleRequests_spec ov (r : MiniaturizationRequestRecord.t) :
  r ∈ eligibleRequests ov
  ↔ r ∈ requests_of ov
    ∧ (MiniaturizationRequestRecord.status r = approved
       ∨ MiniaturizationRequestRecord.status r = completed).
Proof.
  unfold eligibleRequests, statusEligible. rewrite list_elem_of_filter.
  rewrite orb_true_iff, !bool_decide_eq_true. tauto.
Qed.

(** The selection effect yields no selection or the id of an eligible request. *)
Lemma syncSelectedRequestId_eligible ov prev :
  let chosen := syncSelectedRequestId (eligibleRequests ov) prev in
  chosen = ""
  ∨ ∃ r, r ∈ eligibleRequests ov ∧ MiniaturizationRequestRecord.id r = chosen.
Proof.
  simpl. unfold syncSelectedRequestId.
  destruct (eligibleRequests ov) as [|first rest] eqn:He; [left; reflexivity|].
  right.
  destruct (negb (String.eqb prev "")
            && existsb (λ request,
                          String.eqb (MiniaturizationRequestRecord.id request) prev)
                 (first :: rest)) eqn:Hb.
  - apply andb_true_iff in Hb as [_ Hex].
    apply existsb_exists in Hex as (r & Hin & Heq).
    apply String.eqb_eq in Heq. exists r.
    split; [apply list_elem_of_In; exact Hin | exact Heq].
  - exists first. split; [apply list_elem_of_here | reflexivity].
Qed.

(** C5. Only requests whose status is [approved] or [completed] are listed
    as eligible, the selection the form keeps (and every option it offers)
    is one of them, and nothing is sent without a selection; when the
    preview reports the request ineligible the page shows an informational
    message, keeps the Activate action disabled and sets no error. *)
Theorem ineligible_is_informational toLocale ov :
  (∀ r, r ∈ eligibleRequests ov
        ↔ r ∈ requests_of ov
          ∧ (MiniaturizationRequestRecord.status r = approved
             ∨ MiniaturizationRequestRecord.status r = completed))
  ∧ (∀ prev,
       let chosen := syncSelectedRequestId (eligibleRequests ov) prev in
       chosen = ""
       ∨ ∃ r, r ∈ requests_of ov
              ∧ MiniaturizationRequestRecord.id r = chosen
              ∧ (MiniaturizationRequestRecord.status r = approved
                 ∨ MiniaturizationRequestRecord.status r = completed))
  ∧ (∀ id, id ∈ requestOptions ov →
       ∃ r, r ∈ requests_of ov
            ∧ MiniaturizationRequestRecord.id r = id
            ∧ (MiniaturizationRequestRecord.status r = approved
               ∨ MiniaturizationRequestRecord.status r = completed))
  ∧ (∀ ui outcome reloaded,
       Enrollment.selectedRequestId ui = "" →
       handleActivate toLocale outcome reloaded ui = ui)
  ∧ (∀ ui response,
       Enrollment.selectedRequestId ui ≠ "" →
       InsurancePolicyQuoteResponse.eligible response = false →
       let ui' := previewEffect (inr response) ui in
       Enrollment.previewError ui' = None
       ∧ disableActivate ui' = true
       ∧ infoMessage toLocale ui'
         = Some ("Request status is "
                   +:+ replace_underscores
                         (status_text
                            (InsurancePolicyQuoteResponse.request_status response))
                   +:+ ". Coverage activates once approval completes.")).
Proof.
  split; [intros r; apply eligibleRequests_spec|].
  split.
  { intros prev. destruct (syncSelectedRequestId_eligible ov prev)
      as [He|(r & Hin & Hid)]; [left; exact He|].
    right. exists r. apply eligibleRequests_spec in Hin as [Hin Hst].
    split; [exact Hin|]. split; [exact Hid | exact Hst]. }
  split.
  { intros id Hid. unfold requestOptions in Hid.
    apply list_elem_of_fmap in Hid as (r & -> & Hin).
    apply eligibleRequests_spec in Hin as [Hin Hst].
    exists r. split; [exact Hin|]. split; [reflexivity | exact Hst]. }
  split.
  { intros ui outcome reloaded Hsel. unfold handleActivate.
    rewrite Hsel. reflexivity. }
  intros ui response Hsel Hel. simpl.
  apply String.eqb_neq in Hsel.
  unfold previewEffect. rewrite Hsel.
  split; [reflexivity|].
  split.
  - unfold disableActivate. simpl. rewrite Hsel, Hel. reflexivity.
  - unfold infoMessage. simpl. rewrite Hel. reflexivity.
Qed.

(** A request still awaiting approval is not offered; were it previewed, the
    page would show the informational message and keep Activate disabled. *)
Lemma ineligible_is_informational_witness :
  requestOptions (Some Sample.twoRequests) = ["r-1"]
  ∧ syncSelectedRequestId (eligibleRequests (Some Sample.twoRequests)) "r-0"
    = "r-1"
  ∧ (let ui' :=
       previewEffect
         (inr (Sample.preview basic false awaiting_approval None immediate
                 None None))
         (Sample.page Sample.twoRequests "r-0" basic) in
     Enrollment.previewError ui' = None
     ∧ disableActivate ui' = true
     ∧ infoMessage Sample.isoLocale ui'
       = Some "Request status is awaiting approval. Coverage activates once approval completes.").
Proof.
  split; [reflexivity|].
  split; [reflexivity|].
  apply (ineligible_is_informational Sample.isoLocale (Some Sample.twoRequests));
    [discriminate | reflexivity].
Defined.

End EnrollmentPage.

(** ** Part XI. The policy ledger: invariants of the state machine *)

Section LedgerInvariant.

Implicit Types (l policies : list InsurancePolicyRecord.t).
Implicit Types (p row : InsurancePolicyRecord.t) (w : PolicyStatus).
Implicit Types (st : Ledger.t).

Lemma supersede_cons w r p l :
  supersede w r (p :: l)
  = (if concerns w r p then with_status cancelled p else p) :: supersede w r l.
Proof. reflexivity. Qed.

Lemma count_policies_cons w r p l :
  count_policies w r (p :: l)
  = ((if concerns w r p then 1 else 0) + count_policies w r l)%nat.
Proof. unfold count_policies. simpl. destruct (concerns w r p); reflexivity. Qed.

Lemma find_policy_cons w r p l :
  find_policy w r (p :: l)
  = if concerns w r p then Some p else find_policy w r l.
Proof. reflexivity. Qed.

Lemma count_policies_app w r l row :
  count_policies w r (l ++ [row])
  = (count_policies w r l + if concerns w r row then 1 else 0)%nat.
Proof.
  unfold count_policies. rewrite List.filter_app. rewrite length_app. simpl.
  destruct (concerns w r row); reflexivity.
Qed.

Lemma find_policy_app w r l row :
  find_policy w r (l ++ [row])
  = match find_policy w r l with
    | Some p => Some p
    | None => if concerns w r row then Some row else None
    end.
Proof.
  unfold find_policy. induction l as [|p l IH]; simpl.
  - reflexivity.
  - destruct (concerns w r p); [reflexivity | exact IH].
Qed.

Lemma concerns_cancelled w r p :
  w ≠ cancelled → concerns w r (with_status cancelled p) = false.
Proof.
  intros Hw. unfold concerns. simpl.
  rewrite bool_decide_eq_false_2; [reflexivity | congruence].
Qed.

(** A superseding pass, seen through [concerns]. *)
Lemma concerns_supersede w r w' r' p :
  w ≠ cancelled →
  concerns w r (if concerns w' r' p then with_status cancelled p else p)
  = concerns w r p && negb (concerns w' r' p).
Proof.
  intros Hw. destruct (concerns w' r' p).
  - rewrite concerns_cancelled by exact Hw. rewrite andb_false_r. reflexivity.
  - rewrite andb_true_r. reflexivity.
Qed.

Lemma count_supersede_le w r w' r' l :
  w ≠ cancelled →
  (count_policies w r (supersede w' r' l) ≤ count_policies w r l)%nat.
Proof.
  intros Hw. induction l as [|p l IH]; [reflexivity|].
  rewrite supersede_cons, !count_policies_cons.
  rewrite concerns_supersede by exact Hw.
  destruct (concerns w r p), (concerns w' r' p); simpl; lia.
Qed.

Lemma count_supersede_same w r l :
  w ≠ cancelled → count_policies w r (supersede w r l) = 0%nat.
Proof.
  intros Hw. induction l as [|p l IH]; [reflexivity|].
  rewrite supersede_cons, count_policies_cons.
  rewrite concerns_supersede by exact Hw.
  destruct (concerns w r p); simpl; exact IH.
Qed.

Lemma concerns_exclusive w w' r r' p :
  w ≠ w' → concerns w r p = true → concerns w' r' p = false.
Proof.
  intros Hne Hc. apply concerns_spec in Hc as [Hs _].
  unfold concerns. rewrite bool_decide_eq_false_2; [reflexivity | congruence].
Qed.

Lemma concerns_other_request w w' r r' p :
  r ≠ r' → concerns w r p = true → concerns w' r' p = false.
Proof.
  intros Hne Hc. apply concerns_spec in Hc as [_ Hr].
  unfold concerns. apply andb_false_iff. right.
  apply String.eqb_neq. congruence.
Qed.

(** Superseding the policies of one status, or of another request, is not
    seen by a search for [w] on [r]. *)
Lemma find_supersede_untouched w r w' r' l :
  w ≠ cancelled → w ≠ w' ∨ r ≠ r' →
  find_policy w r (supersede w' r' l) = find_policy w r l.
Proof.
  intros Hw Hne. induction l as [|p l IH]; [reflexivity|].
  rewrite supersede_cons, !find_policy_cons.
  rewrite concerns_supersede by exact Hw.
  destruct (concerns w r p) eqn:Hc; simpl; [|exact IH].
  assert (Hf : concerns w' r' p = false).
  { destruct Hne as [Hne|Hne];
      [eapply concerns_exclusive | eapply concerns_other_request]; eauto. }
  rewrite Hf. reflexivity.
Qed.

Lemma count_supersede_untouched w r w' r' l :
  w ≠ cancelled → w ≠ w' ∨ r ≠ r' →
  count_policies w r (supersede w' r' l) = count_policies w r l.
Proof.
  intros Hw Hne. induction l as [|p l IH]; [reflexivity|].
  rewrite supersede_cons, !count_policies_cons.
  rewrite concerns_supersede by exact Hw.
  destruct (concerns w r p) eqn:Hc; simpl; [|exact IH].
  assert (Hf : concerns w' r' p = false).
  { destruct Hne as [Hne|Hne];
      [eapply concerns_exclusive | eapply concerns_other_request]; eauto. }
  rewrite Hf. simpl. rewrite IH. reflexivity.
Qed.

(** A row that still has a live status after a superseding pass was there
    before, and was not the pass's target. *)
Lemma elem_of_supersede w w' r' l p :
  w ≠ cancelled →
  p ∈ supersede w' r' l → InsurancePolicyRecord.status p = w →
  p ∈ l ∧ concerns w' r' p = false.
Proof.
  intros Hw Hin Hs. unfold supersede in Hin.
  apply list_elem_of_fmap in Hin as (p0 & Hp & Hin0).
  destruct (concerns w' r' p0) eqn:Hc.
  - subst p. simpl in Hs. congruence.
  - subst p. split; assumption.
Qed.

(** A row the pass does not target stays in the ledger as it is. *)
Lemma elem_of_supersede_keep w' r' l p :
  p ∈ l → concerns w' r' p = false → p ∈ supersede w' r' l.
Proof.
  intros Hin Hc. unfold supersede. apply list_elem_of_fmap.
  exists p. rewrite Hc. split; [reflexivity | exact Hin].
Qed.

Lemma find_policy_Some w r l p :
  find_policy w r l = Some p →
  p ∈ l ∧ InsurancePolicyRecord.status p = w
  ∧ InsurancePolicyRecord.request_id p = r.
Proof.
  unfold find_policy. intros Hf. apply find_some in Hf as [Hin Hc].
  apply concerns_spec in Hc. split; [apply list_elem_of_In; exact Hin | exact Hc].
Qed.

(** What a successful creating activation leaves behind. *)
Lemma create_inr env user_id request q current pending mode effective_at st
    answer st' :
  create env user_id request q current pending mode effective_at st
  = inr (answer, st') →
  let rid := MiniaturizationRequestRecord.id request in
  let row := InsurancePolicyActivationResponse.policy answer in
  Ledger.policies st'
  = (if bool_decide (mode = immediate)
     then supersede scheduled rid (supersede active rid (Ledger.policies st))
     else supersede scheduled rid (Ledger.policies st)) ++ [row]
  ∧ InsurancePolicyRecord.request_id row = rid
  ∧ InsurancePolicyRecord.tier row = InsurancePolicyQuote.tier q
  ∧ InsurancePolicyRecord.status row
    = (if bool_decide (mode = immediate) then active else scheduled)
  ∧ InsurancePolicyRecord.effective_at row = effective_at
  ∧ InsurancePolicyActivationResponse.activation_mode answer = Some mode
  ∧ InsurancePolicyActivationResponse.effective_at answer = Some effective_at
  ∧ Discount.points_spent (InsurancePolicyActivationResponse.discount answer)
    = InsurancePolicyQuote.points_redeemed q
  ∧ (0 ≤ InsurancePolicyQuote.points_redeemed q ≤ Ledger.available_points st)%Z
  ∧ Ledger.available_points st'
    = (Ledger.available_points st - InsurancePolicyQuote.points_redeemed q)%Z.
Proof.
  unfold create.
  destruct ((InsurancePolicyQuote.points_redeemed q <? 0)%Z
            || (Ledger.available_points st
                <? InsurancePolicyQuote.points_redeemed q)%Z) eqn:Hguard;
    [discriminate|].
  apply orb_false_iff in Hguard as [H0 H1].
  apply Z.ltb_ge in H0, H1.
  intros Heq. inversion Heq; subst; clear Heq. simpl.
  destruct mode; simpl; repeat split; (reflexivity || assumption).
Qed.

(** A creating activation keeps the ledger invariant; a scheduled one must
    start at the next billing of the request's active policy. *)
Lemma create_ledger_ok env user_id request q current pending mode effective_at
    st answer st' :
  ledger_ok st →
  (mode = mode_scheduled →
   ∃ a, find_policy active (MiniaturizationRequestRecord.id request)
          (Ledger.policies st) = Some a
        ∧ effective_at = InsurancePolicyRecord.next_billing_at a) →
  create env user_id request q current pending mode effective_at st
  = inr (answer, st') →
  ledger_ok st'.
Proof.
  intros (Hact & Hsch & Hal) Hmode Hc.
  apply create_inr in Hc
    as (Hl & Hrid & _ & Hst & Heff & _). simpl in Hl, Hrid.
  set (rid := MiniaturizationRequestRecord.id request) in *.
  set (row := InsurancePolicyActivationResponse.policy answer) in *.
  assert (Hrow : ∀ w r, concerns w r row = true
                        ↔ w = InsurancePolicyRecord.status row ∧ r = rid).
  { intros w r. rewrite concerns_spec, Hrid. split; intros [? ?]; split; congruence. }
  unfold ledger_ok. rewrite Hl. clear Hl.
  destruct mode; simpl in *.
  - (* immediate *)
    clear Hmode. split; [|split].
    + intros r. rewrite count_policies_app.
      rewrite count_supersede_untouched by (try left; discriminate).
      destruct (concerns active r row) eqn:Hc.
      * apply Hrow in Hc as [_ ->].
        rewrite count_supersede_same by discriminate. lia.
      * pose proof (count_supersede_le active r active rid (Ledger.policies st)
                      ltac:(discriminate)) as Hle.
        specialize (Hact r). lia.
    + intros r. rewrite count_policies_app.
      destruct (concerns scheduled r row) eqn:Hc.
      * apply Hrow in Hc as [Hc _]. rewrite Hst in Hc. discriminate.
      * pose proof (count_supersede_le scheduled r scheduled rid
                      (supersede active rid (Ledger.policies st))
                      ltac:(discriminate)) as Hle.
        rewrite (count_supersede_untouched scheduled r active rid) in Hle
          by (try left; discriminate).
        specialize (Hsch r). lia.
    + intros a s Hfind Hin Hs.
      apply elem_of_app in Hin as [Hin|Hin];
        [|apply list_elem_of_singleton in Hin; subst s; congruence].
      apply (elem_of_supersede scheduled) in Hin as [Hin Hnc];
        [|discriminate|exact Hs].
      apply (elem_of_supersede scheduled) in Hin as [Hin _];
        [|discriminate|exact Hs].
      assert (Hne : InsurancePolicyRecord.request_id s ≠ rid).
      { intros Heq. unfold concerns in Hnc. rewrite Hs, Heq in Hnc.
        rewrite bool_decide_eq_true_2, String.eqb_refl in Hnc by reflexivity.
        discriminate. }
      rewrite find_policy_app in Hfind.
      rewrite !find_supersede_untouched in Hfind
        by (first [discriminate | left; discriminate | right; exact Hne]).
      destruct (find_policy active (InsurancePolicyRecord.request_id s)
                  (Ledger.policies st)) as [a0|] eqn:Hf.
      * inversion Hfind; subst a0. eapply Hal; eauto.
      * destruct (concerns active (InsurancePolicyRecord.request_id s) row)
          eqn:Hc; [|discriminate].
        apply Hrow in Hc as [_ Hc]. congruence.
  - (* scheduled *)
    destruct (Hmode eq_refl) as (a0 & Ha0 & ->). clear Hmode.
    split; [|split].
    + intros r. rewrite count_policies_app.
      rewrite count_supersede_untouched by (try left; discriminate).
      destruct (concerns active r row) eqn:Hc.
      * apply Hrow in Hc as [Hc _]. rewrite Hst in Hc. discriminate.
      * specialize (Hact r). lia.
    + intros r. rewrite count_policies_app.
      destruct (concerns scheduled r row) eqn:Hc.
      * apply Hrow in Hc as [_ ->].
        rewrite count_supersede_same by discriminate. lia.
      * pose proof (count_supersede_le scheduled r scheduled rid
                      (Ledger.policies st) ltac:(discriminate)) as Hle.
        specialize (Hsch r). lia.
    + intros a s Hfind Hin Hs.
      rewrite find_policy_app in Hfind.
      rewrite find_supersede_untouched in Hfind
        by (try left; discriminate).
      assert (Hrowact :
                concerns active (InsurancePolicyRecord.request_id s) row = false).
      { destruct (concerns active (InsurancePolicyRecord.request_id s) row)
          eqn:Hc; [|reflexivity].
        apply Hrow in Hc as [Hc _]. rewrite Hst in Hc. discriminate. }
      rewrite Hrowact in Hfind.
      apply elem_of_app in Hin as [Hin|Hin].
      * apply (elem_of_supersede scheduled) in Hin as [Hin _];
          [|discriminate|exact Hs].
        destruct (find_policy active (InsurancePolicyRecord.request_id s)
                    (Ledger.policies st)) as [a1|] eqn:Hf; [|discriminate].
        inversion Hfind; subst a1. eapply Hal; eauto.
      * apply list_elem_of_singleton in Hin. subst s.
        rewrite Hrid, Ha0 in Hfind. inversion Hfind; subst a0. exact Heff.
Qed.

End LedgerInvariant.

(** ** Part XII. The quote engine: theorems *)

Section QuoteFacts.

Implicit Types (policy : PointsDiscountPolicyRecord.t).
Implicit Types (premium : Q) (available : Z).

Local Open Scope Q_scope.

Lemma capped_true policy premium available :
  capped policy premium available = true
  ↔ premium
    < inject_Z (units_redeemable policy available)
      * PointsDiscountPolicyRecord.discount_per_unit policy.
Proof.
  unfold capped. rewrite negb_true_iff, <- not_true_iff_false, Qle_bool_iff.
  split; [apply Qnot_le_lt | apply Qlt_not_le].
Qed.

Lemma capped_false policy premium available :
  capped policy premium available = false
  ↔ inject_Z (units_redeemable policy available)
    * PointsDiscountPolicyRecord.discount_per_unit policy
    <= premium.
Proof.
  unfold capped. rewrite negb_false_iff, Qle_bool_iff. reflexivity.
Qed.

(** [units_redeemable] is the floor of the quotient. *)
Lemma units_redeemable_floor policy available :
  (0 < PointsDiscountPolicyRecord.points_per_discount_unit policy)%Z →
  let per_unit := PointsDiscountPolicyRecord.points_per_discount_unit policy in
  let units := units_redeemable policy available in
  (units * per_unit ≤ available < (units + 1) * per_unit)%Z.
Proof.
  intros Hpos per_unit units. subst per_unit units. unfold units_redeemable.
  pose proof (Z.div_mod available
                (PointsDiscountPolicyRecord.points_per_discount_unit policy)
                ltac:(lia)) as Hdm.
  pose proof (Z.mod_pos_bound available
                (PointsDiscountPolicyRecord.points_per_discount_unit policy)
                Hpos) as Hb.
  nia.
Qed.

(** The whole units behind the redeemed points: between none and the
    redeemable ones, worth no more than the discount and less than one unit
    short of it. *)
Lemma points_redeemed_units policy premium available :
  (0 < PointsDiscountPolicyRecord.points_per_discount_unit policy)%Z →
  0 < PointsDiscountPolicyRecord.discount_per_unit policy →
  (0 ≤ available)%Z →
  0 <= premium →
  let per_unit := PointsDiscountPolicyRecord.points_per_discount_unit policy in
  let worth := PointsDiscountPolicyRecord.discount_per_unit policy in
  let discount := discount_value policy premium available in
  ∃ k : Z,
    points_redeemed policy premium available = (k * per_unit)%Z
    ∧ (0 ≤ k ≤ units_redeemable policy available)%Z
    ∧ inject_Z k * worth <= discount
    ∧ discount < inject_Z (k + 1) * worth
    ∧ (capped policy premium available = false → inject_Z k * worth == discount)
    ∧ (capped policy premium available = true →
       discount == premium ∧ k = Qfloor (discount / worth)).
Proof.
  intros Hppu Hdpu Hav Hprem per_unit worth discount.
  assert (Hunits : (0 ≤ units_redeemable policy available)%Z).
  { unfold units_redeemable. apply Z.div_pos; lia. }
  unfold points_redeemed. fold per_unit worth discount.
  destruct (capped policy premium available) eqn:Hcap.
  - apply capped_true in Hcap. fold worth in Hcap.
    assert (Hd : discount == premium).
    { subst discount. unfold discount_value. apply Q.min_l.
      fold worth. apply Qlt_le_weak. exact Hcap. }
    exists (Qfloor (discount / worth)).
    split; [reflexivity|].
    pose proof (Qfloor_le (discount / worth)) as Hfl.
    pose proof (Qlt_floor (discount / worth)) as Hfu.
    split; [split|].
    + rewrite <- (Qfloor_Z 0). apply Qfloor_resp_le.
      apply Qle_shift_div_l; [exact Hdpu|]. rewrite Qmult_0_l, Hd. exact Hprem.
    + apply Z.lt_le_incl. rewrite Zlt_Qlt.
      eapply Qle_lt_trans; [exact Hfl|].
      apply Qlt_shift_div_r; [exact Hdpu|]. rewrite Hd. exact Hcap.
    + split.
      { apply Qnot_lt_le. intros Hlt.
        apply Qlt_shift_div_r in Hlt; [|exact Hdpu].
        exact (Qlt_not_le _ _ Hlt Hfl). }
      split.
      { apply Qnot_le_lt. intros Hle.
        apply Qle_shift_div_l in Hle; [|exact Hdpu].
        exact (Qlt_not_le _ _ Hfu Hle). }
      split; [discriminate|]. intros _. split; [exact Hd | reflexivity].
  - apply capped_false in Hcap. fold worth in Hcap.
    assert (Hd : discount
                 == inject_Z (units_redeemable policy available) * worth).
    { subst discount. unfold discount_value. apply Q.min_r. exact Hcap. }
    exists (units_redeemable policy available).
    split; [reflexivity|]. split; [lia|].
    split; [rewrite Hd; apply Qle_refl|].
    split.
    { rewrite Hd, inject_Z_plus. rewrite Qmult_plus_distr_l.
      rewrite <- (Qplus_0_r (inject_Z (units_redeemable policy available) * worth))
        at 1.
      apply Qplus_lt_r. rewrite Qmult_1_l. exact Hdpu. }
    split; [intros _; symmetry; exact Hd | discriminate].
Qed.

(** C6, as stated, fails on a quote of 22 dollars with 500 points at 100
    points per 5 dollars: the discount is capped at 22, 400 points are
    redeemed, and they are worth 20; no multiple of 100 points corresponds
    exactly to a discount of 22. *)
Lemma quote_capped_not_exact :
  ∃ q,
    quote Sample.cheap (11 # 100) basic good 500 = inr q
    ∧ InsurancePolicyQuote.monthly_premium q == 22
    ∧ capped (SettingsRecord.points_discount Sample.cheap)
        (InsurancePolicyQuote.monthly_premium q) 500 = true
    ∧ InsurancePolicyQuote.discount_value_usd q == 22
    ∧ InsurancePolicyQuote.points_redeemed q = 400%Z
    ∧ ¬ inject_Z (InsurancePolicyQuote.points_redeemed q / 100) * 5
        == InsurancePolicyQuote.discount_value_usd q
    ∧ ∀ k : Z,
        ¬ inject_Z k * 5 == InsurancePolicyQuote.discount_value_usd q.
Proof.
  eexists. split; [vm_compute; reflexivity|]. simpl.
  split; [reflexivity|]. split; [reflexivity|]. split; [reflexivity|].
  split; [reflexivity|].
  split; [intros H; vm_compute in H; discriminate|].
  intros k H. unfold Qeq in H. simpl in H. lia.
Qed.

(** C6, amended. In every quote [units_redeemable] is the floor of the
    available points over the points per unit, the discount is the smaller of
    the premium and the redeemable units' worth, and the final premium is
    the premium less the discount, floored at 0.  The redeemed points are a
    whole number of units, at most the redeemable ones (so never more than
    the balance), worth no more than the discount and less than one unit
    short of it; without the cap they are worth the discount exactly; under
    the cap they are the whole units that fit in the capped discount, and
    are worth it exactly whenever the premium is a whole number of units'
    worth.  Example: a premium of 20 with 500 points at 100 points per 5
    dollars gives a discount of 20, a final premium of 0 and 400 points
    redeemed. *)
Theorem quote_redemption :
  (∀ settings scale tier bucket available q,
     let policy := SettingsRecord.points_discount settings in
     let per_unit := PointsDiscountPolicyRecord.points_per_discount_unit policy in
     let worth := PointsDiscountPolicyRecord.discount_per_unit policy in
     let units := units_redeemable policy available in
     let premium := InsurancePolicyQuote.monthly_premium q in
     let discount := InsurancePolicyQuote.discount_value_usd q in
     (0 < per_unit)%Z → 0 < worth → (0 ≤ available)%Z →
     quote settings scale tier bucket available = inr q →
     0 <= premium →
     (units * per_unit ≤ available < (units + 1) * per_unit)%Z
     ∧ discount = Qmin premium (inject_Z units * worth)
     ∧ InsurancePolicyQuote.final_premium q = Qmax 0 (premium - discount)
     ∧ (InsurancePolicyQuote.points_redeemed q ≤ available)%Z
     ∧ ∃ k : Z,
         InsurancePolicyQuote.points_redeemed q = (k * per_unit)%Z
         ∧ (0 ≤ k ≤ units)%Z
         ∧ inject_Z k * worth <= discount
         ∧ discount < inject_Z (k + 1) * worth
         ∧ (capped policy premium available = false →
            inject_Z k * worth == discount)
         ∧ (capped policy premium available = true →
            discount == premium
            ∧ k = Qfloor (discount / worth)
            ∧ ((∃ n : Z, inject_Z n * worth == premium) →
               inject_Z k * worth == discount)))
  ∧ (∀ tier steps rate multiplier,
       let q :=
         price {| PointsDiscountPolicyRecord.points_per_discount_unit := 100;
                  PointsDiscountPolicyRecord.discount_per_unit := 5 |}
           tier steps rate multiplier 20 500 in
       InsurancePolicyQuote.discount_value_usd q == 20
       ∧ InsurancePolicyQuote.final_premium q == 0
       ∧ InsurancePolicyQuote.points_redeemed q = 400%Z).
Proof.
  split; [|intros; simpl; repeat split; reflexivity].
  intros settings scale tier bucket available q policy per_unit worth units
    premium discount Hppu Hdpu Hav Hq Hprem.
  unfold quote in Hq.
  destruct (Qle_bool (SettingsRecord.scale_min settings) scale
            && Qle_bool scale (SettingsRecord.scale_max settings));
    [|discriminate].
  inversion Hq; subst q; clear Hq. simpl in premium, discount.
  fold policy in premium, discount |- *. simpl.
  fold policy. fold premium.
  pose proof (units_redeemable_floor policy available Hppu) as Hfloor.
  destruct (points_redeemed_units policy premium available Hppu Hdpu Hav Hprem)
    as (k & Hk & Hrange & Hle & Hlt & Hexact & Hcap).
  split; [exact Hfloor|]. split; [reflexivity|]. split; [reflexivity|].
  split.
  { rewrite Hk. simpl in Hfloor. fold per_unit units in Hfloor |- *.
    fold units in Hrange. nia. }
  exists k. split; [exact Hk|]. split; [exact Hrange|].
  split; [exact Hle|]. split; [exact Hlt|]. split; [exact Hexact|].
  intros Hc. destruct (Hcap Hc) as [Hd Hfl].
  split; [exact Hd|]. split; [exact Hfl|].
  intros [n Hn].
  assert (Hkn : k = n).
  { rewrite Hfl, <- (Qfloor_Z n). apply Qfloor_comp.
    fold worth. rewrite Hd, <- Hn. apply Qdiv_mult_l.
    intros H0. rewrite H0 in Hdpu. discriminate. }
  rewrite Hkn, Hn. symmetry. exact Hd.
Qed.

(** Scenario B through the engine: a request of one step on the basic tier
    costs 20; with 500 points the discount is capped at 20 and 400 points
    are redeemed. *)
Lemma quote_redemption_witness :
  ∃ q,
    quote Sample.settings (1 # 100) basic good 500 = inr q
    ∧ InsurancePolicyQuote.monthly_premium q == 20
    ∧ InsurancePolicyQuote.discount_value_usd q == 20
    ∧ InsurancePolicyQuote.final_premium q == 0
    ∧ InsurancePolicyQuote.points_redeemed q = 400%Z
    ∧ (InsurancePolicyQuote.points_redeemed q ≤ 500)%Z.
Proof.
  eexists. split; [vm_compute; reflexivity|].
  split; [reflexivity|]. split; [reflexivity|]. split; [reflexivity|].
  split; [reflexivity|].
  destruct quote_redemption as [Hgen _].
  edestruct (Hgen Sample.settings (1 # 100) basic good 500%Z)
    as (_ & _ & _ & Hle & _);
    [reflexivity | reflexivity | discriminate | vm_compute; reflexivity
    | discriminate | exact Hle].
Defined.

End QuoteFacts.

(** ** Part XIII. The activation state machine: theorems *)

Section ActivationFacts.

Implicit Types (st : Ledger.t) (ui : Enrollment.t).
Implicit Types (request : MiniaturizationRequestRecord.t).

Lemma quote_tier settings scale tier bucket points q :
  quote settings scale tier bucket points = inr q →
  InsurancePolicyQuote.tier q = tier.
Proof.
  unfold quote.
  destruct (Qle_bool (SettingsRecord.scale_min settings) scale
            && Qle_bool scale (SettingsRecord.scale_max settings));
    [|discriminate].
  intros Heq. inversion Heq. reflexivity.
Qed.

(** The branches of [activate], one equation each. *)
Lemma activate_ineligible force env settings user_id request tier st :
  statusEligible (MiniaturizationRequestRecord.status request) = false →
  activate force env settings user_id request tier st
  = inl RequestNotEligibleError.
Proof. intros He. unfold activate. rewrite He. reflexivity. Qed.

Lemma activate_same_active force env settings user_id request tier st a :
  statusEligible (MiniaturizationRequestRecord.status request) = true →
  find_policy active (MiniaturizationRequestRecord.id request)
    (Ledger.policies st) = Some a →
  InsurancePolicyRecord.tier a = tier →
  activate force env settings user_id request tier st
  = inr (unchanged a st, st).
Proof.
  intros He Ha Ht. unfold activate. rewrite He, Ha. simpl.
  rewrite bool_decide_eq_true_2 by exact Ht. reflexivity.
Qed.

Lemma activate_same_scheduled force env settings user_id request tier st s :
  statusEligible (MiniaturizationRequestRecord.status request) = true →
  find_policy scheduled (MiniaturizationRequestRecord.id request)
    (Ledger.policies st) = Some s →
  InsurancePolicyRecord.tier s = tier →
  (∀ a, find_policy active (MiniaturizationRequestRecord.id request)
          (Ledger.policies st) = Some a →
        InsurancePolicyRecord.tier a ≠ tier) →
  activate force env settings user_id request tier st
  = inr (unchanged s st, st).
Proof.
  intros He Hs Ht Hna. unfold activate. rewrite He, Hs. simpl.
  rewrite (bool_decide_eq_true_2 _ Ht).
  destruct (find_policy active (MiniaturizationRequestRecord.id request)
              (Ledger.policies st)) as [a|]; [|reflexivity].
  rewrite bool_decide_eq_false_2 by (apply Hna; reflexivity). reflexivity.
Qed.

(** With an active policy of another tier and no schedule for the requested
    tier, an unforced activation that succeeds is a scheduled creation. *)
Lemma activate_schedules env settings user_id request tier st a answer st' :
  find_policy active (MiniaturizationRequestRecord.id request)
    (Ledger.policies st) = Some a →
  InsurancePolicyRecord.tier a ≠ tier →
  (∀ s, find_policy scheduled (MiniaturizationRequestRecord.id request)
          (Ledger.policies st) = Some s →
        InsurancePolicyRecord.tier s ≠ tier) →
  activate false env settings user_id request tier st = inr (answer, st') →
  ∃ q,
    quote settings (MiniaturizationRequestRecord.scale request) tier
      (ActivationEnv.health_bucket env) (Ledger.available_points st) = inr q
    ∧ create env user_id request q (Some a)
        (find_policy scheduled (MiniaturizationRequestRecord.id request)
           (Ledger.policies st))
        mode_scheduled (InsurancePolicyRecord.next_billing_at a) st
      = inr (answer, st').
Proof.
  intros Ha Hta Hns. unfold activate.
  destruct (statusEligible (MiniaturizationRequestRecord.status request));
    [|discriminate].
  rewrite Ha. simpl.
  rewrite bool_decide_eq_false_2 by exact Hta.
  destruct (find_policy scheduled (MiniaturizationRequestRecord.id request)
              (Ledger.policies st)) as [s|] eqn:Hs.
  - rewrite bool_decide_eq_false_2 by (apply Hns; reflexivity).
    destruct (quote settings (MiniaturizationRequestRecord.scale request) tier
                (ActivationEnv.health_bucket env) (Ledger.available_points st))
      as [e|q]; [discriminate|].
    intros Hc. exists q. split; [reflexivity | exact Hc].
  - destruct (quote settings (MiniaturizationRequestRecord.scale request) tier
                (ActivationEnv.health_bucket env) (Ledger.available_points st))
      as [e|q]; [discriminate|].
    intros Hc. exists q. split; [reflexivity | exact Hc].
Qed.

(** Every successful activation keeps the ledger invariant. *)
Lemma activate_ledger_ok force env settings user_id request tier st answer st' :
  ledger_ok st →
  activate force env settings user_id request tier st = inr (answer, st') →
  ledger_ok st'.
Proof.
  intros Hok. unfold activate.
  destruct (statusEligible (MiniaturizationRequestRecord.status request));
    [|discriminate]. simpl.
  destruct (find_policy active (MiniaturizationRequestRecord.id request)
              (Ledger.policies st)) as [a|] eqn:Ha;
    destruct (find_policy scheduled (MiniaturizationRequestRecord.id request)
                (Ledger.policies st)) as [s|] eqn:Hs;
    repeat match goal with
      | |- context [bool_decide ?P] => destruct (bool_decide P)
      end;
    try (intros Heq; inversion Heq; subst; exact Hok);
    destruct (quote settings (MiniaturizationRequestRecord.scale request) tier
                (ActivationEnv.health_bucket env) (Ledger.available_points st))
      as [e|q]; try discriminate;
    try destruct force;
    intros Hc; eapply create_ledger_ok; try exact Hc; try exact Hok;
    try discriminate; intros _; eexists; split; eauto.
Qed.

Lemma opened_ledger_ok points : ledger_ok (opened points).
Proof.
  split; [|split].
  - intros r. simpl. unfold count_policies. simpl. lia.
  - intros r. simpl. unfold count_policies. simpl. lia.
  - intros a s _ Hin. inversion Hin.
Qed.

Lemma reachable_ledger_ok st : reachable st → ledger_ok st.
Proof.
  induction 1 as [points|points st Hr IH|? ? ? ? ? ? st answer st' Hr IH Hact].
  - apply opened_ledger_ok.
  - exact IH.
  - eapply activate_ledger_ok; eauto.
Qed.

Lemma find_supersede_same w r (l : list InsurancePolicyRecord.t) :
  w ≠ cancelled → find_policy w r (supersede w r l) = None.
Proof.
  intros Hw. induction l as [|p l IH]; [reflexivity|].
  rewrite supersede_cons, find_policy_cons.
  rewrite concerns_supersede by exact Hw.
  destruct (concerns w r p); simpl; exact IH.
Qed.

Lemma append_assoc (a b c : string) : (a +:+ b) +:+ c = a +:+ (b +:+ c).
Proof.
  induction a as [|x a IH]; [reflexivity|].
  change (String x ((a +:+ b) +:+ c) = String x (a +:+ (b +:+ c))).
  rewrite IH. reflexivity.
Qed.

(** With sane settings the redeemed points of a quote are within the
    balance, so the defensive ledger check passes. *)
Lemma quote_points_in_balance settings scale tier bucket available q :
  (0 < PointsDiscountPolicyRecord.points_per_discount_unit
         (SettingsRecord.points_discount settings))%Z →
  (0 < PointsDiscountPolicyRecord.discount_per_unit
         (SettingsRecord.points_discount settings))%Q →
  (0 ≤ available)%Z →
  (0 <= quote_premium settings scale tier bucket)%Q →
  quote settings scale tier bucket available = inr q →
  (0 ≤ InsurancePolicyQuote.points_redeemed q ≤ available)%Z.
Proof.
  intros Hppu Hdpu Hav Hprem Hq. unfold quote in Hq.
  destruct (Qle_bool (SettingsRecord.scale_min settings) scale
            && Qle_bool scale (SettingsRecord.scale_max settings));
    [|discriminate].
  inversion Hq; subst q; clear Hq. simpl.
  pose proof (units_redeemable_floor _ available Hppu) as Hfloor.
  destruct (points_redeemed_units _ _ available Hppu Hdpu Hav Hprem)
    as (k & Hk & Hrange & _).
  rewrite Hk. simpl in Hfloor. nia.
Qed.

(** With an eligible request, a scale within bounds and sane settings, an
    unforced activation for another tier than the active one succeeds. *)
Lemma activate_succeeds env settings user_id request tier st a :
  statusEligible (MiniaturizationRequestRecord.status request) = true →
  find_policy active (MiniaturizationRequestRecord.id request)
    (Ledger.policies st) = Some a →
  InsurancePolicyRecord.tier a ≠ tier →
  Qle_bool (SettingsRecord.scale_min settings)
    (MiniaturizationRequestRecord.scale request)
  && Qle_bool (MiniaturizationRequestRecord.scale request)
       (SettingsRecord.scale_max settings) = true →
  (0 < PointsDiscountPolicyRecord.points_per_discount_unit
         (SettingsRecord.points_discount settings))%Z →
  (0 < PointsDiscountPolicyRecord.discount_per_unit
         (SettingsRecord.points_discount settings))%Q →
  (0 ≤ Ledger.available_points st)%Z →
  (0 <= quote_premium settings (MiniaturizationRequestRecord.scale request)
          tier (ActivationEnv.health_bucket env))%Q →
  ∃ answer st',
    activate false env settings user_id request tier st = inr (answer, st').
Proof.
  intros He Ha Hta Hscale Hppu Hdpu Hav Hprem.
  unfold activate. rewrite He, Ha. simpl.
  rewrite bool_decide_eq_false_2 by exact Hta.
  destruct (find_policy scheduled (MiniaturizationRequestRecord.id request)
              (Ledger.policies st)) as [s|];
    [destruct (bool_decide (InsurancePolicyRecord.tier s = tier));
       [eexists; eexists; reflexivity|]|];
    (destruct (quote settings (MiniaturizationRequestRecord.scale request) tier
                 (ActivationEnv.health_bucket env) (Ledger.available_points st))
       as [e|q] eqn:Hq;
     [unfold quote in Hq; rewrite Hscale in Hq; discriminate|];
     pose proof (quote_points_in_balance _ _ _ _ _ _ Hppu Hdpu Hav Hprem Hq)
       as [H0 H1];
     unfold create;
     apply Z.ltb_ge in H0, H1; rewrite H0, H1; simpl;
     eexists; eexists; reflexivity).
Qed.

(** The preview's message for a change that will be scheduled says that the
    current coverage stays active. *)
Lemma scheduled_info_suffix toLocale ui q :
  Enrollment.quote ui = Some q →
  Enrollment.quoteEligible ui = true →
  sameTierActive ui = false →
  sameTierScheduled ui = false →
  Enrollment.activationMode ui = Some mode_scheduled →
  ∃ lead tail,
    infoMessage toLocale ui
    = Some (lead +:+ " stays active until then." +:+ tail).
Proof.
  intros Hq Hel Hna Hns Hm. unfold infoMessage.
  rewrite Hq, Hel, Hna, Hns, Hm.
  rewrite bool_decide_eq_true_2 by reflexivity. cbv beta iota zeta.
  set (begins := scheduleLabel toLocale (Enrollment.effectiveAt ui)).
  set (current := match Enrollment.activePolicyTier ui with
                  | Some t => insuranceTierLabels t +:+ " coverage"
                  | None => "Current coverage"
                  end).
  match goal with
  | |- context [current +:+ " stays active until then." +:+ ?note] =>
      exists ("This change takes effect on your next billing date ("
                +:+ begins +:+ "). " +:+ current), note
  end.
  rewrite !append_assoc. reflexivity.
Qed.

(** C2. Every ledger the state machine can produce has at most one active
    and at most one scheduled policy per request; a new schedule for a
    request becomes its only scheduled policy and the previous one is
    cancelled; and each per-request map of the enrollment page binds a
    request to a single policy, the last one of that status the overview
    lists, which on such a ledger is the only one. *)
Theorem one_policy_per_request :
  (∀ st, reachable st →
     at_most_one active (Ledger.policies st)
     ∧ at_most_one scheduled (Ledger.policies st))
  ∧ (∀ env settings user_id request tier st a s answer st',
       let rid := MiniaturizationRequestRecord.id request in
       find_policy active rid (Ledger.policies st) = Some a →
       find_policy scheduled rid (Ledger.policies st) = Some s →
       InsurancePolicyRecord.tier a ≠ tier →
       InsurancePolicyRecord.tier s ≠ tier →
       activate false env settings user_id request tier st
       = inr (answer, st') →
       let row := InsurancePolicyActivationResponse.policy answer in
       InsurancePolicyRecord.status row = scheduled
       ∧ InsurancePolicyRecord.tier row = tier
       ∧ find_policy scheduled rid (Ledger.policies st') = Some row
       ∧ count_policies scheduled rid (Ledger.policies st') = 1%nat
       ∧ with_status cancelled s ∈ Ledger.policies st')
  ∧ (∀ ov request_id,
       policiesByRequest ov !! request_id
       = last (List.filter (concerns active request_id) (policies_of ov))
       ∧ scheduledPoliciesByRequest ov !! request_id
         = last (List.filter (concerns scheduled request_id) (policies_of ov)))
  ∧ (∀ ov request_id,
       at_most_one active (policies_of ov) →
       at_most_one scheduled (policies_of ov) →
       policiesByRequest ov !! request_id
       = find_policy active request_id (policies_of ov)
       ∧ scheduledPoliciesByRequest ov !! request_id
         = find_policy scheduled request_id (policies_of ov)).
Proof.
  split.
  { intros st Hr. apply reachable_ledger_ok in Hr as (Ha & Hs & _).
    split; assumption. }
  split.
  { intros env settings user_id request tier st a s answer st' rid
      Ha Hs Hta Hts Hact row.
    apply activate_schedules with (a := a) in Hact as (q & Hq & Hc);
      [|exact Ha|exact Hta|].
    2:{ intros s' Hs'. fold rid in Hs'. rewrite Hs in Hs'.
        inversion Hs'; subst s'. exact Hts. }
    apply quote_tier in Hq.
    apply create_inr in Hc as (Hl & Hrid & Htier & Hst & _).
    simpl in Hl, Hst. fold rid in Hl, Hrid. fold row in Hl, Hrid, Htier, Hst.
    assert (Hcr : concerns scheduled rid row = true).
    { apply concerns_spec. split; assumption. }
    split; [exact Hst|]. split; [congruence|].
    rewrite Hl. split; [|split].
    - rewrite find_policy_app, find_supersede_same by discriminate.
      rewrite Hcr. reflexivity.
    - rewrite count_policies_app, count_supersede_same by discriminate.
      rewrite Hcr. reflexivity.
    - apply elem_of_app. left. unfold supersede. apply list_elem_of_fmap.
      exists s. apply find_policy_Some in Hs as (Hin & Hss & Hsr).
      split; [|exact Hin].
      assert (Hcs : concerns scheduled rid s = true)
        by (apply concerns_spec; split; assumption).
      rewrite Hcs. reflexivity. }
  split.
  { intros ov request_id. split; apply indexByRequest_lookup. }
  intros ov request_id Ha Hs. split; apply indexByRequest_unique; auto.
Qed.

Lemma sample_withBasic_reachable : reachable Sample.withBasic.
Proof.
  eapply (reach_activate false Sample.february Sample.settings "u-1"
            (Sample.request "r-1" approved) basic (opened 500)).
  - apply reach_opened.
  - cbv. reflexivity.
Qed.

Lemma sample_withPlusScheduled_reachable : reachable Sample.withPlusScheduled.
Proof.
  eapply (reach_activate false Sample.midFebruary Sample.settings "u-1"
            (Sample.request "r-1" approved) plus Sample.withBasic).
  - apply sample_withBasic_reachable.
  - cbv. reflexivity.
Qed.

(** Scenario C continued: with basic active and plus scheduled on request R,
    scheduling premium leaves premium as the only schedule of R. *)
Lemma one_policy_per_request_witness :
  (at_most_one active (Ledger.policies Sample.withPlusScheduled)
   ∧ at_most_one scheduled (Ledger.policies Sample.withPlusScheduled))
  ∧ ∃ answer st',
      activate false Sample.lateFebruary Sample.settings "u-1"
        (Sample.request "r-1" approved) premium Sample.withPlusScheduled
      = inr (answer, st')
      ∧ InsurancePolicyRecord.tier
          (InsurancePolicyActivationResponse.policy answer) = premium
      ∧ find_policy scheduled "r-1" (Ledger.policies st')
        = Some (InsurancePolicyActivationResponse.policy answer)
      ∧ count_policies scheduled "r-1" (Ledger.policies st') = 1%nat.
Proof.
  destruct one_policy_per_request as (Hinv & Hrepl & _).
  split; [apply Hinv, sample_withPlusScheduled_reachable|].
  eexists. eexists. split; [cbv; reflexivity|].
  edestruct (Hrepl Sample.lateFebruary Sample.settings "u-1"
               (Sample.request "r-1" approved) premium Sample.withPlusScheduled)
    as (_ & Htier & Hfind & Hcount & _);
    [cbv; reflexivity | cbv; reflexivity | discriminate | discriminate
    | cbv; reflexivity |].
  split; [exact Htier|]. split; [exact Hfind | exact Hcount].
Defined.

(** The message for a scheduled activation ends by saying that the current
    coverage stays active. *)
Lemma scheduled_feedback_suffix toLocale previousTier response :
  InsurancePolicyActivationResponse.activation_mode response
  = Some mode_scheduled →
  ∃ lead,
    activationFeedbackText toLocale previousTier response
    = lead +:+ "coverage stays active until then.".
Proof.
  intros Hm. unfold activationFeedbackText. rewrite Hm.
  rewrite bool_decide_eq_true_2 by reflexivity.
  set (label :=
         insuranceTierLabels
           (InsurancePolicyQuote.tier
              (InsurancePolicyActivationResponse.pricing response))).
  set (price :=
         formatCurrency
           (InsurancePolicyQuote.final_premium
              (InsurancePolicyActivationResponse.pricing response))).
  set (begins :=
         scheduleLabel toLocale
           (InsurancePolicyActivationResponse.effective_at response)).
  destruct previousTier as [t|].
  - exists (label +:+ " coverage scheduled at " +:+ price
            +:+ " per month. It will begin on " +:+ begins +:+ ". "
            +:+ insuranceTierLabels t +:+ " ").
    change (insuranceTierLabels <$> Some t) with (Some (insuranceTierLabels t)).
    cbv beta iota. rewrite !append_assoc. reflexivity.
  - exists (label +:+ " coverage scheduled at " +:+ price
            +:+ " per month. It will begin on " +:+ begins +:+ ". "
            +:+ "Current ").
    change (insuranceTierLabels <$> None) with (@None string).
    cbv beta iota. rewrite !append_assoc. reflexivity.
Qed.

(** C3. With an active policy on the request and another tier requested
    (the client's payload being [{request_id, tier}], nothing forces an
    immediate start), the activation is scheduled, not immediate: every
    answer has mode [scheduled] and takes effect at the active policy's
    [next_billing_at], and the active policy is still the request's active
    policy, unchanged; the page then records the schedule and tells the user
    that the current coverage stays active until then.  For an eligible
    request with a scale within bounds and sane settings the activation does
    succeed.  The preview's message for such a change says the same. *)
Theorem different_tier_is_scheduled env settings user_id request tier st a :
  let rid := MiniaturizationRequestRecord.id request in
  ledger_ok st →
  find_policy active rid (Ledger.policies st) = Some a →
  InsurancePolicyRecord.tier a ≠ tier →
  (∀ answer st',
     activate false env settings user_id request tier st = inr (answer, st') →
     (InsurancePolicyActivationResponse.activation_mode answer
      = Some mode_scheduled
      ∧ InsurancePolicyActivationResponse.effective_at answer
        = Some (InsurancePolicyRecord.next_billing_at a)
      ∧ InsurancePolicyRecord.status a = active
      ∧ a ∈ Ledger.policies st'
      ∧ find_policy active rid (Ledger.policies st') = Some a)
     ∧ (∀ toLocale reloaded ui,
          Enrollment.selectedRequestId ui ≠ "" →
          let ui' := handleActivate toLocale (inr answer) reloaded ui in
          Enrollment.activationMode ui' = Some mode_scheduled
          ∧ Enrollment.effectiveAt ui'
            = Some (InsurancePolicyRecord.next_billing_at a)
          ∧ Enrollment.scheduledPolicyTier ui' = Some tier
          ∧ Enrollment.activationError ui' = None
          ∧ ∃ lead,
              Enrollment.activationFeedback ui'
              = Some (lead +:+ "coverage stays active until then.")))
  ∧ (statusEligible (MiniaturizationRequestRecord.status request) = true →
     Qle_bool (SettingsRecord.scale_min settings)
       (MiniaturizationRequestRecord.scale request)
     && Qle_bool (MiniaturizationRequestRecord.scale request)
          (SettingsRecord.scale_max settings) = true →
     (0 < PointsDiscountPolicyRecord.points_per_discount_unit
            (SettingsRecord.points_discount settings))%Z →
     (0 < PointsDiscountPolicyRecord.discount_per_unit
            (SettingsRecord.points_discount settings))%Q →
     (0 ≤ Ledger.available_points st)%Z →
     (0 <= quote_premium settings (MiniaturizationRequestRecord.scale request)
             tier (ActivationEnv.health_bucket env))%Q →
     ∃ answer st',
       activate false env settings user_id request tier st
       = inr (answer, st'))
  ∧ (∀ toLocale ui q,
       Enrollment.quote ui = Some q →
       Enrollment.quoteEligible ui = true →
       sameTierActive ui = false →
       sameTierScheduled ui = false →
       Enrollment.activationMode ui = Some mode_scheduled →
       ∃ lead tail,
         infoMessage toLocale ui
         = Some (lead +:+ " stays active until then." +:+ tail)).
Proof.
  intros rid Hok Ha Hta.
  split; [|split].
  2:{ intros He Hscale Hppu Hdpu Hav Hprem.
      eapply activate_succeeds; eassumption. }
  2:{ intros toLocale ui q. apply scheduled_info_suffix. }
  intros answer st' Hact.
    pose proof (find_policy_Some _ _ _ _ Ha) as (Hain & Hast & Har).
    assert (Hcore :
      InsurancePolicyActivationResponse.activation_mode answer
      = Some mode_scheduled
      ∧ InsurancePolicyActivationResponse.effective_at answer
        = Some (InsurancePolicyRecord.next_billing_at a)
      ∧ InsurancePolicyQuote.tier
          (InsurancePolicyActivationResponse.pricing answer) = tier
      ∧ a ∈ Ledger.policies st'
      ∧ find_policy active rid (Ledger.policies st') = Some a).
    { destruct (find_policy scheduled rid (Ledger.policies st)) as [s|] eqn:Hs.
      - destruct (decide (InsurancePolicyRecord.tier s = tier)) as [Hts|Hts].
        + (* the tier is already scheduled: the existing schedule is returned *)
          assert (He : statusEligible
                         (MiniaturizationRequestRecord.status request) = true).
          { unfold activate in Hact.
            destruct (statusEligible
                        (MiniaturizationRequestRecord.status request));
              [reflexivity | discriminate]. }
          rewrite (activate_same_scheduled false env settings user_id request
                     tier st s He Hs Hts) in Hact.
          2:{ intros a' Ha'. fold rid in Ha'. rewrite Ha in Ha'.
              inversion Ha'; subst a'. exact Hta. }
          inversion Hact; subst answer st'; clear Hact.
          pose proof (find_policy_Some _ _ _ _ Hs) as (Hsin & Hsst & Hsr).
          destruct Hok as (_ & _ & Hal). simpl.
          rewrite Hsst. rewrite bool_decide_eq_true_2 by reflexivity.
          split; [reflexivity|]. split.
          { f_equal. apply Hal; [rewrite Hsr; exact Ha | exact Hsin | exact Hsst]. }
          split; [exact Hts|]. split; [exact Hain | exact Ha].
        + apply activate_schedules with (a := a) in Hact as (q & Hq & Hc);
            [|exact Ha|exact Hta|].
          2:{ intros s' Hs'. fold rid in Hs'. rewrite Hs in Hs'.
              inversion Hs'; subst s'. exact Hts. }
          apply quote_tier in Hq.
          pose proof Hc as Hc'. unfold create in Hc'.
          destruct ((InsurancePolicyQuote.points_redeemed q <? 0)%Z
                    || (Ledger.available_points st
                        <? InsurancePolicyQuote.points_redeemed q)%Z);
            [discriminate|].
          inversion Hc'; subst answer st'; clear Hc'. simpl.
          split; [reflexivity|]. split; [reflexivity|]. split; [exact Hq|].
          fold rid. split.
          * apply elem_of_app. left. apply elem_of_supersede_keep; [exact Hain|].
            eapply concerns_exclusive; [|apply concerns_spec; split; eauto].
            discriminate.
          * rewrite find_policy_app.
            rewrite find_supersede_untouched by (try left; discriminate).
            rewrite Ha. reflexivity.
      - apply activate_schedules with (a := a) in Hact as (q & Hq & Hc);
          [|exact Ha|exact Hta|].
        2:{ intros s' Hs'. fold rid in Hs'. rewrite Hs in Hs'. discriminate. }
        apply quote_tier in Hq.
        pose proof Hc as Hc'. unfold create in Hc'.
        destruct ((InsurancePolicyQuote.points_redeemed q <? 0)%Z
                  || (Ledger.available_points st
                      <? InsurancePolicyQuote.points_redeemed q)%Z);
          [discriminate|].
        inversion Hc'; subst answer st'; clear Hc'. simpl.
        split; [reflexivity|]. split; [reflexivity|]. split; [exact Hq|].
        fold rid. split.
        * apply elem_of_app. left. apply elem_of_supersede_keep; [exact Hain|].
          eapply concerns_exclusive; [|apply concerns_spec; split; eauto].
          discriminate.
        * rewrite find_policy_app.
          rewrite find_supersede_untouched by (try left; discriminate).
          rewrite Ha. reflexivity. }
    destruct Hcore as (Hm & He & Hpt & Hin & Hf).
    split.
    { split; [exact Hm|]. split; [exact He|]. split; [exact Hast|].
      split; [exact Hin | exact Hf]. }
    intros toLocale reloaded ui Hsel. simpl.
    apply String.eqb_neq in Hsel. unfold handleActivate. rewrite Hsel, Hm. simpl.
    split; [reflexivity|]. split; [exact He|]. split; [congruence|].
    split; [reflexivity|].
    destruct (scheduled_feedback_suffix toLocale (Enrollment.activePolicyTier ui)
                answer Hm) as [lead Hlead].
    exists lead. rewrite Hlead. reflexivity.
Qed.

(** Scenario C: basic is active on request R; activating plus on R is
    scheduled for basic's next billing date and basic stays active. *)
Lemma different_tier_is_scheduled_witness :
  ∃ a answer st',
    find_policy active "r-1" (Ledger.policies Sample.withBasic) = Some a
    ∧ InsurancePolicyRecord.tier a = basic
    ∧ InsurancePolicyRecord.next_billing_at a = "2025-03-01T00:00:00Z"
    ∧ activate false Sample.midFebruary Sample.settings "u-1"
        (Sample.request "r-1" approved) plus Sample.withBasic
      = inr (answer, st')
    ∧ (InsurancePolicyActivationResponse.activation_mode answer
       = Some mode_scheduled
       ∧ InsurancePolicyActivationResponse.effective_at answer
         = Some (InsurancePolicyRecord.next_billing_at a)
       ∧ InsurancePolicyRecord.status a = active
       ∧ a ∈ Ledger.policies st'
       ∧ find_policy active "r-1" (Ledger.policies st') = Some a)
    ∧ (∃ lead,
         Enrollment.activationFeedback
           (handleActivate Sample.isoLocale (inr answer) (inl "offline")
              (Sample.page Sample.payer "r-1" plus))
         = Some (lead +:+ "coverage stays active until then."))
    ∧ ∃ lead tail,
        infoMessage Sample.isoLocale
          (previewEffect
             (inr (Sample.preview plus true approved (Some basic)
                     mode_scheduled (Some "2025-03-01T00:00:00Z") None))
             (Sample.page Sample.payer "r-1" plus))
        = Some (lead +:+ " stays active until then." +:+ tail).
Proof.
  edestruct (different_tier_is_scheduled Sample.midFebruary Sample.settings
               "u-1" (Sample.request "r-1" approved) plus Sample.withBasic)
    as (Hsound & Hruns & Hinfo);
    [ apply reachable_ledger_ok, sample_withBasic_reachable
    | cbv; reflexivity | discriminate | ].
  destruct Hruns as (answer & st' & Hrun);
    [reflexivity | reflexivity | reflexivity | reflexivity | discriminate
    | discriminate |].
  destruct (Hsound answer st' Hrun) as [Hcore Hui].
  eexists. exists answer, st'.
  split; [reflexivity|]. split; [reflexivity|]. split; [reflexivity|].
  split; [exact Hrun|]. split; [exact Hcore|].
  split.
  { destruct (Hui Sample.isoLocale (inl "offline")
                (Sample.page Sample.payer "r-1" plus))
      as (_ & _ & _ & _ & Hlead); [discriminate|].
    exact Hlead. }
  eapply Hinfo; reflexivity.
Defined.

(** C4. Requesting the tier that is already active on the request, or the
    tier already scheduled for it, changes nothing: the ledger is returned
    as it was (no new policy row, the points balance untouched), the answer
    carries an existing policy of that tier and redeems no points, so a
    repeated request gets the same answer.  On the page, the state a
    preview leaves is the server's answer; the quoted tier is recognised as
    the active one exactly when the page holds it as the active tier, and as
    the scheduled one exactly when the page holds it as the scheduled tier;
    either case disables the Activate action, and for an eligible request
    the informational message says that the tier is already active, or else
    that it is already scheduled. *)
Theorem same_tier_is_noop force env settings user_id request tier st p :
  let rid := MiniaturizationRequestRecord.id request in
  statusEligible (MiniaturizationRequestRecord.status request) = true →
  InsurancePolicyRecord.tier p = tier →
  find_policy active rid (Ledger.policies st) = Some p
  ∨ find_policy scheduled rid (Ledger.policies st) = Some p →
  (∃ answer,
     activate force env settings user_id request tier st = inr (answer, st)
     ∧ InsurancePolicyActivationResponse.policy answer ∈ Ledger.policies st
     ∧ InsurancePolicyRecord.tier
         (InsurancePolicyActivationResponse.policy answer) = tier
     ∧ (find_policy active rid (Ledger.policies st) = Some p →
        InsurancePolicyActivationResponse.policy answer = p)
     ∧ Discount.points_spent
         (InsurancePolicyActivationResponse.discount answer) = 0%Z
     ∧ InsurancePolicyActivationResponse.payment answer = None)
  ∧ (∀ ui response,
       Enrollment.selectedRequestId ui ≠ "" →
       let ui' := previewEffect (inr response) ui in
       Enrollment.quote ui' = Some (InsurancePolicyQuoteResponse.quote response)
       ∧ Enrollment.quoteEligible ui'
         = InsurancePolicyQuoteResponse.eligible response
       ∧ Enrollment.activePolicyTier ui'
         = InsurancePolicyQuoteResponse.active_policy_tier response
       ∧ Enrollment.scheduledPolicyTier ui'
         = InsurancePolicyQuoteResponse.scheduled_policy_tier response
       ∧ Enrollment.effectiveAt ui'
         = InsurancePolicyQuoteResponse.effective_at response)
  ∧ (∀ ui,
       (sameTierActive ui = true
        ↔ ∃ q, Enrollment.quote ui = Some q
               ∧ Enrollment.activePolicyTier ui
                 = Some (InsurancePolicyQuote.tier q))
       ∧ (sameTierScheduled ui = true
          ↔ ∃ q, Enrollment.quote ui = Some q
                 ∧ Enrollment.scheduledPolicyTier ui
                   = Some (InsurancePolicyQuote.tier q)))
  ∧ (∀ ui q,
       Enrollment.quote ui = Some q →
       Enrollment.activePolicyTier ui = Some (InsurancePolicyQuote.tier q)
       ∨ Enrollment.scheduledPolicyTier ui = Some (InsurancePolicyQuote.tier q) →
       disableActivate ui = true)
  ∧ (∀ toLocale ui q,
       Enrollment.quote ui = Some q →
       Enrollment.quoteEligible ui = true →
       Enrollment.activePolicyTier ui = Some (InsurancePolicyQuote.tier q) →
       infoMessage toLocale ui
       = Some "This tier is already active for the selected request.")
  ∧ (∀ toLocale ui q,
       Enrollment.quote ui = Some q →
       Enrollment.quoteEligible ui = true →
       Enrollment.activePolicyTier ui ≠ Some (InsurancePolicyQuote.tier q) →
       Enrollment.scheduledPolicyTier ui = Some (InsurancePolicyQuote.tier q) →
       infoMessage toLocale ui
       = Some ("This tier is already scheduled to begin on "
                 +:+ scheduleLabel toLocale (Enrollment.effectiveAt ui)
                 +:+ ". No further action required.")).
Proof.
  intros rid He Ht Hfind.
  assert (Hactive : ∀ ui,
            sameTierActive ui = true
            ↔ ∃ q, Enrollment.quote ui = Some q
                   ∧ Enrollment.activePolicyTier ui
                     = Some (InsurancePolicyQuote.tier q)).
  { intros ui. unfold sameTierActive.
    destruct (Enrollment.activePolicyTier ui) as [t|];
      destruct (Enrollment.quote ui) as [q|].
    - rewrite bool_decide_eq_true. split.
      + intros Heq. exists q. rewrite Heq. split; reflexivity.
      + intros (q' & Hq & Hta). injection Hq as <-. injection Hta as ->.
        reflexivity.
    - split; [discriminate | intros (q' & Hq & _); discriminate].
    - split; [discriminate | intros (q' & _ & Hta); discriminate].
    - split; [discriminate | intros (q' & Hq & _); discriminate]. }
  assert (Hscheduled : ∀ ui,
            sameTierScheduled ui = true
            ↔ ∃ q, Enrollment.quote ui = Some q
                   ∧ Enrollment.scheduledPolicyTier ui
                     = Some (InsurancePolicyQuote.tier q)).
  { intros ui. unfold sameTierScheduled.
    destruct (Enrollment.scheduledPolicyTier ui) as [t|];
      destruct (Enrollment.quote ui) as [q|].
    - rewrite bool_decide_eq_true. split.
      + intros Heq. exists q. rewrite Heq. split; reflexivity.
      + intros (q' & Hq & Hta). injection Hq as <-. injection Hta as ->.
        reflexivity.
    - split; [discriminate | intros (q' & Hq & _); discriminate].
    - split; [discriminate | intros (q' & _ & Hta); discriminate].
    - split; [discriminate | intros (q' & Hq & _); discriminate]. }
  split.
  { destruct (find_policy active rid (Ledger.policies st)) as [a|] eqn:Ha.
    - destruct (decide (InsurancePolicyRecord.tier a = tier)) as [Hta|Hta].
      + exists (unchanged a st).
        split; [apply activate_same_active; assumption|].
        apply find_policy_Some in Ha as (Hin & _).
        split; [exact Hin|]. split; [exact Hta|].
        split; [intros Heq; inversion Heq; reflexivity|].
        split; reflexivity.
      + destruct Hfind as [Hp|Hs]; [inversion Hp; subst a; contradiction|].
        exists (unchanged p st).
        split.
        { apply activate_same_scheduled; try assumption.
          intros a' Ha'. fold rid in Ha'. rewrite Ha in Ha'.
          inversion Ha'; subst a'. exact Hta. }
        apply find_policy_Some in Hs as (Hin & _).
        split; [exact Hin|]. split; [exact Ht|].
        split; [intros Heq; inversion Heq; subst a; contradiction|].
        split; reflexivity.
    - destruct Hfind as [Hp|Hs]; [discriminate|].
      exists (unchanged p st).
      split.
      { apply activate_same_scheduled; try assumption.
        intros a' Ha'. fold rid in Ha'. rewrite Ha in Ha'. discriminate. }
      apply find_policy_Some in Hs as (Hin & _).
      split; [exact Hin|]. split; [exact Ht|].
      split; [discriminate|]. split; reflexivity. }
  split.
  { intros ui response Hsel. simpl. unfold previewEffect.
    apply String.eqb_neq in Hsel. rewrite Hsel. repeat split. }
  split; [intros ui; split; [apply Hactive | apply Hscheduled]|].
  split.
  { intros ui q Hq [Hta|Hts]; unfold disableActivate.
    - rewrite (proj2 (Hactive ui)) by (exists q; split; assumption).
      rewrite ?orb_true_r. reflexivity.
    - rewrite (proj2 (Hscheduled ui)) by (exists q; split; assumption).
      rewrite ?orb_true_r. reflexivity. }
  split.
  { intros toLocale ui q Hq Hel Hta. unfold infoMessage.
    rewrite (proj2 (Hactive ui)) by (exists q; split; assumption).
    rewrite Hq, Hel. reflexivity. }
  intros toLocale ui q Hq Hel Hna Hts. unfold infoMessage.
  rewrite (proj2 (Hscheduled ui)) by (exists q; split; assumption).
  assert (Hno : sameTierActive ui = false).
  { apply not_true_is_false. intros Hyes.
    apply Hactive in Hyes as (q' & Hq' & Hta). rewrite Hq in Hq'.
    injection Hq' as <-. contradiction. }
  rewrite Hq, Hel, Hno. reflexivity.
Qed.

(** Scenario E: activating basic again on the ledger of Scenario C, and plus
    again once plus is scheduled, returns the ledger as it is; the page
    showing a preview for the active tier reports it as already active, and
    one for the scheduled tier as already scheduled, with Activate disabled
    both times. *)
Lemma same_tier_is_noop_witness :
  (∃ answer,
     activate false Sample.midFebruary Sample.settings "u-1"
       (Sample.request "r-1" approved) basic Sample.withBasic
     = inr (answer, Sample.withBasic)
     ∧ InsurancePolicyRecord.id
         (InsurancePolicyActivationResponse.policy answer) = "pol-1"
     ∧ Discount.points_spent
         (InsurancePolicyActivationResponse.discount answer) = 0%Z)
  ∧ (∃ answer,
       activate false Sample.lateFebruary Sample.settings "u-1"
         (Sample.request "r-1" approved) plus Sample.withPlusScheduled
       = inr (answer, Sample.withPlusScheduled)
       ∧ InsurancePolicyRecord.tier
           (InsurancePolicyActivationResponse.policy answer) = plus)
  ∧ (let ui :=
       previewEffect
         (inr (Sample.preview basic true approved (Some basic) immediate
                 None None))
         (Sample.page Sample.payer "r-1" basic) in
     disableActivate ui = true
     ∧ infoMessage Sample.isoLocale ui
       = Some "This tier is already active for the selected request.")
  ∧ (let ui :=
       previewEffect
         (inr (Sample.preview plus true approved (Some basic) mode_scheduled
                 (Some "2025-03-01T00:00:00Z") (Some plus)))
         (Sample.page Sample.payer "r-1" plus) in
     sameTierScheduled ui = true
     ∧ disableActivate ui = true
     ∧ infoMessage Sample.isoLocale ui
       = Some "This tier is already scheduled to begin on 2025-03-01T00:00:00Z. No further action required.").
Proof.
  edestruct (same_tier_is_noop false Sample.midFebruary Sample.settings
               "u-1" (Sample.request "r-1" approved) basic Sample.withBasic)
    as ((answer & Hrun & _ & _ & Hsame & Hspent & _)
        & _ & Hflags & Hdis & Hact & Hsch);
    [reflexivity | | left; cbv; reflexivity |].
  { reflexivity. }
  split.
  { exists answer. split; [exact Hrun|].
    split; [rewrite (Hsame eq_refl); reflexivity | exact Hspent]. }
  split.
  { edestruct (same_tier_is_noop false Sample.lateFebruary Sample.settings
                 "u-1" (Sample.request "r-1" approved) plus
                 Sample.withPlusScheduled)
      as [(answer' & Hrun' & _ & Htier & _) _];
      [reflexivity | | right; cbv; reflexivity |].
    { reflexivity. }
    exists answer'. split; [exact Hrun' | exact Htier]. }
  split.
  { simpl. split.
    - eapply Hdis; [reflexivity | left; reflexivity].
    - eapply Hact; reflexivity. }
  simpl. split.
  { apply Hflags. eexists. split; reflexivity. }
  split.
  - eapply Hdis; [reflexivity | right; reflexivity].
  - rewrite (Hsch Sample.isoLocale _ (Sample.quoted plus));
      [reflexivity | reflexivity | reflexivity | discriminate | reflexivity].
Defined.

End ActivationFacts.

(** ** Part XIV. The admin pricing form: theorems *)

Section PricingFacts.

Local Open Scope Q_scope.

(** The floor of a rational between two consecutive integers. *)
Lemma Qfloor_between (x : Q) (z : Z) :
  inject_Z z <= x → x < inject_Z (z + 1) → Qfloor x = z.
Proof.
  intros Hle Hlt.
  pose proof (Qfloor_le x) as Hfl. pose proof (Qlt_floor x) as Hfu.
  assert (H1 : (z < Qfloor x + 1)%Z).
  { rewrite Zlt_Qlt. eapply Qle_lt_trans; eassumption. }
  assert (H2 : (Qfloor x < z + 1)%Z).
  { rewrite Zlt_Qlt. eapply Qle_lt_trans; eassumption. }
  lia.
Qed.

(** [Math.round] of an integer-valued number is that integer. *)
Lemma round_of_integer (x : Q) (z : Z) :
  x == inject_Z z → Qfloor (x + (1 # 2)) = z.
Proof.
  intros Hx. apply Qfloor_between; rewrite Hx.
  - rewrite <- (Qplus_0_r (inject_Z z)) at 1. apply Qplus_le_r. discriminate.
  - rewrite inject_Z_plus. apply Qplus_lt_r. reflexivity.
Qed.

(** The coercion applied to every edit, on a finite number. *)
Lemma coerce_finite (q : Q) :
  ∃ k : Z, (1 ≤ k)%Z
           ∧ Math_max (Finite 1) (Math_round (Finite q)) = Finite (inject_Z k).
Proof.
  unfold Math_round, Math_max.
  destruct (Qlt_le_dec 1 (inject_Z (Qfloor (q + (1 # 2))))) as [Hlt|Hle].
  - exists (Qfloor (q + (1 # 2))).
    change 1 with (inject_Z 1) in Hlt. rewrite <- Zlt_Qlt in Hlt.
    split; [lia | reflexivity].
  - exists 1%Z. split; [lia | reflexivity].
Qed.

(** It lets [NaN] through: the fields must not hand it a [NaN]. *)
Lemma coerce_NaN : Math_max (Finite 1) (Math_round NaN) = NaN.
Proof. reflexivity. Qed.

(** *** Rounding to a double is monotone *)

Lemma round_half_even_bounds (x : Q) :
  (Qfloor x ≤ round_half_even x ≤ Qfloor x + 1)%Z.
Proof.
  unfold round_half_even.
  destruct (Qcompare (x - inject_Z (Qfloor x)) (1 # 2));
    [destruct (Z.even (Qfloor x))| |]; lia.
Qed.

Lemma round_half_even_ge (x : Q) (k : Z) :
  inject_Z k <= x → (k ≤ round_half_even x)%Z.
Proof.
  intros H. apply Qfloor_resp_le in H. rewrite Qfloor_Z in H.
  pose proof (round_half_even_bounds x). lia.
Qed.

Lemma round_half_even_le (x : Q) (k : Z) :
  x <= inject_Z k → (round_half_even x ≤ k)%Z.
Proof.
  intros H. pose proof (Qfloor_resp_le _ _ H) as Hf. rewrite Qfloor_Z in Hf.
  pose proof (round_half_even_bounds x) as Hb.
  destruct (Z.eq_dec (Qfloor x) k) as [Heq|Hne]; [|lia].
  unfold round_half_even.
  assert (Hlt : x - inject_Z (Qfloor x) < 1 # 2) by (rewrite Heq; lra).
  destruct (Qcompare (x - inject_Z (Qfloor x)) (1 # 2)) eqn:Hc; [| lia |].
  - apply Qeq_alt in Hc. lra.
  - apply Qgt_alt in Hc. lra.
Qed.

Lemma round_half_even_mono (x y : Q) :
  x <= y → (round_half_even x ≤ round_half_even y)%Z.
Proof.
  intros H. pose proof (Qfloor_resp_le _ _ H) as Hf.
  pose proof (round_half_even_bounds x) as Hx.
  pose proof (round_half_even_bounds y) as Hy.
  destruct (Z.eq_dec (Qfloor x) (Qfloor y)) as [Heq|Hne]; [|lia].
  unfold round_half_even. rewrite <- Heq.
  destruct (Qcompare (x - inject_Z (Qfloor x)) (1 # 2)) eqn:Hcx;
    destruct (Qcompare (y - inject_Z (Qfloor x)) (1 # 2)) eqn:Hcy;
    try (destruct (Z.even (Qfloor x))); try lia; exfalso;
    first [apply Qeq_alt in Hcx | apply Qlt_alt in Hcx | apply Qgt_alt in Hcx];
    first [apply Qeq_alt in Hcy | apply Qlt_alt in Hcy | apply Qgt_alt in Hcy];
    lra.
Qed.

Lemma spacing_pos (a : Q) : (0 < spacing a)%Z.
Proof. unfold spacing. apply Z.pow_pos_nonneg; lia. Qed.

(** Counted in its spacing, a magnitude is at most [2^53]. *)
Lemma below_spacing (a : Q) : a <= inject_Z (2 ^ 53 * spacing a).
Proof.
  unfold spacing. set (f := Qfloor a).
  assert (Hf : (f < 2 ^ (Z.max 0 (Z.log2 f - 52) + 53))%Z).
  { destruct (Z.le_gt_cases f 0) as [Hle|Hgt].
    - assert (0 < 2 ^ (Z.max 0 (Z.log2 f - 52) + 53))%Z
        by (apply Z.pow_pos_nonneg; lia). lia.
    - pose proof (Z.log2_spec f Hgt) as [_ Hup].
      eapply Z.lt_le_trans; [exact Hup|].
      apply Z.pow_le_mono_r; lia. }
  rewrite <- Z.pow_add_r by lia. rewrite Z.add_comm.
  pose proof (Qlt_floor a) as Hlt. fold f in Hlt.
  apply Qlt_le_weak. eapply Qlt_le_trans; [exact Hlt|].
  rewrite <- Zle_Qle. lia.
Qed.

(** Where the spacing is more than one unit, it is at least [2^52]. *)
Lemma above_spacing (a : Q) :
  (1 < spacing a)%Z → inject_Z (2 ^ 52 * spacing a) <= a.
Proof.
  unfold spacing. set (f := Qfloor a). intros Hs.
  assert (He : (0 < Z.log2 f - 52)%Z).
  { destruct (Z.le_gt_cases (Z.log2 f - 52) 0) as [Hle|Hgt]; [|exact Hgt].
    rewrite Z.max_l in Hs by lia. simpl in Hs. lia. }
  rewrite Z.max_r by lia.
  assert (Hf : (0 < f)%Z).
  { destruct (Z.le_gt_cases f 0) as [Hle|Hgt]; [|exact Hgt].
    rewrite (Z.log2_nonpos f Hle) in He. lia. }
  pose proof (Z.log2_spec f Hf) as [Hlow _].
  rewrite <- Z.pow_add_r by lia.
  replace (52 + (Z.log2 f - 52))%Z with (Z.log2 f) by lia.
  eapply Qle_trans; [|apply Qfloor_le]. fold f. rewrite <- Zle_Qle. exact Hlow.
Qed.

Lemma spacing_mono (a b : Q) : a <= b → (spacing a ≤ spacing b)%Z.
Proof.
  intros H. unfold spacing. apply Z.pow_le_mono_r; [lia|].
  apply Z.max_le_compat_l, Z.sub_le_mono_r, Z.log2_le_mono.
  apply Qfloor_resp_le, H.
Qed.

Lemma spacing_power (a : Q) : ∃ e, (0 ≤ e)%Z ∧ spacing a = (2 ^ e)%Z.
Proof. eexists. split; [|reflexivity]. lia. Qed.

Lemma nearest_mono (a b : Q) : a <= b → (nearest a ≤ nearest b)%Z.
Proof.
  intros H. unfold nearest.
  pose proof (spacing_pos a) as Hpa. pose proof (spacing_pos b) as Hpb.
  destruct (Z.eq_dec (spacing a) (spacing b)) as [Heq|Hne].
  - rewrite <- Heq. apply Z.mul_le_mono_nonneg_r; [lia|].
    apply round_half_even_mono.
    apply Qmult_le_compat_r; [exact H|].
    apply Qinv_le_0_compat. rewrite <- (Zle_Qle 0). lia.
  - pose proof (spacing_mono a b H) as Hle.
    assert (Hlt : (spacing a < spacing b)%Z) by lia.
    assert (Hupper : (round_half_even (a / inject_Z (spacing a)) ≤ 2 ^ 53)%Z).
    { apply round_half_even_le. apply Qle_shift_div_r.
      - rewrite <- (Zlt_Qlt 0). exact Hpa.
      - rewrite <- inject_Z_mult. apply below_spacing. }
    assert (Hlower : (2 ^ 52 ≤ round_half_even (b / inject_Z (spacing b)))%Z).
    { apply round_half_even_ge. apply Qle_shift_div_l.
      - rewrite <- (Zlt_Qlt 0). exact Hpb.
      - rewrite <- inject_Z_mult. apply above_spacing. lia. }
    destruct (spacing_power a) as (ea & Hea & Ha).
    destruct (spacing_power b) as (eb & Heb & Hb).
    rewrite Ha, Hb in *.
    assert (Hexp : (ea < eb)%Z) by (apply (Z.pow_lt_mono_r_iff 2); lia).
    assert (Hdouble : (2 * 2 ^ ea ≤ 2 ^ eb)%Z).
    { rewrite <- Z.pow_succ_r by lia. apply Z.pow_le_mono_r; lia. }
    assert (H53 : (2 ^ 53 = 2 * 2 ^ 52)%Z) by reflexivity.
    set (ra := round_half_even (a / inject_Z (2 ^ ea))) in *.
    set (rb := round_half_even (b / inject_Z (2 ^ eb))) in *.
    set (pa := (2 ^ ea)%Z) in *. set (pb := (2 ^ eb)%Z) in *.
    set (p52 := (2 ^ 52)%Z) in *. rewrite H53 in Hupper.
    assert (0 < p52)%Z by (subst p52; apply Z.pow_pos_nonneg; lia).
    nia.
Qed.

Lemma UNITS_pos : (0 < UNITS)%Z.
Proof. reflexivity. Qed.

Lemma units_le (n1 n2 : Z) :
  (n1 ≤ n2)%Z → Qred (n1 # Z.to_pos UNITS) <= Qred (n2 # Z.to_pos UNITS).
Proof.
  intros H. rewrite !Qred_correct. unfold Qle. simpl.
  apply Z.mul_le_mono_nonneg_r; [lia | exact H].
Qed.


(** On the non-negative numbers rounding is monotone. *)
Lemma toDouble_mono (q1 q2 : Q) :
  0 <= q1 → q1 <= q2 → js_le (toDouble q1) (toDouble q2).
Proof.
  intros H0 H. unfold toDouble.
  assert (H2 : 0 <= q2) by (eapply Qle_trans; eassumption).
  destruct (Qlt_le_dec q1 0) as [Hneg|_];
    [exfalso; exact (Qlt_not_le _ _ Hneg H0)|].
  destruct (Qlt_le_dec q2 0) as [Hneg|_];
    [exfalso; exact (Qlt_not_le _ _ Hneg H2)|].
  assert (Hn : (nearest (Qabs q1 * inject_Z UNITS)
                ≤ nearest (Qabs q2 * inject_Z UNITS))%Z).
  { apply nearest_mono. rewrite !Qabs_pos by assumption.
    apply Qmult_le_compat_r; [exact H|]. rewrite <- (Zle_Qle 0).
    pose proof UNITS_pos. lia. }
  destruct (LIMIT <=? nearest (Qabs q2 * inject_Z UNITS))%Z eqn:H2lim.
  - destruct (LIMIT <=? nearest (Qabs q1 * inject_Z UNITS))%Z; exact I.
  - apply Z.leb_gt in H2lim.
    destruct (LIMIT <=? nearest (Qabs q1 * inject_Z UNITS))%Z eqn:H1lim;
      [apply Z.leb_le in H1lim; lia|].
    simpl. apply units_le, Hn.
Qed.

Lemma toDouble_zero : toDouble 0 = Finite 0.
Proof. vm_compute. reflexivity. Qed.

(** What rounds to a finite double bounds what lies below it. *)
Lemma toDouble_below (q bound B : Q) :
  0 <= q → q <= bound → toDouble bound = Finite B →
  ∃ x, toDouble q = Finite x ∧ 0 <= x ∧ x <= B.
Proof.
  intros H0 Hle HB.
  pose proof (toDouble_mono q bound H0 Hle) as Hup.
  pose proof (toDouble_mono 0 q (Qle_refl 0) H0) as Hlow.
  rewrite HB in Hup. rewrite toDouble_zero in Hlow.
  destruct (toDouble q) as [x| | |]; try contradiction.
  exists x. split; [reflexivity|]. split; assumption.
Qed.

Lemma toDouble_above (low L q x : Q) :
  0 <= low → low <= q → toDouble low = Finite L → toDouble q = Finite x →
  L <= x.
Proof.
  intros H0 Hle HL Hx. pose proof (toDouble_mono low q H0 Hle) as H.
  rewrite HL, Hx in H. exact H.
Qed.

(** *** The points field of the later version *)

Lemma toDouble_hundred : toDouble 100 = Finite 100.
Proof. vm_compute. reflexivity. Qed.

Lemma toDouble_MAX_VALUE : toDouble MAX_VALUE = Finite MAX_VALUE.
Proof. vm_compute. reflexivity. Qed.

Lemma toDouble_1e21 : toDouble (inject_Z (10 ^ 21)) = Finite (inject_Z (10 ^ 21)).
Proof. vm_compute. reflexivity. Qed.

(** The largest double, taken through the arithmetic of a commit with
    minimum and step 100, stays finite at every operation. *)
Lemma points_ceiling :
  ∃ y m v,
    toDouble (MAX_VALUE / 100) = Finite y
    ∧ toDouble (inject_Z (Qfloor (y + (1 # 2))) * 100) = Finite m
    ∧ toDouble (100 + m) = Finite v.
Proof.
  eexists _, _, _.
  split; [vm_compute; reflexivity|].
  split; [vm_compute; reflexivity|].
  vm_compute. reflexivity.
Qed.

(** [x.toFixed(6)] stays between the whole numbers around [x]. *)
Lemma toFixed6_between (x : Q) (lo hi : Z) :
  0 <= x → inject_Z lo <= x → x <= inject_Z hi →
  inject_Z lo <= toFixed6 x ∧ toFixed6 x <= inject_Z hi.
Proof.
  intros H0 Hlo Hhi. unfold toFixed6.
  destruct (Qlt_le_dec x 0) as [Hneg|_];
    [exfalso; exact (Qlt_not_le _ _ Hneg H0)|].
  rewrite Qabs_pos by exact H0.
  set (n := Qfloor (x * 1000000 + (1 # 2))).
  assert (Hn1 : (lo * 1000000 ≤ n)%Z).
  { subst n. rewrite <- (Qfloor_Z (lo * 1000000)). apply Qfloor_resp_le.
    rewrite inject_Z_mult. change (inject_Z 1000000) with 1000000. lra. }
  assert (Hn2 : (n ≤ hi * 1000000)%Z).
  { subst n.
    rewrite <- (round_of_integer (inject_Z (hi * 1000000)) (hi * 1000000))
      by reflexivity.
    apply Qfloor_resp_le. rewrite inject_Z_mult.
    change (inject_Z 1000000) with 1000000. lra. }
  unfold Qle. simpl. lia.
Qed.

Lemma js_sub_finite (a b : Q) :
  js_sub (Finite a) (Finite b) = toDouble (a + - b).
Proof. reflexivity. Qed.

Lemma js_div_finite (a b : Q) :
  ¬ b == 0 → js_div (Finite a) (Finite b) = toDouble (a / b).
Proof.
  intros Hb. unfold js_div.
  destruct (Qeq_bool b 0) eqn:Hz; [|reflexivity].
  apply Qeq_bool_iff in Hz. contradiction.
Qed.

(** What the later version's points field hands to its [onChange], the host
    parsing texts to doubles: a finite number that is at least the
    minimum. *)
Lemma commitValue_points toNumber trim value raw v :
  (∀ text q, toNumber text = Finite q → Qabs q <= MAX_VALUE) →
  commitValue toNumber trim (Some pointsField_min) pointsField_step value raw
  = Some v →
  ∃ q : Q, v = Finite q ∧ 100 <= q.
Proof.
  intros Hhost. unfold commitValue, pointsField_min, pointsField_step.
  destruct (String.eqb (trim raw) "").
  { simpl. intros Hv. inversion Hv; subst v.
    exists 100. split; [reflexivity | apply Qle_refl]. }
  destruct (toNumber (trim raw)) as [parsed| | |] eqn:Hparsed; try discriminate.
  apply Hhost in Hparsed.
  assert (Hp : parsed <= MAX_VALUE)
    by (eapply Qle_trans; [apply Qle_Qabs | exact Hparsed]).
  destruct (Qlt_le_dec 0 100) as [_|Hbad];
    [|exfalso; exact (Qlt_not_le 0 100 eq_refl Hbad)].
  simpl default.
  set (clamped := if Qlt_le_dec parsed 100 then 100 else parsed).
  assert (Hmax : 100 <= MAX_VALUE) by (apply Qle_bool_iff; vm_compute; reflexivity).
  assert (Hcl : 100 <= clamped ∧ clamped <= MAX_VALUE).
  { subst clamped. destruct (Qlt_le_dec parsed 100); split;
      first [apply Qle_refl | assumption]. }
  destruct Hcl as [Hcl1 Hcl2].
  destruct points_ceiling as (y & m & top & Hy & Hm & Htop).
  rewrite js_sub_finite.
  destruct (toDouble_below (clamped + - (100)) MAX_VALUE MAX_VALUE)
    as (d & -> & Hd0 & Hd); [lra | lra | exact toDouble_MAX_VALUE|].
  rewrite js_div_finite by discriminate.
  destruct (toDouble_below (d / 100) (MAX_VALUE / 100) y)
    as (e & -> & He0 & He); [| |exact Hy|].
  { apply Qle_shift_div_l; [reflexivity | lra]. }
  { apply Qmult_le_compat_r; [exact Hd | discriminate]. }
  unfold Math_round.
  set (k := Qfloor (e + (1 # 2))).
  assert (Hk0 : (0 ≤ k)%Z).
  { subst k. rewrite <- (Qfloor_Z 0). apply Qfloor_resp_le.
    change (inject_Z 0) with 0. lra. }
  assert (Hk : (k ≤ Qfloor (y + (1 # 2)))%Z).
  { subst k. apply Qfloor_resp_le. lra. }
  change (js_mul (Finite (inject_Z k)) (Finite 100))
    with (toDouble (inject_Z k * 100)).
  destruct (toDouble_below (inject_Z k * 100)
              (inject_Z (Qfloor (y + (1 # 2))) * 100) m)
    as (p & -> & Hp0 & Hpm); [| |exact Hm|].
  { apply Qmult_le_0_compat; [|discriminate].
    rewrite <- (Zle_Qle 0). exact Hk0. }
  { apply Qmult_le_compat_r; [|discriminate]. rewrite <- Zle_Qle. exact Hk. }
  change (js_add (Finite 100) (Finite p)) with (toDouble (100 + p)).
  destruct (toDouble_below (100 + p) (100 + m) top)
    as (w & Hw & Hw0 & Hwtop); [lra | lra | exact Htop|].
  pose proof (toDouble_above 100 100 (100 + p) w) as Hw100.
  rewrite Hw. unfold roundFixed6.
  assert (H100 : 100 <= w).
  { apply Hw100; [discriminate | lra | exact toDouble_hundred | exact Hw]. }
  destruct (Qle_bool (inject_Z (10 ^ 21)) (Qabs w)) eqn:Hbig.
  - destruct (strict_ne (Finite w) value); [|discriminate].
    intros Hv. injection Hv as <-. exists w. split; [reflexivity | exact H100].
  - assert (Hsmall : w <= inject_Z (10 ^ 21)).
    { destruct (Qlt_le_dec (inject_Z (10 ^ 21)) w) as [Hgt|Hle]; [|exact Hle].
      exfalso. rewrite Qabs_pos in Hbig by exact Hw0.
      apply Qlt_le_weak, Qle_bool_iff in Hgt. rewrite Hgt in Hbig.
      discriminate. }
    destruct (toFixed6_between w 100 (10 ^ 21)) as [Hf1 Hf2];
      [exact Hw0 | exact H100 | exact Hsmall|].
    destruct (toDouble_below (toFixed6 w) (inject_Z (10 ^ 21))
                (inject_Z (10 ^ 21)))
      as (r & Hr & Hr0 & Hrtop);
      [eapply Qle_trans; [|exact Hf1]; discriminate | exact Hf2
      | exact toDouble_1e21|].
    rewrite Hr.
    destruct (strict_ne (Finite r) value); [|discriminate].
    intros Hv. injection Hv as <-. exists r. split; [reflexivity|].
    apply (toDouble_above 100 100 (toFixed6 w) r);
      [discriminate | exact Hf1 | exact toDouble_hundred | exact Hr].
Qed.

(** The coercion on a number that is at least 100. *)
Lemma coerce_hundred (q : Q) :
  100 <= q →
  ∃ k : Z, (100 ≤ k)%Z
           ∧ Math_max (Finite 1) (Math_round (Finite q)) = Finite (inject_Z k).
Proof.
  intros Hq. unfold Math_round, Math_max.
  assert (Hk : (100 ≤ Qfloor (q + (1 # 2)))%Z).
  { rewrite <- (Qfloor_Z 100). apply Qfloor_resp_le.
    change (inject_Z 100) with 100. lra. }
  exists (Qfloor (q + (1 # 2))). split; [exact Hk|].
  destruct (Qlt_le_dec 1 (inject_Z (Qfloor (q + (1 # 2))))) as [_|Hle];
    [reflexivity|].
  change 1 with (inject_Z 1) in Hle. rewrite <- Zle_Qle in Hle. lia.
Qed.

(** C10. Every edit of [points_per_discount_unit] goes through
    [Math.max(1, Math.round(value))], which turns any finite number into an
    integer of at least 1.  In [AdminPricing.tsx] the number input hands the
    field a finite number, so the draft then holds a positive integer.  In
    the later version, the host parsing texts to doubles, a commit either
    leaves the draft as it is or stores an integer that is at least the
    field's minimum of 100: the arithmetic of the commit, done in doubles,
    never overflows there.  Hence no edit stores zero, a negative number or
    a fraction. *)
Theorem points_per_unit_positive_integer :
  (∀ value draft,
     ∃ draft',
       onPointsPerUnitChange value (Some draft) = Some draft'
       ∧ ppu draft' = Math_max (Finite 1) (Math_round value))
  ∧ (∀ q, positive_integer (Math_max (Finite 1) (Math_round (Finite q))))
  ∧ (∀ toNumber text draft q,
       numberInputChange toNumber text = Finite q →
       ∃ draft',
         onPointsPerUnitChange (numberInputChange toNumber text) (Some draft)
         = Some draft'
         ∧ positive_integer (ppu draft'))
  ∧ (∀ toNumber trim raw draft,
       (∀ text q, toNumber text = Finite q → Qabs q <= MAX_VALUE) →
       ∃ draft',
         commitPointsPerUnit toNumber trim raw (Some draft) = Some draft'
         ∧ (draft' = draft
            ∨ ∃ k : Z, (100 ≤ k)%Z ∧ ppu draft' = Finite (inject_Z k)))
  ∧ (∀ toNumber trim raw draft,
       (∀ text q, toNumber text = Finite q → Qabs q <= MAX_VALUE) →
       positive_integer (ppu draft) →
       ∃ draft',
         commitPointsPerUnit toNumber trim raw (Some draft) = Some draft'
         ∧ positive_integer (ppu draft')).
Proof.
  assert (Hcoerce : ∀ q, positive_integer
                           (Math_max (Finite 1) (Math_round (Finite q)))).
  { intros q. destruct (coerce_finite q) as (k & Hk & Heq).
    exists k. split; assumption. }
  assert (Hcommit : ∀ toNumber trim raw draft,
            (∀ text q, toNumber text = Finite q → Qabs q <= MAX_VALUE) →
            ∃ draft',
              commitPointsPerUnit toNumber trim raw (Some draft) = Some draft'
              ∧ (draft' = draft
                 ∨ ∃ k : Z, (100 ≤ k)%Z ∧ ppu draft' = Finite (inject_Z k))).
  { intros toNumber trim raw draft Hhost. unfold commitPointsPerUnit.
    destruct (commitValue toNumber trim (Some pointsField_min) pointsField_step
                (DraftPoints.points_per_discount_unit
                   (Draft.points_discount draft)) raw) as [v|] eqn:Hc.
    - apply (commitValue_points _ _ _ _ _ Hhost) in Hc as (q & -> & Hq).
      eexists. split; [reflexivity|]. right.
      destruct (coerce_hundred q Hq) as (k & Hk & Heq).
      exists k. split; [exact Hk|]. exact Heq.
    - exists draft. split; [reflexivity | left; reflexivity]. }
  split.
  { intros value draft. eexists. split; reflexivity. }
  split; [exact Hcoerce|].
  split.
  { intros toNumber text draft q Hq. rewrite Hq.
    eexists. split; [reflexivity|]. apply Hcoerce. }
  split; [exact Hcommit|].
  intros toNumber trim raw draft Hhost Hpos.
  destruct (Hcommit toNumber trim raw draft Hhost)
    as (d' & Hd' & [->|(k & Hk & Hv)]).
  - exists draft. split; assumption.
  - exists d'. split; [exact Hd'|]. exists k. split; [lia | exact Hv].
Qed.

(** The sample hosts parse to doubles. *)
Lemma hostNumber_double text q :
  Sample.hostNumber text = Finite q → Qabs q <= MAX_VALUE.
Proof.
  unfold Sample.hostNumber.
  repeat (destruct (String.eqb text _);
          [intros H; injection H as <-; apply Qle_bool_iff; vm_compute;
           reflexivity|]).
  discriminate.
Qed.

Lemma hostBigNumber_double text q :
  Sample.hostBigNumber text = Finite q → Qabs q <= MAX_VALUE.
Proof.
  unfold Sample.hostBigNumber.
  destruct (String.eqb text Sample.nines).
  { intros H. vm_compute in H. injection H as <-.
    apply Qle_bool_iff. vm_compute. reflexivity. }
  destruct (String.eqb text Sample.tenTo308).
  { intros H. vm_compute in H. injection H as <-.
    apply Qle_bool_iff. vm_compute. reflexivity. }
  apply hostNumber_double.
Qed.

(** Typing 3.5 or 0 into the number input stores 4 or 1; committing 250 or
    42 in the later version stores 300 or 100, and committing 23 nines
    stores the double nearest to them, 99999999999999991611392. *)
Lemma points_per_unit_positive_integer_witness :
  (∃ draft',
     onPointsPerUnitChange (numberInputChange Sample.hostNumber "3.5")
       (Some Sample.draft) = Some draft'
     ∧ ppu draft' = Finite 4 ∧ positive_integer (ppu draft'))
  ∧ (∃ draft',
       onPointsPerUnitChange (numberInputChange Sample.hostNumber "0")
         (Some Sample.draft) = Some draft'
       ∧ ppu draft' = Finite 1 ∧ positive_integer (ppu draft'))
  ∧ (∃ draft',
       commitPointsPerUnit Sample.hostNumber Sample.hostTrim "250"
         (Some Sample.draft) = Some draft'
       ∧ ppu draft' = Finite 300 ∧ positive_integer (ppu draft'))
  ∧ (∃ draft',
       commitPointsPerUnit Sample.hostNumber Sample.hostTrim "42"
         (Some Sample.draft) = Some draft'
       ∧ positive_integer (ppu draft'))
  ∧ (∃ draft',
       commitPointsPerUnit Sample.hostBigNumber Sample.hostTrim Sample.nines
         (Some Sample.draft) = Some draft'
       ∧ ppu draft' = Finite (inject_Z 99999999999999991611392)
       ∧ positive_integer (ppu draft')).
Proof.
  destruct points_per_unit_positive_integer as (_ & _ & Hnum & _ & Hcommit).
  split.
  { destruct (Hnum Sample.hostNumber "3.5" Sample.draft (7 # 2) eq_refl)
      as (d & Hd & Hp).
    exists d. split; [exact Hd|]. split; [|exact Hp].
    vm_compute in Hd. inversion Hd. reflexivity. }
  split.
  { destruct (Hnum Sample.hostNumber "0" Sample.draft 0 eq_refl)
      as (d & Hd & Hp).
    exists d. split; [exact Hd|]. split; [|exact Hp].
    vm_compute in Hd. inversion Hd. reflexivity. }
  assert (Hstart : positive_integer (ppu Sample.draft)).
  { exists 100%Z. split; [lia | reflexivity]. }
  split.
  { destruct (Hcommit Sample.hostNumber Sample.hostTrim "250" Sample.draft
                hostNumber_double Hstart) as (d & Hd & Hp).
    exists d. split; [exact Hd|]. split; [|exact Hp].
    vm_compute in Hd. inversion Hd. reflexivity. }
  split.
  { destruct (Hcommit Sample.hostNumber Sample.hostTrim "42" Sample.draft
                hostNumber_double Hstart) as (d & Hd & Hp).
    exists d. split; [exact Hd | exact Hp]. }
  destruct (Hcommit Sample.hostBigNumber Sample.hostTrim Sample.nines
              Sample.draft hostBigNumber_double Hstart) as (d & Hd & Hp).
  exists d. split; [exact Hd|]. split; [|exact Hp].
  vm_compute in Hd. inversion Hd. reflexivity.
Defined.

End PricingFacts.

(** ** Part XV. The UserJourney workflow: further properties *)

Section JourneyFacts.

Implicit Types (st : Journey.t) (props : UserJourneyProps.t).

Lemma log_length message (logs : list string) :
  (length logs ≤ 9)%nat → (length (log message logs) ≤ 9)%nat.
Proof.
  intros _. unfold log. simpl. rewrite length_take. lia.
Qed.

Lemma hydrate_statusLog_length props data context st :
  (length (Journey.statusLog st) ≤ 9)%nat →
  (length (Journey.statusLog (hydrateFromOverview props data context st)) ≤ 9)%nat.
Proof.
  intros H. unfold hydrateFromOverview. simpl.
  repeat match goal with
         | |- context [if ?b then _ else _] => destruct b
         end;
    try apply log_length; assumption.
Qed.

(** X1. The status log never holds more than nine entries, whatever the
    workflow has been through. *)
Theorem statusLog_bounded props st :
  journey_reachable props st → (length (Journey.statusLog st) ≤ 9)%nat.
Proof.
  induction 1 as [|user_id email st _ IH|st _ IH|value st _ IH|st _ IH
                 |m st _ IH|fetched context st _ IH|st _ IH|primed st _ IH].
  - simpl. lia.
  - simpl. rewrite length_take. lia.
  - unfold onResendSuccess. destruct (truthy (Journey.userId st)); [|exact IH].
    simpl. rewrite length_take. lia.
  - exact IH.
  - unfold onCooldownTick.
    destruct (Journey.otpCooldown st <=? 0)%Z; exact IH.
  - destruct m; simpl; rewrite ?length_take; lia.
  - unfold refreshOverview.
    destruct (negb (truthy (Journey.userId st))); [exact IH|].
    destruct fetched; [|exact IH]. apply hydrate_statusLog_length, IH.
  - unfold onResumeGreeting.
    destruct (negb (bool_decide (UserJourneyProps.mode props = mode_resume))
              || negb (truthy (UserJourneyProps.userEmail props)));
      [exact IH|].
    simpl. rewrite length_take. lia.
  - exact IH.
Qed.

(** Ten resends in a row: the log is full at nine entries. *)
Lemma statusLog_bounded_witness :
  length (Journey.statusLog
            (Nat.iter 10 onResendSuccess (initialJourney Sample.resumeProps)))
  = 9%nat
  ∧ (length (Journey.statusLog
               (Nat.iter 10 onResendSuccess (initialJourney Sample.resumeProps)))
     ≤ 9)%nat.
Proof.
  split; [reflexivity|].
  apply (statusLog_bounded Sample.resumeProps). simpl.
  do 10 apply jr_resend. apply jr_initial.
Defined.

Lemma call_onStageUpdate_completions props stage status (calls : list PropCall) :
  List.filter is_complete_call (call_onStageUpdate props stage status calls)
  = List.filter is_complete_call calls.
Proof.
  unfold call_onStageUpdate. destruct (UserJourneyProps.onStageUpdate props);
    reflexivity.
Qed.

Lemma hydrate_notified_once props data context st :
  notified_once st →
  notified_once (hydrateFromOverview props data context st).
Proof.
  intros [Hle H0]. unfold notified_once, completions, hydrateFromOverview.
  cbn [Journey.calls Journey.completionNotifiedRef].
  destruct (Journey.completionNotifiedRef st) eqn:Href.
  - rewrite andb_false_r. rewrite call_onStageUpdate_completions.
    split; [exact Hle | discriminate].
  - specialize (H0 eq_refl). unfold completions in H0.
    rewrite andb_true_r.
    destruct (bool_decide (resolveJourneyStep data = complete)
              && FINALIZED_STAGES (UserRecord.current_stage (UserOverview.user data))
              && UserJourneyProps.onComplete props).
    + cbn [List.filter is_complete_call]. rewrite call_onStageUpdate_completions.
      cbn [length]. rewrite H0. split; [lia | discriminate].
    + rewrite call_onStageUpdate_completions. rewrite H0. split; [lia | reflexivity].
Qed.

Lemma notify_stage_notified_once props stage status st :
  notified_once st → notified_once (notify_stage props stage status st).
Proof.
  intros [Hle H0]. unfold notified_once, completions in *.
  cbn [notify_stage Journey.calls Journey.completionNotifiedRef].
  rewrite call_onStageUpdate_completions. split; assumption.
Qed.

Lemma notify_complete_notified_once props st :
  notified_once st → notified_once (notify_complete props st).
Proof.
  intros [Hle H0]. unfold notified_once, completions in *.
  unfold notify_complete.
  cbn [Journey.calls Journey.completionNotifiedRef].
  destruct (Journey.completionNotifiedRef st) eqn:Href.
  - rewrite andb_false_r. split; [exact Hle | discriminate].
  - specialize (H0 eq_refl). rewrite andb_true_r.
    destruct (UserJourneyProps.onComplete props).
    + cbn [List.filter is_complete_call length]. rewrite H0.
      split; [lia | discriminate].
    + rewrite H0. split; [lia | reflexivity].
Qed.

Lemma mutation_notified_once props m st :
  notified_once st → notified_once (onMutationSuccess props m st).
Proof.
  intros H. destruct m; cbn [onMutationSuccess];
    try apply notify_complete_notified_once;
    try exact (notify_stage_notified_once props _ _ _ H);
    exact H.
Qed.

Lemma reachable_notified_once props st :
  journey_reachable props st → notified_once st.
Proof.
  induction 1 as [|user_id email st _ IH|st _ IH|value st _ IH|st _ IH
                 |m st _ IH|fetched context st _ IH|st _ IH|primed st _ IH].
  - unfold notified_once, completions. simpl. split; [lia | reflexivity].
  - exact IH.
  - unfold onResendSuccess. destruct (truthy (Journey.userId st)); exact IH.
  - exact IH.
  - unfold onCooldownTick. destruct (Journey.otpCooldown st <=? 0)%Z; exact IH.
  - apply mutation_notified_once, IH.
  - unfold refreshOverview.
    destruct (negb (truthy (Journey.userId st))); [exact IH|].
    destruct fetched; [|exact IH]. apply hydrate_notified_once, IH.
  - unfold onResumeGreeting.
    destruct (negb (bool_decide (UserJourneyProps.mode props = mode_resume))
              || negb (truthy (UserJourneyProps.userEmail props)));
      exact IH.
  - exact IH.
Qed.

(** X2. Whatever the workflow has been through, [onComplete] was called at
    most once. *)
Theorem onComplete_at_most_once props st :
  journey_reachable props st → (completions st ≤ 1)%nat.
Proof. intros H. apply reachable_notified_once in H as [Hle _]. exact Hle. Qed.

(** Issuing the token and then syncing twice with a finished overview calls
    [onComplete] once. *)
Lemma onComplete_at_most_once_witness :
  let st :=
    refreshOverview Sample.resumeProps (Some Sample.finished) ctx_sync
      (refreshOverview Sample.resumeProps (Some Sample.finished) ctx_sync
         (onMutationSuccess Sample.resumeProps
            (TokenIssued {| TokenIssueResponse.token_id := "mt-1";
                            TokenIssueResponse.status := awaiting_approval |})
            (initialJourney Sample.resumeProps))) in
  completions st = 1%nat ∧ (completions st ≤ 1)%nat.
Proof.
  split; [reflexivity|].
  apply (onComplete_at_most_once Sample.resumeProps).
  do 2 apply jr_refresh. apply jr_mutation. apply jr_initial.
Defined.

(** X3. Syncing again with an unchanged overview changes nothing in the
    workflow and logs nothing: it only repeats the [onStageUpdate] call. *)
Theorem hydrate_again_is_idle props data context st :
  let st1 := hydrateFromOverview props data context st in
  hydrateFromOverview props data ctx_sync st1
  = notify_stage props
      (UserRecord.current_stage (UserOverview.user data))
      (UserRecord.status (UserOverview.user data)) st1.
Proof.
  simpl. unfold hydrateFromOverview, notify_stage.
  cbn [Journey.step Journey.overview Journey.userId Journey.otpInput
       Journey.otpCooldown Journey.requestId Journey.estimatedCost
       Journey.dnaTokenId Journey.issuedToken Journey.statusLog
       Journey.previousStageRef Journey.initialHydrateRef
       Journey.completionNotifiedRef Journey.calls].
  rewrite (bool_decide_eq_false_2 (ctx_sync = ctx_initial)) by discriminate.
  rewrite (bool_decide_eq_true_2
             (UserRecord.current_stage (UserOverview.user data)
              = UserRecord.current_stage (UserOverview.user data)))
    by reflexivity.
  cbn [andb negb].
  destruct (negb (bool_decide (resolveJourneyStep data = verify)));
    destruct (bool_decide (resolveJourneyStep data = complete)
              && FINALIZED_STAGES (UserRecord.current_stage (UserOverview.user data))
              && UserJourneyProps.onComplete props);
    destruct (Journey.completionNotifiedRef st);
    cbn [andb negb]; reflexivity.
Qed.

Lemma truthy_Some_nonempty (text : string) :
  text ≠ "" → truthy (Some text) = true.
Proof.
  intros H. simpl. apply negb_true_iff, String.eqb_neq. exact H.
Qed.

Lemma last_fmap_elem {A B} (f : A → B) (l : list A) :
  l ≠ [] → ∃ x, x ∈ l ∧ f <$> last l = Some (f x).
Proof.
  intros Hne. destruct (last l) as [x|] eqn:Hl.
  - exists x. split; [apply last_Some_elem_of, Hl | reflexivity].
  - apply last_None in Hl. contradiction.
Qed.

(** X4. When hydration resolves to the [token] step, the state it leaves has
    what the token form needs: with non-empty record ids, [canProceed] holds
    whatever the form drafts are. *)
Theorem token_step_can_proceed toNumber trim props data context st forms :
  resolveJourneyStep data = token →
  (∀ r, r ∈ UserOverview.requests data → MiniaturizationRequestRecord.id r ≠ "") →
  (∀ d, d ∈ UserOverview.dna_tokens data → DNATokenRecord.id d ≠ "") →
  canProceed toNumber trim (hydrateFromOverview props data context st) forms
  = true.
Proof.
  intros Hstep Hreq Hdna.
  assert (Hv : UserRecord.status (UserOverview.user data) = verified).
  { destruct (decide (UserRecord.status (UserOverview.user data) = verified))
      as [Hv|Hv]; [exact Hv|].
    rewrite (resolveJourneyStep_unverified data Hv) in Hstep. discriminate. }
  pose proof Hstep as Hshape. rewrite (resolveJourneyStep_verified data Hv) in Hshape.
  assert (Hr : UserOverview.requests data ≠ []).
  { intros E. rewrite E in Hshape.
    destruct (UserRecord.body_profile (UserOverview.user data)); discriminate. }
  assert (Hd : UserOverview.dna_tokens data ≠ []).
  { intros E. rewrite E in Hshape.
    destruct (UserRecord.body_profile (UserOverview.user data));
      destruct (UserOverview.requests data);
      destruct (UserOverview.payments data); discriminate. }
  unfold canProceed.
  change (Journey.step (hydrateFromOverview props data context st))
    with (resolveJourneyStep data).
  rewrite Hstep.
  change (Journey.requestId (hydrateFromOverview props data context st))
    with (MiniaturizationRequestRecord.id <$> last (UserOverview.requests data)).
  change (Journey.dnaTokenId (hydrateFromOverview props data context st))
    with (DNATokenRecord.id <$> last (UserOverview.dna_tokens data)).
  destruct (last_fmap_elem MiniaturizationRequestRecord.id _ Hr)
    as (r & Hrin & ->).
  destruct (last_fmap_elem DNATokenRecord.id _ Hd) as (d & Hdin & ->).
  rewrite (truthy_Some_nonempty _ (Hreq r Hrin)).
  rewrite (truthy_Some_nonempty _ (Hdna d Hdin)). reflexivity.
Qed.

(** Resuming a user whose DNA token is sealed: the token form can be
    submitted at once. *)
Lemma token_step_can_proceed_witness :
  resolveJourneyStep Sample.assessed = token
  ∧ canProceed Sample.hostNumber Sample.hostTrim
      (hydrateFromOverview Sample.resumeProps Sample.assessed ctx_initial
         (initialJourney Sample.resumeProps))
      Sample.forms = true.
Proof.
  split; [reflexivity|].
  apply token_step_can_proceed; [reflexivity| |].
  - intros r Hr. apply list_elem_of_singleton in Hr. subst r. discriminate.
  - intros d Hd. apply list_elem_of_singleton in Hd. subst d. discriminate.
Defined.

Lemma string_take_length n (text : string) :
  String.length (string_take n text) = Nat.min n (String.length text).
Proof.
  revert text. induction n as [|n IH]; intros [|c rest]; simpl; try reflexivity.
  rewrite IH. reflexivity.
Qed.

Lemma string_take_all n (text : string) :
  (String.length text ≤ n)%nat → string_take n text = text.
Proof.
  revert text. induction n as [|n IH]; intros [|c rest]; simpl; intros H;
    try reflexivity; try lia.
  rewrite IH by lia. reflexivity.
Qed.

Lemma strip_non_digits_all_digits (text : string) :
  all_digits (strip_non_digits text) = true.
Proof.
  induction text as [|c rest IH]; [reflexivity|]. simpl.
  destruct (is_digit c) eqn:Hc; [|exact IH]. simpl. rewrite Hc. exact IH.
Qed.

Lemma strip_non_digits_fixed (text : string) :
  all_digits text = true → strip_non_digits text = text.
Proof.
  induction text as [|c rest IH]; [reflexivity|]. simpl.
  intros H. apply andb_true_iff in H as [Hc Hrest].
  rewrite Hc, IH by exact Hrest. reflexivity.
Qed.

Lemma string_take_all_digits n (text : string) :
  all_digits text = true → all_digits (string_take n text) = true.
Proof.
  revert text. induction n as [|n IH]; intros [|c rest]; simpl; try reflexivity.
  intros H. apply andb_true_iff in H as [Hc Hrest].
  rewrite Hc, IH by exact Hrest. reflexivity.
Qed.

(** X5. Whatever is typed, the OTP field holds at most six characters, all
    of them digits; retyping what it holds changes nothing; and at the
    [verify] step the form can be submitted exactly when at least six digits
    were typed. *)
Theorem otp_input_sanitized (value : string) :
  (String.length (sanitizeOtp value) ≤ 6)%nat
  ∧ all_digits (sanitizeOtp value) = true
  ∧ sanitizeOtp (sanitizeOtp value) = sanitizeOtp value
  ∧ (∀ toNumber trim st forms,
       Journey.step st = verify →
       (canProceed toNumber trim (onOtpInput value st) forms = true
        ↔ (6 ≤ String.length (strip_non_digits value))%nat)).
Proof.
  unfold sanitizeOtp.
  assert (Hd : all_digits (string_take 6 (strip_non_digits value)) = true)
    by apply string_take_all_digits, strip_non_digits_all_digits.
  split; [rewrite string_take_length; lia|].
  split; [exact Hd|].
  split.
  { rewrite (strip_non_digits_fixed _ Hd).
    apply string_take_all. rewrite string_take_length. lia. }
  intros toNumber trim st forms Hstep. unfold canProceed.
  change (Journey.step (onOtpInput value st)) with (Journey.step st).
  rewrite Hstep.
  change (Journey.otpInput (onOtpInput value st)) with (sanitizeOtp value).
  unfold sanitizeOtp. rewrite string_take_length, Nat.eqb_eq. lia.
Qed.

(** A pasted code with separators and a seventh digit. *)
Lemma otp_input_sanitized_witness :
  sanitizeOtp "12-34 56 7" = "123456"
  ∧ canProceed Sample.hostNumber Sample.hostTrim
      (onOtpInput "12-34 56 7" (initialJourney Sample.resumeProps))
      Sample.forms = true
  ∧ canProceed Sample.hostNumber Sample.hostTrim
      (onOtpInput "12-34" (initialJourney Sample.resumeProps))
      Sample.forms = false.
Proof.
  split; [reflexivity|].
  destruct (otp_input_sanitized "12-34 56 7") as (_ & _ & _ & Hgo).
  split.
  - apply (Hgo Sample.hostNumber Sample.hostTrim
             (initialJourney Sample.resumeProps) Sample.forms eq_refl).
    simpl. lia.
  - destruct (otp_input_sanitized "12-34") as (_ & _ & _ & Hno).
    apply not_true_is_false. intros Hyes.
    apply (Hno Sample.hostNumber Sample.hostTrim
             (initialJourney Sample.resumeProps) Sample.forms eq_refl) in Hyes.
    simpl in Hyes. lia.
Defined.

Lemma tickCooldown_iter (n : nat) (c : Z) :
  (0 ≤ c)%Z → Nat.iter n tickCooldown c = Z.max 0 (c - Z.of_nat n).
Proof.
  intros Hc. induction n as [|n IH].
  - simpl. lia.
  - rewrite Nat.iter_succ, IH. unfold tickCooldown.
    destruct (Z.max 0 (c - Z.of_nat n) <=? 1)%Z eqn:Hle.
    + apply Z.leb_le in Hle. lia.
    + apply Z.leb_gt in Hle. lia.
Qed.

Lemma onCooldownTick_cooldown st :
  (0 ≤ Journey.otpCooldown st)%Z →
  Journey.otpCooldown (onCooldownTick st)
  = tickCooldown (Journey.otpCooldown st).
Proof.
  intros H. unfold onCooldownTick.
  destruct (Journey.otpCooldown st <=? 0)%Z eqn:Hle; [|reflexivity].
  apply Z.leb_le in Hle. unfold tickCooldown.
  assert (Journey.otpCooldown st = 0%Z) as -> by lia. reflexivity.
Qed.

Lemma onCooldownTick_iter (n : nat) st :
  (0 ≤ Journey.otpCooldown st)%Z →
  Journey.otpCooldown (Nat.iter n onCooldownTick st)
  = Z.max 0 (Journey.otpCooldown st - Z.of_nat n)
  ∧ Journey.userId (Nat.iter n onCooldownTick st) = Journey.userId st.
Proof.
  intros Hc. induction n as [|n [IH IHu]].
  - simpl. split; [lia | reflexivity].
  - rewrite Nat.iter_succ. split.
    + rewrite onCooldownTick_cooldown by lia. rewrite IH.
      unfold tickCooldown.
      destruct (Z.max 0 (Journey.otpCooldown st - Z.of_nat n) <=? 1)%Z eqn:Hle;
        [apply Z.leb_le in Hle | apply Z.leb_gt in Hle]; lia.
    + rewrite <- IHu. generalize (Nat.iter n onCooldownTick st). intros st0.
      unfold onCooldownTick.
      destruct (Journey.otpCooldown st0 <=? 0)%Z; reflexivity.
Qed.

(** X6. The resend cooldown counts down by one per tick to zero and stays
    there, never below; after a successful signup (and likewise after a
    resend) the "Resend OTP" button of an idle form is disabled for exactly
    sixty ticks. *)
Theorem resend_cooldown_counts_down :
  (∀ n st,
     (0 ≤ Journey.otpCooldown st)%Z →
     Journey.otpCooldown (Nat.iter n onCooldownTick st)
     = Z.max 0 (Journey.otpCooldown st - Z.of_nat n))
  ∧ (∀ n user_id email st,
       user_id ≠ "" →
       let st' := Nat.iter n onCooldownTick (onSignupSuccess user_id email st) in
       resendDisabled (Journey.userId st') false (Journey.otpCooldown st') false
       = true ↔ (n < 60)%nat)
  ∧ (∀ n st,
       truthy (Journey.userId st) = true →
       let st' := Nat.iter n onCooldownTick (onResendSuccess st) in
       resendDisabled (Journey.userId st') false (Journey.otpCooldown st') false
       = true ↔ (n < 60)%nat).
Proof.
  split; [intros n st H; apply onCooldownTick_iter, H|].
  split.
  - intros n user_id email st Hid. simpl.
    destruct (onCooldownTick_iter n (onSignupSuccess user_id email st))
      as [Hc Hu]; [simpl; unfold OTP_COOLDOWN_SECONDS; lia|].
    rewrite Hc, Hu. unfold resendDisabled.
    change (Journey.userId (onSignupSuccess user_id email st)) with (Some user_id).
    change (Journey.otpCooldown (onSignupSuccess user_id email st)) with 60%Z.
    rewrite (truthy_Some_nonempty _ Hid). simpl.
    rewrite orb_false_r. rewrite Z.ltb_lt. lia.
  - intros n st Hid. simpl. unfold onResendSuccess. rewrite Hid.
    set (st0 := add_log _ _).
    destruct (onCooldownTick_iter n st0) as [Hc Hu];
      [simpl; unfold OTP_COOLDOWN_SECONDS; lia|].
    rewrite Hc, Hu. unfold resendDisabled.
    change (Journey.userId st0) with (Journey.userId st).
    change (Journey.otpCooldown st0) with 60%Z.
    rewrite Hid. simpl. rewrite orb_false_r. rewrite Z.ltb_lt. lia.
Qed.

(** After signup the button is still disabled at the 59th tick and enabled
    at the 60th. *)
Lemma resend_cooldown_counts_down_witness :
  let after n :=
    Nat.iter n onCooldownTick
      (onSignupSuccess "u-1" "ada@example.org"
         (initialJourney Sample.resumeProps)) in
  resendDisabled (Journey.userId (after 59%nat)) false
    (Journey.otpCooldown (after 59%nat)) false = true
  ∧ resendDisabled (Journey.userId (after 60%nat)) false
      (Journey.otpCooldown (after 60%nat)) false = false.
Proof.
  destruct resend_cooldown_counts_down as (_ & Hsignup & _).
  split.
  - apply (Hsignup 59%nat "u-1" "ada@example.org"
             (initialJourney Sample.resumeProps)); [discriminate | lia].
  - apply not_true_is_false. intros H.
    apply (Hsignup 60%nat "u-1" "ada@example.org"
             (initialJourney Sample.resumeProps)) in H; [lia | discriminate].
Defined.

(** X7. The lifecycle timeline always opens with the signup, shows one more
    event for each kind of record the overview has (at most five in all), in
    the fixed order; an overview that resolves to [complete] shows all
    five. *)
Theorem timeline_events numberText (overview : UserOverview.t) :
  let events := timelineEvents numberText overview in
  let shown {A} (l : list A) := if l is [] then 0%nat else 1%nat in
  TimelineEvent.label <$> head events = Some "Signup"
  ∧ length events
    = (1 + shown (UserOverview.requests overview)
       + shown (UserOverview.payments overview)
       + shown (UserOverview.dna_tokens overview)
       + shown (UserOverview.miniaturization_tokens overview))%nat
  ∧ sublist (TimelineEvent.label <$> events)
      ["Signup"; "Miniaturization Request"; "Payment"; "DNA Token";
       "Miniaturization Token"]
  ∧ (resolveJourneyStep overview = complete → length events = 5%nat).
Proof.
  simpl. unfold timelineEvents.
  split; [reflexivity|].
  split.
  { destruct (UserOverview.requests overview), (UserOverview.payments overview),
      (UserOverview.dna_tokens overview),
      (UserOverview.miniaturization_tokens overview); reflexivity. }
  split.
  { destruct (UserOverview.requests overview), (UserOverview.payments overview),
      (UserOverview.dna_tokens overview),
      (UserOverview.miniaturization_tokens overview); simpl;
      repeat first [apply sublist_nil | apply sublist_skip | apply sublist_cons]. }
  intros Hstep.
  destruct (decide (UserRecord.status (UserOverview.user overview) = verified))
    as [Hv|Hv];
    [|rewrite (resolveJourneyStep_unverified overview Hv) in Hstep; discriminate].
  rewrite (resolveJourneyStep_verified overview Hv) in Hstep.
  destruct (UserRecord.body_profile (UserOverview.user overview));
    destruct (UserOverview.requests overview);
    destruct (UserOverview.payments overview);
    destruct (UserOverview.dna_tokens overview);
    destruct (UserOverview.miniaturization_tokens overview);
    try discriminate; reflexivity.
Qed.

(** A finished user sees five events, a user with a rejected request two. *)
Lemma timeline_events_witness :
  length (timelineEvents (λ _, "0.1") Sample.finished) = 5%nat
  ∧ TimelineEvent.label <$> timelineEvents (λ _, "0.1") Sample.rejectedOnly
    = ["Signup"; "Miniaturization Request"].
Proof.
  split; [|reflexivity].
  apply (timeline_events (λ _, "0.1") Sample.finished). reflexivity.
Defined.

End JourneyFacts.

(** ** Part XVI. The enrollment page: further properties *)

Section EnrollmentFacts.

Implicit Types (ui : Enrollment.t) (ov : option UserOverview.t).

Lemma existsb_request_id (l : list MiniaturizationRequestRecord.t) prev :
  existsb (λ request, String.eqb (MiniaturizationRequestRecord.id request) prev) l
  = true
  ↔ ∃ r, r ∈ l ∧ MiniaturizationRequestRecord.id r = prev.
Proof.
  rewrite existsb_exists. split; intros (r & Hin & Heq); exists r.
  - split; [apply list_elem_of_In, Hin | apply String.eqb_eq, Heq].
  - split; [apply list_elem_of_In, Hin | apply String.eqb_eq, Heq].
Qed.

(** X8. When the overview is reloaded, a selection that is still among the
    eligible requests is kept; an empty or vanished selection moves to the
    first eligible request (or to none when there is none); and running the
    effect again changes nothing. *)
Theorem selection_survives_reload
    (eligible : list MiniaturizationRequestRecord.t) (prev : string) :
  let chosen := syncSelectedRequestId eligible prev in
  (prev ≠ "" →
   (∃ r, r ∈ eligible ∧ MiniaturizationRequestRecord.id r = prev) →
   chosen = prev)
  ∧ (prev = "" ∨ (∀ r, r ∈ eligible → MiniaturizationRequestRecord.id r ≠ prev) →
     chosen = default "" (MiniaturizationRequestRecord.id <$> head eligible))
  ∧ syncSelectedRequestId eligible chosen = chosen.
Proof.
  simpl. unfold syncSelectedRequestId.
  destruct eligible as [|first rest].
  { split; [intros _ (r & Hin & _); inversion Hin|].
    split; reflexivity. }
  set (l := first :: rest).
  destruct (negb (String.eqb prev "")
            && existsb (λ request,
                          String.eqb (MiniaturizationRequestRecord.id request) prev)
                 l) eqn:Hb.
  - split; [reflexivity|]. split; [|rewrite Hb; reflexivity].
    apply andb_true_iff in Hb as [Hne Hex]. intros [Hempty|Hgone].
    + rewrite Hempty in Hne. discriminate.
    + apply existsb_request_id in Hex as (r & Hin & Heq).
      destruct (Hgone r Hin Heq).
  - split.
    + intros Hne Hex. apply existsb_request_id in Hex.
      apply String.eqb_neq in Hne. rewrite Hne, Hex in Hb. discriminate.
    + split; [reflexivity|].
      destruct (negb (String.eqb (MiniaturizationRequestRecord.id first) "")
                && existsb _ l); reflexivity.
Qed.

(** With r-0 awaiting approval and r-1 approved: a selection of r-1 is kept,
    a selection of r-0 moves to r-1. *)
Lemma selection_survives_reload_witness :
  syncSelectedRequestId (eligibleRequests (Some Sample.twoRequests)) "r-1" = "r-1"
  ∧ syncSelectedRequestId (eligibleRequests (Some Sample.twoRequests)) "r-0"
    = "r-1".
Proof.
  destruct (selection_survives_reload
              (eligibleRequests (Some Sample.twoRequests)) "r-1") as (Hkeep & _).
  destruct (selection_survives_reload
              (eligibleRequests (Some Sample.twoRequests)) "r-0") as (_ & Hmove & _).
  split.
  - apply Hkeep; [discriminate|].
    apply existsb_request_id. reflexivity.
  - rewrite Hmove; [reflexivity|].
    right. intros r Hr Hid.
    assert (Hex : existsb
                    (λ request,
                       String.eqb (MiniaturizationRequestRecord.id request) "r-0")
                    (eligibleRequests (Some Sample.twoRequests)) = true)
      by (apply existsb_request_id; exists r; split; assumption).
    discriminate Hex.
Defined.

(** X9. Once a preview has settled, the Activate button is enabled exactly
    when a request is selected, no activation is in flight, and the server
    answered with a quote for an eligible request whose tier is neither the
    active nor the already scheduled one; a failed preview always leaves it
    disabled. *)
Theorem activate_enabled_after_preview outcome ui :
  disableActivate (previewEffect outcome ui) = false
  ↔ Enrollment.selectedRequestId ui ≠ ""
    ∧ Enrollment.activationSaving ui = false
    ∧ ∃ response,
        outcome = inr response
        ∧ InsurancePolicyQuoteResponse.eligible response = true
        ∧ InsurancePolicyQuoteResponse.active_policy_tier response
          ≠ Some (InsurancePolicyQuote.tier
                    (InsurancePolicyQuoteResponse.quote response))
        ∧ InsurancePolicyQuoteResponse.scheduled_policy_tier response
          ≠ Some (InsurancePolicyQuote.tier
                    (InsurancePolicyQuoteResponse.quote response)).
Proof.
  unfold previewEffect.
  destruct (String.eqb_spec (Enrollment.selectedRequestId ui) "") as [Hsel|Hsel].
  { unfold disableActivate. simpl. rewrite Hsel. simpl.
    split; [discriminate | intros [Hne _]; destruct (Hne eq_refl)]. }
  pose proof Hsel as Hselb. apply String.eqb_neq in Hselb.
  destruct outcome as [message|response].
  { unfold disableActivate. simpl. rewrite Hselb. simpl.
    split; [discriminate | intros (_ & _ & response & Hr & _); discriminate]. }
  unfold disableActivate, sameTierActive, sameTierScheduled. simpl.
  rewrite Hselb. simpl.
  set (tier := InsurancePolicyQuote.tier
                 (InsurancePolicyQuoteResponse.quote response)).
  split.
  - intros Hd.
    destruct (InsurancePolicyQuoteResponse.eligible response) eqn:He;
      [|discriminate].
    destruct (Enrollment.activationSaving ui) eqn:Hs; [discriminate|].
    simpl in Hd. apply orb_false_iff in Hd as [Ha Hsch].
    split; [exact Hsel|]. split; [reflexivity|].
    exists response. split; [reflexivity|]. split; [exact He|].
    split.
    + intros Heq. rewrite Heq in Ha. fold tier in Ha.
      rewrite bool_decide_eq_true_2 in Ha by reflexivity. discriminate.
    + intros Heq. rewrite Heq in Hsch. fold tier in Hsch.
      rewrite bool_decide_eq_true_2 in Hsch by reflexivity. discriminate.
  - intros (_ & Hs & response' & Hr & He & Ha & Hsch).
    injection Hr as <-. rewrite He, Hs. simpl.
    apply orb_false_iff. split.
    + destruct (InsurancePolicyQuoteResponse.active_policy_tier response)
        as [t|]; [|reflexivity].
      apply bool_decide_eq_false_2. intros Heq. apply Ha. fold tier.
      rewrite Heq. reflexivity.
    + destruct (InsurancePolicyQuoteResponse.scheduled_policy_tier response)
        as [t|]; [|reflexivity].
      apply bool_decide_eq_false_2. intros Heq. apply Hsch. fold tier.
      rewrite Heq. reflexivity.
Qed.

Lemma replace_underscores_length (text : string) :
  String.length (replace_underscores text) = String.length text.
Proof.
  induction text as [|c rest IH]; [reflexivity|]. simpl. rewrite IH. reflexivity.
Qed.

Lemma replace_underscores_clean (text : string) (n : nat) :
  String.get n (replace_underscores text) ≠ Some "_"%char.
Proof.
  revert n. induction text as [|c rest IH]; intros n; [discriminate|].
  simpl. destruct n as [|n]; [|apply IH].
  destruct (Ascii.eqb_spec c "_"%char) as [Heq|Hne]; [discriminate|].
  intros H. injection H as H. contradiction.
Qed.

(** X10. Rendering a status replaces every underscore by a space and nothing
    else: the length is kept, no underscore is left, every other character
    stays where it was, and a text without underscores (or one already
    rendered) is unchanged. *)
Theorem status_rendering_replaces_underscores (text : string) :
  String.length (replace_underscores text) = String.length text
  ∧ (∀ n, String.get n (replace_underscores text) ≠ Some "_"%char)
  ∧ (∀ n c, String.get n text = Some c → c ≠ "_"%char →
       String.get n (replace_underscores text) = Some c)
  ∧ (∀ n, String.get n text = Some "_"%char →
       String.get n (replace_underscores text) = Some " "%char)
  ∧ replace_underscores (replace_underscores text) = replace_underscores text.
Proof.
  split; [apply replace_underscores_length|].
  split; [apply replace_underscores_clean|].
  split.
  { induction text as [|c rest IH]; intros n c' Hget Hne; [discriminate|].
    simpl in *. destruct n as [|n]; [|apply IH; assumption].
    injection Hget as ->.
    destruct (Ascii.eqb_spec c' "_"%char); [contradiction | reflexivity]. }
  split.
  { induction text as [|c rest IH]; intros n Hget; [discriminate|].
    simpl in *. destruct n as [|n]; [|apply IH; assumption].
    injection Hget as ->. reflexivity. }
  induction text as [|c rest IH]; [reflexivity|]. simpl. rewrite IH.
  destruct (Ascii.eqb_spec c "_"%char) as [Heq|Hne]; [reflexivity|].
  destruct (Ascii.eqb_spec c "_"%char); [contradiction | reflexivity].
Qed.

(** The status of a request awaiting approval, as the page shows it. *)
Lemma status_rendering_replaces_underscores_witness :
  replace_underscores (status_text awaiting_approval) = "awaiting approval"
  ∧ String.get 8 (replace_underscores (status_text awaiting_approval))
    = Some " "%char.
Proof.
  split; [reflexivity|].
  apply (status_rendering_replaces_underscores (status_text awaiting_approval)).
  reflexivity.
Defined.

Lemma last_filter_Some {A} (f : A → bool) (l : list A) (x : A) :
  x ∈ l → f x = true → is_Some (last (List.filter f l)).
Proof.
  intros Hin Hf.
  assert (Hx : In x (List.filter f l))
    by (apply filter_In; split; [apply list_elem_of_In, Hin | exact Hf]).
  destruct (List.filter f l) as [|y l'] eqn:Hl; [destruct Hx|].
  destruct (last (y :: l')) eqn:Hlast; [eexists; reflexivity|].
  apply last_None in Hlast. discriminate.
Qed.

(** X11. The per-request index of active policies binds a request exactly
    when the overview lists an active policy for it, and then to one of
    those; so the tier select follows the selection: it shows the tier of an
    active policy of the selected request, and Basic when there is none or
    nothing is selected. *)
Theorem tier_select_follows_active_policy ov (selected : string) :
  (is_Some (policiesByRequest ov !! selected)
   ↔ ∃ p, p ∈ activePolicies ov
          ∧ InsurancePolicyRecord.request_id p = selected)
  ∧ (∀ p, policiesByRequest ov !! selected = Some p →
       p ∈ activePolicies ov ∧ InsurancePolicyRecord.request_id p = selected)
  ∧ (selected = ""
     ∨ (∀ p, p ∈ activePolicies ov →
          InsurancePolicyRecord.request_id p ≠ selected) →
     syncSelectedTier (policiesByRequest ov) selected = (basic, None))
  ∧ (selected ≠ "" →
     (∃ p, p ∈ activePolicies ov
           ∧ InsurancePolicyRecord.request_id p = selected) →
     ∃ p, p ∈ activePolicies ov
          ∧ InsurancePolicyRecord.request_id p = selected
          ∧ syncSelectedTier (policiesByRequest ov) selected
            = (InsurancePolicyRecord.tier p,
               Some (InsurancePolicyRecord.tier p))).
Proof.
  assert (Hsound : ∀ p, policiesByRequest ov !! selected = Some p →
            p ∈ activePolicies ov
            ∧ InsurancePolicyRecord.request_id p = selected).
  { intros p Hp. apply indexByRequest_sound in Hp as (Hin & Hst & Hid).
    split; [|exact Hid]. unfold activePolicies.
    apply list_elem_of_filter. split; assumption. }
  assert (Hcomplete : (∃ p, p ∈ activePolicies ov
                            ∧ InsurancePolicyRecord.request_id p = selected) →
            is_Some (policiesByRequest ov !! selected)).
  { intros (p & Hin & Hid). unfold activePolicies in Hin.
    apply list_elem_of_filter in Hin as [Hst Hin].
    unfold policiesByRequest. rewrite indexByRequest_lookup.
    apply (last_filter_Some _ _ p Hin). apply concerns_spec. split; assumption. }
  split.
  { split; [|exact Hcomplete].
    intros [p Hp]. exists p. apply Hsound, Hp. }
  split; [exact Hsound|].
  split.
  { intros Hnone. unfold syncSelectedTier.
    destruct (String.eqb_spec selected "") as [|Hne]; [reflexivity|].
    destruct Hnone as [Hempty|Hnone]; [contradiction|].
    destruct (policiesByRequest ov !! selected) as [p|] eqn:Hp; [|reflexivity].
    destruct (Hsound p eq_refl) as [Hin Hid]. destruct (Hnone p Hin Hid). }
  intros Hne Hex. apply Hcomplete in Hex as [p Hp].
  exists p. destruct (Hsound p Hp) as [Hin Hid].
  split; [exact Hin|]. split; [exact Hid|].
  unfold syncSelectedTier. apply String.eqb_neq in Hne. rewrite Hne, Hp.
  reflexivity.
Qed.

(** With a Basic policy active on r-1 the tier select shows the tier of an
    active policy of r-1; with no policy it shows Basic. *)
Lemma tier_select_follows_active_policy_witness :
  let covered :=
    Some (Sample.overview (Sample.user verified (Some Sample.body))
            [Sample.request "r-1" approved] [Sample.paid] [] []
            (Ledger.policies Sample.withBasic)) in
  (∃ p, p ∈ activePolicies covered
        ∧ InsurancePolicyRecord.request_id p = "r-1"
        ∧ syncSelectedTier (policiesByRequest covered) "r-1"
          = (InsurancePolicyRecord.tier p, Some (InsurancePolicyRecord.tier p)))
  ∧ syncSelectedTier (policiesByRequest (Some Sample.twoRequests)) "r-1"
    = (basic, None).
Proof.
  intros covered.
  destruct (tier_select_follows_active_policy covered "r-1")
    as (Hbound & _ & _ & Hshown).
  destruct (tier_select_follows_active_policy (Some Sample.twoRequests) "r-1")
    as (_ & _ & Hnone & _).
  split.
  - apply Hshown; [discriminate|]. apply Hbound. vm_compute. eexists; reflexivity.
  - apply Hnone. right. intros p Hp. inversion Hp.
Defined.

End EnrollmentFacts.

(** ** Part XVII. The admin pricing form: further properties *)

Section PricingFormFacts.

Implicit Types (prev : option Draft.t) (d : Draft.t).

(** X12. An edit of one cell of the tier or bucket matrix stores the value
    in that cell and touches no other cell and no other setting; edits of
    different cells commute, of the same cell the last one wins; and a draft
    that is not loaded yet stays unloaded. *)
Theorem matrix_edits_are_independent
    (tier tier' : InsuranceTier) (bucket bucket' : HealthBucket)
    (v w : JsNum) prev :
  (let after := changeInsuranceField tier v prev in
   getTier tier ∘ Draft.insurance_pricing <$> after = const v <$> prev
   ∧ (tier' ≠ tier →
      getTier tier' ∘ Draft.insurance_pricing <$> after
      = getTier tier' ∘ Draft.insurance_pricing <$> prev)
   ∧ Draft.health_bucket_multipliers <$> after
     = Draft.health_bucket_multipliers <$> prev
   ∧ Draft.points_discount <$> after = Draft.points_discount <$> prev
   ∧ (λ d, (Draft.pricing_per_step d, Draft.scale_min d, Draft.scale_max d,
            Draft.scale_step d)) <$> after
     = (λ d, (Draft.pricing_per_step d, Draft.scale_min d, Draft.scale_max d,
              Draft.scale_step d)) <$> prev)
  ∧ (let after := changeBucketField bucket v prev in
     getBucket bucket ∘ Draft.health_bucket_multipliers <$> after
     = const v <$> prev
     ∧ (bucket' ≠ bucket →
        getBucket bucket' ∘ Draft.health_bucket_multipliers <$> after
        = getBucket bucket' ∘ Draft.health_bucket_multipliers <$> prev)
     ∧ Draft.insurance_pricing <$> after = Draft.insurance_pricing <$> prev
     ∧ Draft.points_discount <$> after = Draft.points_discount <$> prev
     ∧ (λ d, (Draft.pricing_per_step d, Draft.scale_min d, Draft.scale_max d,
              Draft.scale_step d)) <$> after
       = (λ d, (Draft.pricing_per_step d, Draft.scale_min d, Draft.scale_max d,
                Draft.scale_step d)) <$> prev)
  ∧ (tier' ≠ tier →
     changeInsuranceField tier v (changeInsuranceField tier' w prev)
     = changeInsuranceField tier' w (changeInsuranceField tier v prev))
  ∧ (bucket' ≠ bucket →
     changeBucketField bucket v (changeBucketField bucket' w prev)
     = changeBucketField bucket' w (changeBucketField bucket v prev))
  ∧ changeInsuranceField tier v (changeBucketField bucket w prev)
    = changeBucketField bucket w (changeInsuranceField tier v prev)
  ∧ changeInsuranceField tier v (changeInsuranceField tier w prev)
    = changeInsuranceField tier v prev
  ∧ changeBucketField bucket v (changeBucketField bucket w prev)
    = changeBucketField bucket v prev
  ∧ changeInsuranceField tier v None = None
  ∧ changeBucketField bucket v None = None.
Proof.
  destruct prev as [d|]; simpl.
  - repeat split;
      try (intros Hne);
      solve [ destruct tier, tier'; first [reflexivity | contradiction]
            | destruct bucket, bucket'; first [reflexivity | contradiction]
            | destruct tier, bucket; reflexivity
            | destruct tier; reflexivity
            | destruct bucket; reflexivity ].
  - repeat split.
Qed.

(** Raising the Plus price leaves the Basic price and the multipliers as they
    were. *)
Lemma matrix_edits_are_independent_witness :
  let after := changeInsuranceField plus (Finite 35) (Some Sample.draft) in
  getTier plus ∘ Draft.insurance_pricing <$> after = Some (Finite 35)
  ∧ getTier basic ∘ Draft.insurance_pricing <$> after = Some (Finite 20).
Proof.
  destruct (matrix_edits_are_independent plus basic good good
              (Finite 35) (Finite 0) (Some Sample.draft))
    as ((Hset & Hother & _) & _).
  split; [exact Hset | apply Hother; discriminate].
Defined.








Lemma all_digits_pattern (text : string) :
  all_digits text = true → NUMBER_INPUT_PATTERN text = true.
Proof.
  induction text as [|c rest IH]; [reflexivity|]. simpl.
  intros H. apply andb_true_iff in H as [Hc Hrest]. rewrite Hc.
  apply IH, Hrest.
Qed.

Lemma point_is_no_digit : is_digit "."%char = false.
Proof. reflexivity. Qed.

(** X14. The text of a pricing field of the later version is always a run
    of digits, optionally followed by a point and another run of digits:
    that is what the pattern accepts, an accepted keystroke replaces the
    text, and one the pattern rejects leaves the text as it was. *)
Theorem display_matches_pattern (raw display : string) :
  (NUMBER_INPUT_PATTERN raw = true
   ↔ ∃ whole frac,
       all_digits whole = true ∧ all_digits frac = true
       ∧ (raw = whole ∨ raw = whole +:+ "." +:+ frac))
  ∧ (NUMBER_INPUT_PATTERN raw = true → handleChange raw display = raw)
  ∧ (NUMBER_INPUT_PATTERN raw = false → handleChange raw display = display)
  ∧ (NUMBER_INPUT_PATTERN display = true →
     NUMBER_INPUT_PATTERN (handleChange raw display) = true).
Proof.
  split.
  { split.
    - induction raw as [|c rest IH].
      + intros _. exists "", "". repeat split. left. reflexivity.
      + simpl. destruct (is_digit c) eqn:Hc.
        * intros H. destruct (IH H) as (whole & frac & Hw & Hf & Hshape).
          exists (String c whole), frac. simpl. rewrite Hc, Hw.
          repeat split; [exact Hf|].
          destruct Hshape as [->| ->]; [left | right]; reflexivity.
        * destruct (Ascii.eqb_spec c "."%char) as [->|]; [|discriminate].
          intros H. exists "", rest. repeat split; [exact H|].
          right. reflexivity.
    - intros (whole & frac & Hw & Hf & [->| ->]);
        [apply all_digits_pattern, Hw|].
      induction whole as [|c whole IH].
      + simpl. exact Hf.
      + simpl in Hw. apply andb_true_iff in Hw as [Hc Hw].
        simpl. rewrite Hc. apply IH, Hw. }
  unfold handleChange.
  split; [intros ->; rewrite orb_true_r; reflexivity|].
  split.
  { intros Hno. rewrite Hno, orb_false_r.
    destruct (String.eqb_spec raw "") as [->|]; [discriminate | reflexivity]. }
  intros Hd.
  destruct (String.eqb raw "" || NUMBER_INPUT_PATTERN raw) eqn:Hok; [|exact Hd].
  apply orb_true_iff in Hok as [Hempty|Hok]; [|exact Hok].
  apply String.eqb_eq in Hempty. subst raw. reflexivity.
Qed.

(** Typing a second point, a sign or an exponent is ignored. *)
Lemma display_matches_pattern_witness :
  handleChange "12.5" "12." = "12.5"
  ∧ handleChange "12.5." "12.5" = "12.5"
  ∧ handleChange "-1" "" = ""
  ∧ handleChange "1e3" "1" = "1".
Proof.
  split; [apply (display_matches_pattern "12.5" "12."); reflexivity|].
  split; [apply (display_matches_pattern "12.5." "12.5"); reflexivity|].
  split; [apply (display_matches_pattern "-1" ""); reflexivity|].
  apply (display_matches_pattern "1e3" "1"); reflexivity.
Defined.

End PricingFormFacts.

(** ** Part XVIII. The support desk: properties *)

Lemma filter_cons_eq {A} (f : A → bool) (a : A) (l : list A) :
  List.filter f (a :: l) = if f a then a :: List.filter f l else List.filter f l.
Proof. reflexivity. Qed.

Lemma filter_none {A} (f : A → bool) (l : list A) :
  (∀ a, a ∈ l → f a = false) → List.filter f l = [].
Proof.
  induction l as [|a l IH]; intros Hnone; [reflexivity|].
  rewrite filter_cons_eq, (Hnone a) by left. apply IH.
  intros b Hb. apply Hnone. right. exact Hb.
Qed.

Lemma filter_agree {A} (f g : A → bool) (l : list A) :
  (∀ a, a ∈ l → f a = g a) → List.filter f l = List.filter g l.
Proof.
  induction l as [|a l IH]; intros Hfg; [reflexivity|].
  rewrite !filter_cons_eq, (Hfg a) by left.
  rewrite IH; [reflexivity|]. intros b Hb. apply Hfg. right. exact Hb.
Qed.

Lemma StronglySorted_weaken {A} (R R' : A → A → Prop) (l : list A) :
  (∀ a b, a ∈ l → b ∈ l → R a b → R' a b) →
  StronglySorted R l → StronglySorted R' l.
Proof.
  induction l as [|a l IH]; intros Hw Hs; [constructor|].
  apply StronglySorted_inv in Hs as [Hs Ha]. constructor.
  - apply IH; [|exact Hs]. intros x y Hx Hy. apply Hw; right; assumption.
  - rewrite Forall_forall in Ha. apply Forall_forall. intros b Hb.
    apply Hw; [left | right; exact Hb | apply Ha, Hb].
Qed.

(** *** The insertion sort keeps the contract of [Array.prototype.sort] *)

Section InsertionSort.

Context {A : Type} (cmp : A → A → option Z).

Lemma insertBy_Permutation (x : A) (l : list A) : insertBy cmp x l ≡ₚ x :: l.
Proof.
  induction l as [|y rest IH]; [reflexivity|]. simpl.
  destruct (sortCompare cmp x y <=? 0)%Z; [reflexivity|].
  rewrite IH. apply perm_swap.
Qed.

Lemma insertionSort_Permutation (l : list A) : insertionSort cmp l ≡ₚ l.
Proof.
  induction l as [|x l IH]; [reflexivity|].
  unfold insertionSort. simpl. rewrite insertBy_Permutation.
  constructor. exact IH.
Qed.

Variable values : list A.
Hypothesis Hconsistent : consistent cmp values.

Lemma sortCompare_zero (a b : A) :
  a ∈ values → b ∈ values →
  (sortCompare cmp a b = 0%Z ↔ cmp a b = Some 0%Z).
Proof.
  intros Ha Hb. destruct Hconsistent as (Hnum & _).
  destruct (Hnum a b Ha Hb) as [v Hv]. unfold sortCompare. rewrite Hv. simpl.
  split; [intros -> | intros Heq; injection Heq as ->]; reflexivity.
Qed.

Lemma sortCompare_self (a : A) : a ∈ values → sortCompare cmp a a = 0%Z.
Proof.
  intros Ha. destruct Hconsistent as (_ & Hrefl & _).
  unfold sortCompare. rewrite (Hrefl a Ha). reflexivity.
Qed.

Lemma sortCompare_sym (a b : A) :
  a ∈ values → b ∈ values →
  sortCompare cmp a b = 0%Z → sortCompare cmp b a = 0%Z.
Proof.
  intros Ha Hb H0. destruct Hconsistent as (_ & _ & Hsym & _).
  apply sortCompare_zero; [assumption..|]. apply Hsym; [assumption..|].
  apply sortCompare_zero; assumption.
Qed.

(** Greater one way is less the other way. *)
Lemma sortCompare_flip (a b : A) :
  a ∈ values → b ∈ values →
  (0 < sortCompare cmp a b)%Z → (sortCompare cmp b a < 0)%Z.
Proof.
  intros Ha Hb Hgt.
  destruct (Z.lt_trichotomy (sortCompare cmp b a) 0) as [Hlt|[Heq|Hgt']];
    [exact Hlt| |].
  - apply sortCompare_sym in Heq; [lia | assumption..].
  - destruct Hconsistent as (_ & _ & _ & _ & _ & Hgt_trans).
    pose proof (Hgt_trans a b a Ha Hb Ha Hgt Hgt') as Hself.
    rewrite (sortCompare_self a Ha) in Hself. lia.
Qed.

Lemma sortCompare_le_trans (a b c : A) :
  a ∈ values → b ∈ values → c ∈ values →
  (sortCompare cmp a b ≤ 0)%Z → (sortCompare cmp b c ≤ 0)%Z →
  (sortCompare cmp a c ≤ 0)%Z.
Proof.
  intros Ha Hb Hc Hab Hbc.
  destruct (Z.le_gt_cases (sortCompare cmp a c) 0) as [Hle|Hgt]; [exact Hle|].
  exfalso. pose proof (sortCompare_flip a c Ha Hc Hgt) as Hca.
  pose proof Hconsistent as (_ & _ & _ & Heq_trans & Hlt_trans & _).
  destruct (proj1 (Z.le_lteq _ _) Hab) as [Hab'|Hab'];
    destruct (proj1 (Z.le_lteq _ _) Hbc) as [Hbc'|Hbc'].
  - pose proof (Hlt_trans a b c Ha Hb Hc Hab' Hbc'). lia.
  - pose proof (Hlt_trans c a b Hc Ha Hb Hca Hab') as Hcb.
    apply sortCompare_sym in Hbc'; [lia | assumption..].
  - pose proof (Hlt_trans b c a Hb Hc Ha Hbc' Hca) as Hba.
    apply sortCompare_sym in Hab'; [lia | assumption..].
  - apply sortCompare_zero in Hab'; [|assumption..].
    apply sortCompare_zero in Hbc'; [|assumption..].
    pose proof (Heq_trans a b c Ha Hb Hc Hab' Hbc') as Hac.
    apply sortCompare_zero in Hac; [lia | assumption..].
Qed.

Lemma insertBy_sorted (x : A) (l : list A) :
  x ∈ values → (∀ a, a ∈ l → a ∈ values) →
  StronglySorted (λ a b, (sortCompare cmp a b ≤ 0)%Z) l →
  StronglySorted (λ a b, (sortCompare cmp a b ≤ 0)%Z) (insertBy cmp x l).
Proof.
  intros Hx Hl Hsorted.
  induction l as [|y rest IH]; [repeat constructor|].
  apply StronglySorted_inv in Hsorted as [Hrest Hy_le].
  assert (Hy : y ∈ values) by (apply Hl; left).
  assert (Hrest_in : ∀ a, a ∈ rest → a ∈ values)
    by (intros a Ha; apply Hl; right; exact Ha).
  simpl. destruct (sortCompare cmp x y <=? 0)%Z eqn:Hc.
  - apply Z.leb_le in Hc. constructor; [constructor; assumption|].
    constructor; [exact Hc|].
    rewrite Forall_forall in Hy_le. apply Forall_forall. intros z Hz.
    apply (sortCompare_le_trans x y z); auto.
  - apply Z.leb_gt in Hc. constructor; [apply IH; assumption|].
    rewrite insertBy_Permutation. constructor; [|exact Hy_le].
    pose proof (sortCompare_flip x y Hx Hy Hc). lia.
Qed.

Lemma insertionSort_sorted (l : list A) :
  (∀ a, a ∈ l → a ∈ values) →
  StronglySorted (λ a b, (sortCompare cmp a b ≤ 0)%Z) (insertionSort cmp l).
Proof.
  induction l as [|x l IH]; intros Hl; [constructor|].
  unfold insertionSort. simpl foldr. apply insertBy_sorted.
  - apply Hl. left.
  - intros a Ha. apply Hl. right.
    rewrite <- (insertionSort_Permutation l). exact Ha.
  - apply IH. intros a Ha. apply Hl. right. exact Ha.
Qed.

(** Inserting keeps the values equal to [x] in their order. *)
Lemma insertBy_stable (x z : A) (l : list A) :
  x ∈ values → z ∈ values → (∀ a, a ∈ l → a ∈ values) →
  List.filter (λ y, bool_decide (cmp x y = Some 0%Z)) (insertBy cmp z l)
  = List.filter (λ y, bool_decide (cmp x y = Some 0%Z)) (z :: l).
Proof.
  intros Hx Hz Hl.
  induction l as [|y rest IH]; [reflexivity|].
  assert (Hy : y ∈ values) by (apply Hl; left).
  simpl insertBy.
  destruct (sortCompare cmp z y <=? 0)%Z eqn:Hc; [reflexivity|].
  apply Z.leb_gt in Hc.
  rewrite (filter_cons_eq _ y (insertBy cmp z rest)), IH
    by (intros a Ha; apply Hl; right; exact Ha).
  rewrite !filter_cons_eq.
  destruct (bool_decide_reflect (cmp x z = Some 0%Z)) as [Hxz|Hxz];
    destruct (bool_decide_reflect (cmp x y = Some 0%Z)) as [Hxy|Hxy];
    try reflexivity.
  exfalso. destruct Hconsistent as (_ & _ & Hsym & Heq_trans & _).
  pose proof (Heq_trans z x y Hz Hx Hy (Hsym x z Hx Hz Hxz) Hxy) as Hzy.
  unfold sortCompare in Hc. rewrite Hzy in Hc. simpl in Hc. lia.
Qed.

Lemma insertionSort_stable (x : A) (l : list A) :
  x ∈ values → (∀ a, a ∈ l → a ∈ values) →
  List.filter (λ y, bool_decide (cmp x y = Some 0%Z)) (insertionSort cmp l)
  = List.filter (λ y, bool_decide (cmp x y = Some 0%Z)) l.
Proof.
  intros Hx. induction l as [|z l IH]; intros Hl; [reflexivity|].
  unfold insertionSort. simpl foldr. fold (insertionSort cmp l).
  rewrite insertBy_stable.
  - rewrite !filter_cons_eq, IH; [reflexivity|].
    intros a Ha. apply Hl. right. exact Ha.
  - exact Hx.
  - apply Hl. left.
  - intros a Ha. apply Hl. right.
    rewrite <- (insertionSort_Permutation l). exact Ha.
Qed.

End InsertionSort.

(** The insertion sort as an engine. *)
Definition insertionEngine {A : Type} : ArraySort A :=
  {| sort := insertionSort;
     sort_permutes := insertionSort_Permutation;
     sort_ordered := λ cmp l Hc,
       insertionSort_sorted cmp l Hc l (λ a Ha, Ha);
     sort_stable := λ cmp l x Hc Hx,
       insertionSort_stable cmp l Hc x l Hx (λ a Ha, Ha) |}.

Section SupportDeskFacts.

Variable getTime : string → option Z.
Variable trim : string → string.
Variable engine : ArraySort SupportSessionRecord.t.

Implicit Types (data sessions : list SupportSessionRecord.t).
Implicit Types (x y updated : SupportSessionRecord.t) (desk : SupportDesk.t).

Lemma sortSessions_Permutation data :
  sortSessions getTime engine data ≡ₚ data.
Proof. apply sort_permutes. Qed.

Lemma elem_of_sortSessions data x :
  x ∈ sortSessions getTime engine data ↔ x ∈ data.
Proof. rewrite sortSessions_Permutation. reflexivity. Qed.

Lemma compareSessions_valid x y tx ty :
  getTime (SupportSessionRecord.updated_at x) = Some tx →
  getTime (SupportSessionRecord.updated_at y) = Some ty →
  compareSessions getTime x y = Some (ty - tx)%Z.
Proof. intros Hx Hy. unfold compareSessions. rewrite Hx, Hy. reflexivity. Qed.

(** With valid dates throughout, the comparator of [refresh] is consistent. *)
Lemma compareSessions_consistent data :
  (∀ s, s ∈ data → is_Some (getTime (SupportSessionRecord.updated_at s))) →
  consistent (compareSessions getTime) data.
Proof.
  intros Hvalid.
  assert (Hcmp : ∀ a b, a ∈ data → b ∈ data →
            ∃ ta tb,
              getTime (SupportSessionRecord.updated_at a) = Some ta
              ∧ getTime (SupportSessionRecord.updated_at b) = Some tb
              ∧ compareSessions getTime a b = Some (tb - ta)%Z).
  { intros a b Ha Hb. destruct (Hvalid a Ha) as [ta Hta].
    destruct (Hvalid b Hb) as [tb Htb]. exists ta, tb.
    split; [exact Hta|]. split; [exact Htb|].
    apply compareSessions_valid; assumption. }
  repeat split.
  - intros a b Ha Hb. destruct (Hcmp a b Ha Hb) as (ta & tb & _ & _ & ->).
    eexists; reflexivity.
  - intros a Ha. destruct (Hcmp a a Ha Ha) as (ta & ta' & H1 & H2 & ->).
    rewrite H1 in H2. injection H2 as <-. f_equal. lia.
  - intros a b Ha Hb. destruct (Hcmp a b Ha Hb) as (ta & tb & H1 & H2 & ->).
    rewrite (compareSessions_valid b a tb ta H2 H1).
    intros Heq. injection Heq as Heq. f_equal. lia.
  - intros a b c Ha Hb Hc.
    destruct (Hcmp a b Ha Hb) as (ta & tb & H1 & H2 & ->).
    destruct (Hvalid c Hc) as [tc H3].
    rewrite (compareSessions_valid b c tb tc H2 H3),
      (compareSessions_valid a c ta tc H1 H3).
    intros Hab Hbc. injection Hab as Hab. injection Hbc as Hbc. f_equal. lia.
  - intros a b c Ha Hb Hc. unfold sortCompare.
    destruct (Hcmp a b Ha Hb) as (ta & tb & H1 & H2 & ->).
    destruct (Hvalid c Hc) as [tc H3].
    rewrite (compareSessions_valid b c tb tc H2 H3),
      (compareSessions_valid a c ta tc H1 H3). simpl. lia.
  - intros a b c Ha Hb Hc. unfold sortCompare.
    destruct (Hcmp a b Ha Hb) as (ta & tb & H1 & H2 & ->).
    destruct (Hvalid c Hc) as [tc H3].
    rewrite (compareSessions_valid b c tb tc H2 H3),
      (compareSessions_valid a c ta tc H1 H3). simpl. lia.
Qed.

(** X15. Sorting the fetched sessions loses and invents none.  When every
    update time is a valid date the comparator of [refresh] is consistent,
    so whatever the engine, the result runs from the newest to the oldest
    and keeps sessions of the same update time in the order the server sent
    them.  (With an invalid date the comparator yields [NaN] and the order
    is the engine's own.) *)
Theorem sortSessions_newest_first data :
  sortSessions getTime engine data ≡ₚ data
  ∧ ((∀ s, s ∈ data → is_Some (getTime (SupportSessionRecord.updated_at s))) →
     consistent (compareSessions getTime) data
     ∧ StronglySorted
         (λ a b, ∃ ta tb,
            getTime (SupportSessionRecord.updated_at a) = Some ta
            ∧ getTime (SupportSessionRecord.updated_at b) = Some tb
            ∧ (tb ≤ ta)%Z)
         (sortSessions getTime engine data)
     ∧ ∀ t : Z,
         List.filter
           (λ s, bool_decide
                   (getTime (SupportSessionRecord.updated_at s) = Some t))
           (sortSessions getTime engine data)
         = List.filter
             (λ s, bool_decide
                     (getTime (SupportSessionRecord.updated_at s) = Some t))
             data).
Proof.
  split; [apply sortSessions_Permutation|].
  intros Hvalid.
  pose proof (compareSessions_consistent data Hvalid) as Hcons.
  split; [exact Hcons|].
  split.
  - apply (StronglySorted_weaken
             (λ a b, (sortCompare (compareSessions getTime) a b ≤ 0)%Z));
      [|apply sort_ordered, Hcons].
    intros a b Ha Hb Hle.
    apply (proj1 (elem_of_sortSessions data a)) in Ha.
    apply (proj1 (elem_of_sortSessions data b)) in Hb.
    destruct (Hvalid a Ha) as [ta Hta]. destruct (Hvalid b Hb) as [tb Htb].
    exists ta, tb. split; [exact Hta|]. split; [exact Htb|].
    unfold sortCompare in Hle.
    rewrite (compareSessions_valid a b ta tb Hta Htb) in Hle. simpl in Hle.
    lia.
  - intros t.
    destruct (List.find
                (λ s, bool_decide
                        (getTime (SupportSessionRecord.updated_at s) = Some t))
                data) as [x|] eqn:Hfind.
    + apply find_some in Hfind as [Hx Htx].
      apply list_elem_of_In in Hx. apply bool_decide_eq_true in Htx.
      assert (Hsame : ∀ l, (∀ a, a ∈ l → a ∈ data) →
                List.filter
                  (λ s, bool_decide
                          (getTime (SupportSessionRecord.updated_at s) = Some t))
                  l
                = List.filter
                    (λ y, bool_decide (compareSessions getTime x y = Some 0%Z))
                    l).
      { intros l Hl. apply filter_agree. intros a Ha.
        destruct (Hvalid a (Hl a Ha)) as [ta Hta].
        rewrite (compareSessions_valid x a t ta Htx Hta), Hta.
        apply bool_decide_ext. split; intros Heq; injection Heq as Heq;
          f_equal; lia. }
      rewrite (Hsame (sortSessions getTime engine data))
        by (intros a Ha; apply elem_of_sortSessions, Ha).
      rewrite (Hsame data) by auto.
      apply sort_stable; assumption.
    + pose proof (find_none _ _ Hfind) as Hnone.
      rewrite !filter_none; [reflexivity| |].
      * intros a Ha. apply Hnone, list_elem_of_In, Ha.
      * intros a Ha. apply Hnone, list_elem_of_In.
        apply (proj1 (elem_of_sortSessions data a)), Ha.
Qed.

Lemma existsb_session_id sessions (wanted : string) :
  existsb (λ session, String.eqb (SupportSessionRecord.id session) wanted)
    sessions = true
  ↔ ∃ s, s ∈ sessions ∧ SupportSessionRecord.id s = wanted.
Proof.
  rewrite existsb_exists. split; intros (s & Hin & Heq); exists s.
  - split; [apply list_elem_of_In, Hin | apply String.eqb_eq, Heq].
  - split; [apply list_elem_of_In, Hin | apply String.eqb_eq, Heq].
Qed.

Lemma find_session_Some sessions (wanted : string) :
  (∃ s, s ∈ sessions ∧ SupportSessionRecord.id s = wanted) →
  ∃ s, List.find
         (λ session, String.eqb (SupportSessionRecord.id session) wanted)
         sessions = Some s
       ∧ SupportSessionRecord.id s = wanted.
Proof.
  intros Hex. apply existsb_session_id in Hex.
  induction sessions as [|y rest IH]; [discriminate|].
  simpl in *.
  destruct (String.eqb_spec (SupportSessionRecord.id y) wanted) as [Heq|Hne].
  - exists y. split; [reflexivity | exact Heq].
  - apply IH. exact Hex.
Qed.

(** X16. After a successful refresh nothing is selected only when there is
    no session at all; otherwise the selection names a listed session, which
    the detail pane shows; a previous selection that is still listed is kept;
    and a failed refresh keeps the sessions and the selection and shows the
    error. *)
Theorem refresh_selects_listed_session data (message : string) desk :
  let desk' := refresh getTime engine (inr data) desk in
  (SupportDesk.selectedSessionId desk' = None ↔ data = [])
  ∧ (data ≠ [] →
     ∃ s, s ∈ data
          ∧ SupportDesk.selectedSessionId desk' = Some (SupportSessionRecord.id s)
          ∧ ∃ shown,
              activeSession (SupportDesk.sessions desk')
                (SupportDesk.selectedSessionId desk') = Some shown
              ∧ SupportSessionRecord.id shown = SupportSessionRecord.id s)
  ∧ (∀ previous,
       SupportDesk.selectedSessionId desk = Some previous →
       previous ≠ "" →
       (∃ s, s ∈ data ∧ SupportSessionRecord.id s = previous) →
       SupportDesk.selectedSessionId desk' = Some previous)
  ∧ (let failed := refresh getTime engine (inl message) desk in
     SupportDesk.sessions failed = SupportDesk.sessions desk
     ∧ SupportDesk.selectedSessionId failed = SupportDesk.selectedSessionId desk
     ∧ SupportDesk.error failed = Some message).
Proof.
  simpl. unfold refreshSelection.
  set (sorted := sortSessions getTime engine data).
  set (prev := SupportDesk.selectedSessionId desk).
  assert (Hmem : ∀ s, s ∈ sorted ↔ s ∈ data) by (intros s; apply elem_of_sortSessions).
  assert (Hnil : sorted = [] ↔ data = []).
  { subst sorted. split; intros H.
    - apply Permutation_nil_r. rewrite <- H. symmetry.
      apply sortSessions_Permutation.
    - apply Permutation_nil_r. rewrite sortSessions_Permutation, H.
      reflexivity. }
  destruct (truthy prev
            && existsb (λ session,
                          String.eqb (SupportSessionRecord.id session)
                            (default "" prev))
                 sorted) eqn:Hkeep.
  - apply andb_true_iff in Hkeep as [Htruthy Hlisted].
    destruct prev as [p|] eqn:Hprev; [|discriminate]. simpl in Hlisted.
    apply existsb_session_id in Hlisted.
    split.
    { split; [discriminate|]. intros Hdata. apply Hnil in Hdata.
      destruct Hlisted as (s & Hin & _). rewrite Hdata in Hin. inversion Hin. }
    split.
    { intros _. destruct (find_session_Some _ _ Hlisted) as (shown & Hfind & Hid).
      destruct Hlisted as (s & Hin & Hsid). exists s.
      split; [apply Hmem, Hin|]. split; [rewrite Hsid; reflexivity|].
      exists shown. split; [exact Hfind | rewrite Hid, Hsid; reflexivity]. }
    split; [|repeat split].
    intros previous Hp _ _. exact Hp.
  - split.
    { rewrite <- Hnil. destruct sorted; simpl; split; congruence. }
    split.
    { intros Hdata. destruct sorted as [|first rest] eqn:Hsorted.
      - destruct Hdata. apply Hnil. reflexivity.
      - exists first. split; [apply Hmem; left|]. split; [reflexivity|].
        simpl. rewrite String.eqb_refl. exists first. split; reflexivity. }
    split; [|repeat split].
    intros previous Hp Hne Hex. exfalso.
    rewrite Hp in Hkeep. simpl in Hkeep.
    apply String.eqb_neq in Hne. rewrite Hne in Hkeep. simpl in Hkeep.
    destruct Hex as (s & Hin & Hid).
    assert (Hl : existsb
                   (λ session, String.eqb (SupportSessionRecord.id session) previous)
                   sorted = true)
      by (apply existsb_session_id; exists s; split; [apply Hmem, Hin | exact Hid]).
    rewrite Hl in Hkeep. discriminate.
Qed.

Lemma replaceSession_ids updated sessions :
  SupportSessionRecord.id <$> replaceSession updated sessions
  = SupportSessionRecord.id <$> sessions.
Proof.
  unfold replaceSession. induction sessions as [|y rest IH]; [reflexivity|].
  rewrite !fmap_cons, IH. f_equal.
  destruct (String.eqb_spec (SupportSessionRecord.id y)
              (SupportSessionRecord.id updated)) as [Heq|]; congruence.
Qed.

Lemma find_cons_eq {A} (f : A → bool) (a : A) (l : list A) :
  List.find f (a :: l) = if f a then Some a else List.find f l.
Proof. reflexivity. Qed.

Lemma replaceSession_find updated sessions (wanted : string) s :
  List.find (λ session, String.eqb (SupportSessionRecord.id session) wanted)
    sessions = Some s →
  List.find (λ session, String.eqb (SupportSessionRecord.id session) wanted)
    (replaceSession updated sessions)
  = Some (if String.eqb (SupportSessionRecord.id s)
               (SupportSessionRecord.id updated)
          then updated else s).
Proof.
  unfold replaceSession. induction sessions as [|y rest IH]; [discriminate|].
  rewrite fmap_cons, !find_cons_eq.
  set (replaced := if String.eqb (SupportSessionRecord.id y)
                        (SupportSessionRecord.id updated)
                   then updated else y).
  assert (Hid : SupportSessionRecord.id replaced = SupportSessionRecord.id y).
  { subst replaced.
    destruct (String.eqb_spec (SupportSessionRecord.id y)
                (SupportSessionRecord.id updated)); congruence. }
  rewrite Hid.
  destruct (String.eqb (SupportSessionRecord.id y) wanted).
  - intros Hs. injection Hs as <-. reflexivity.
  - exact IH.
Qed.

(** X17. Sending a reply needs a shown session and a draft that is not
    blank: otherwise nothing happens.  When the server answers with the
    updated session, the list keeps its length, order and ids, sessions with
    another id are untouched, the detail pane shows the updated session and
    the draft is cleared; when the request fails, sessions and draft are kept
    and the error is shown. *)
Theorem sent_reply_updates_shown_session updated (message : string) desk :
  ((activeSession (SupportDesk.sessions desk)
      (SupportDesk.selectedSessionId desk) = None
    ∨ trim (SupportDesk.messageDraft desk) = "") →
   ∀ outcome, handleSendMessage trim outcome desk = desk)
  ∧ (∀ shown,
       activeSession (SupportDesk.sessions desk)
         (SupportDesk.selectedSessionId desk) = Some shown →
       trim (SupportDesk.messageDraft desk) ≠ "" →
       (let desk' := handleSendMessage trim (inr updated) desk in
        SupportSessionRecord.id <$> SupportDesk.sessions desk'
        = SupportSessionRecord.id <$> SupportDesk.sessions desk
        ∧ (∀ i s, SupportDesk.sessions desk !! i = Some s →
             SupportSessionRecord.id s ≠ SupportSessionRecord.id updated →
             SupportDesk.sessions desk' !! i = Some s)
        ∧ (SupportSessionRecord.id updated = SupportSessionRecord.id shown →
           activeSession (SupportDesk.sessions desk')
             (SupportDesk.selectedSessionId desk') = Some updated)
        ∧ SupportDesk.messageDraft desk' = ""
        ∧ SupportDesk.error desk' = None
        ∧ SupportDesk.sending desk' = false)
       ∧ (let failed := handleSendMessage trim (inl message) desk in
          SupportDesk.sessions failed = SupportDesk.sessions desk
          ∧ SupportDesk.messageDraft failed = SupportDesk.messageDraft desk
          ∧ SupportDesk.error failed = Some message
          ∧ SupportDesk.sending failed = false)).
Proof.
  split.
  { intros Hidle outcome. unfold handleSendMessage.
    destruct (activeSession _ _) as [shown|]; [|reflexivity].
    destruct Hidle as [|Hblank]; [discriminate|]. rewrite Hblank. reflexivity. }
  intros shown Hshown Hdraft. apply String.eqb_neq in Hdraft.
  unfold handleSendMessage. rewrite Hshown, Hdraft. simpl.
  split; [|repeat split].
  split; [apply replaceSession_ids|].
  split.
  { intros i s Hi Hne. unfold replaceSession. rewrite list_lookup_fmap, Hi.
    simpl. apply String.eqb_neq in Hne. rewrite Hne. reflexivity. }
  split; [|repeat split].
  intros Hid. unfold activeSession in *.
  destruct (SupportDesk.selectedSessionId desk) as [selected|]; [|discriminate].
  rewrite (replaceSession_find updated _ _ _ Hshown).
  rewrite Hid, String.eqb_refl. reflexivity.
Qed.

End SupportDeskFacts.

(** Three sessions arrive oldest first; the insertion sort is an engine
    and lists them newest first. *)
Lemma sortSessions_newest_first_witness :
  let fetched :=
    [Sample.session "s-1" session_open "1";
     Sample.session "s-2" session_assigned "3";
     Sample.session "s-3" session_open "2"] in
  SupportSessionRecord.id <$> sortSessions Sample.hostTime insertionEngine fetched
  = ["s-2"; "s-3"; "s-1"]
  ∧ StronglySorted
      (λ a b, ∃ ta tb,
         Sample.hostTime (SupportSessionRecord.updated_at a) = Some ta
         ∧ Sample.hostTime (SupportSessionRecord.updated_at b) = Some tb
         ∧ (tb ≤ ta)%Z)
      (sortSessions Sample.hostTime insertionEngine fetched).
Proof.
  intros fetched. split; [reflexivity|].
  destruct (sortSessions_newest_first Sample.hostTime insertionEngine fetched)
    as (_ & Hvalid).
  apply Hvalid.
  intros s Hs. subst fetched.
  repeat (apply elem_of_cons in Hs as [->|Hs]; [eexists; reflexivity|]).
  inversion Hs.
Defined.

(** The selected session s-1 is still listed after the refresh and stays
    selected, although it is no longer the first. *)
Lemma refresh_selects_listed_session_witness :
  SupportDesk.selectedSessionId
    (refresh Sample.hostTime insertionEngine
       (inr [Sample.session "s-1" session_open "1";
             Sample.session "s-2" session_assigned "3"])
       (Sample.desk [Sample.session "s-1" session_open "1"] (Some "s-1") ""))
  = Some "s-1".
Proof.
  destruct (refresh_selects_listed_session Sample.hostTime insertionEngine
              [Sample.session "s-1" session_open "1";
               Sample.session "s-2" session_assigned "3"] ""
              (Sample.desk [Sample.session "s-1" session_open "1"] (Some "s-1") ""))
    as (_ & _ & Hkept & _).
  apply Hkept; [reflexivity | discriminate|].
  exists (Sample.session "s-1" session_open "1"). split; [left | reflexivity].
Defined.

(** A reply to s-1 comes back with the session assigned: the pane shows the
    updated session and the draft is empty. *)
Lemma sent_reply_updates_shown_session_witness :
  let desk :=
    Sample.desk [Sample.session "s-2" session_open "3";
                 Sample.session "s-1" session_open "1"] (Some "s-1") "Hello" in
  let desk' :=
    handleSendMessage Sample.hostTrim
      (inr (Sample.session "s-1" session_assigned "3")) desk in
  activeSession (SupportDesk.sessions desk') (SupportDesk.selectedSessionId desk')
  = Some (Sample.session "s-1" session_assigned "3")
  ∧ SupportDesk.messageDraft desk' = "".
Proof.
  intros desk desk'.
  destruct (sent_reply_updates_shown_session Sample.hostTrim
              (Sample.session "s-1" session_assigned "3") "" desk)
    as (_ & Hsent).
  destruct (Hsent (Sample.session "s-1" session_open "1") eq_refl)
    as ((_ & _ & Hshown & Hdraft & _) & _); [discriminate|].
  split; [apply Hshown; reflexivity | exact Hdraft].
Defined.
